(** * kb-fusion: the per-file hybrid retrieval engine ([semantic_search.py])

    A shallow embedding of the retrieval core and the properties its
    specification states about it.

    Modelling conventions.
    - A Python [str] is a Rocq [string]; a character is a code point below
      256, so [lower] is Latin-1 lower-casing and [\s] is the white space of
      that range.  The one character the code emits above that range, the
      ellipsis U+2026, is the constant [ellipsis].
    - A Python [float] / [np.float64] is an exact rational [Q]: there is
      no rounding, no overflow and no [nan].  The two
      transcendental numpy functions the code calls, [np.sqrt] (inside
      [np.std]) and [np.exp], are parameters of the development, and so is
      [np.argsort], whose order among equal keys numpy leaves open.
    - Exceptions are values: a computation that can raise has type [M A].
    - The collaborators of one query (full-text index, embedding cache,
      in-memory LRU, embedding provider) are the fields of an [Env]; the calls
      the specification speaks about are recorded in a trace of [Event]s.
      Timing and the debug output are left out. *)

From Stdlib Require Import List String Ascii Bool Arith ZArith QArith Qabs
  Lia Lqa Permutation Sorted.
Import ListNotations.

Close Scope Q_scope.
Open Scope string_scope.
Open Scope list_scope.
Open Scope nat_scope.

(** ** Exceptions *)

Inductive exn : Type :=
| ZeroDivisionError
| IndexError
| ValueError.

Inductive M (A : Type) : Type :=
| Ok (a : A)
| Raise (e : exn).

Arguments Ok {A} a.
Arguments Raise {A} e.

Definition bind {A B : Type} (m : M A) (k : A -> M B) : M B :=
  match m with
  | Ok a => k a
  | Raise e => Raise e
  end.

Notation "x <- m ;; k" := (bind m (fun x => k))
  (at level 61, m at next level, right associativity).
Notation "' pat <- m ;; k" := (bind m (fun x => match x with pat => k end))
  (at level 61, pat pattern, m at next level, right associativity).

Fixpoint mapM {A B : Type} (f : A -> M B) (l : list A) : M (list B) :=
  match l with
  | [] => Ok []
  | x :: xs => y <- f x ;; ys <- mapM f xs ;; Ok (y :: ys)
  end.

(** [l[k]] for a non-negative index. *)
Definition py_index {A : Type} (l : list A) (k : nat) : M A :=
  match nth_error l k with
  | Some a => Ok a
  | None => Raise IndexError
  end.

(** [x / y] on Python floats. *)
Definition py_div (x y : Q) : M Q :=
  if Qeq_bool y 0 then Raise ZeroDivisionError else Ok (x / y)%Q.

(** ** Characters and strings *)

Definition code (c : ascii) : nat := nat_of_ascii c.

Definition is_digit (c : ascii) : bool :=
  (48 <=? code c) && (code c <=? 57).

Definition is_lower_alpha (c : ascii) : bool :=
  (97 <=? code c) && (code c <=? 122).

(** The class [[a-z0-9]]. *)
Definition is_alnum (c : ascii) : bool := is_lower_alpha c || is_digit c.

(** The class [\s] of a [str] pattern, below code point 256. *)
Definition is_space (c : ascii) : bool :=
  let n := code c in
  ((9 <=? n) && (n <=? 13)) || ((28 <=? n) && (n <=? 32))
  || (n =? 133) || (n =? 160).

(** The class [[.!?]]. *)
Definition is_sentence_end (c : ascii) : bool :=
  let n := code c in (n =? 46) || (n =? 33) || (n =? 63).

Definition lower_char (c : ascii) : ascii :=
  let n := code c in
  if ((65 <=? n) && (n <=? 90))
     || ((192 <=? n) && (n <=? 222) && negb (n =? 215))
  then ascii_of_nat (n + 32) else c.

Fixpoint lower (s : string) : string :=
  match s with
  | EmptyString => EmptyString
  | String c s' => String (lower_char c) (lower s')
  end.

Definition space : ascii := ascii_of_nat 32.

(** U+2026, written as its UTF-8 bytes. *)
Definition ellipsis : string :=
  String (ascii_of_nat 226) (String (ascii_of_nat 128)
    (String (ascii_of_nat 166) EmptyString)).

Fixpoint rev_string (acc s : string) : string :=
  match s with
  | EmptyString => acc
  | String c s' => rev_string (String c acc) s'
  end.

(** [s[:n]] *)
Fixpoint take (n : nat) (s : string) : string :=
  match n, s with
  | S n', String c s' => String c (take n' s')
  | _, _ => EmptyString
  end.

Definition mem (x : string) (l : list string) : bool :=
  existsb (String.eqb x) l.

(** [needle in hay] *)
Fixpoint contains (needle hay : string) : bool :=
  prefix needle hay ||
  match hay with
  | EmptyString => false
  | String _ hay' => contains needle hay'
  end.

(** [sep.join(l)] *)
Definition join (sep : string) (l : list string) : string := concat sep l.

(** [re.findall(r"<class>+", s)]: the maximal runs of characters of a class.
    [cur] is the run being read, in reverse. *)
Fixpoint runs_aux (cls : ascii -> bool) (cur : string) (s : string)
  : list string :=
  match s with
  | EmptyString =>
      match cur with
      | EmptyString => []
      | _ => [rev_string EmptyString cur]
      end
  | String c s' =>
      if cls c then runs_aux cls (String c cur) s'
      else match cur with
           | EmptyString => runs_aux cls EmptyString s'
           | _ => rev_string EmptyString cur :: runs_aux cls EmptyString s'
           end
  end.

Definition runs (cls : ascii -> bool) (s : string) : list string :=
  runs_aux cls EmptyString s.

(** [tok = lambda s: re.findall(r"[a-z0-9]+", (s or "").lower())] *)
Definition tok (s : string) : list string := runs is_alnum (lower s).

(** [re.findall(r'\d+', s)] *)
Definition digit_runs (s : string) : list string := runs is_digit s.

Fixpoint all_chars (cls : ascii -> bool) (s : string) : bool :=
  match s with
  | EmptyString => true
  | String c s' => cls c && all_chars cls s'
  end.

(** [re.fullmatch(r"\d+", t)] *)
Definition is_digits (t : string) : bool :=
  negb (String.eqb t EmptyString) && all_chars is_digit t.

(** The rest of a string after its leading digits. *)
Fixpoint skip_digits (s : string) : string :=
  match s with
  | String c s' => if is_digit c then skip_digits s' else s
  | EmptyString => EmptyString
  end.

(** [re.fullmatch(r"\d+(\.\d+)?", t)] *)
Definition is_number (t : string) : bool :=
  match t with
  | String c _ =>
      is_digit c &&
      match skip_digits t with
      | EmptyString => true
      | String d frac => (code d =? 46) && is_digits frac
      end
  | EmptyString => false
  end.

(** [re.fullmatch(r"\d{3,4}", t)] *)
Definition is_year_like (t : string) : bool :=
  all_chars is_digit t && (3 <=? String.length t) && (String.length t <=? 4).

Definition STOP : list string :=
  ["i"; "me"; "my"; "myself"; "we"; "our"; "ours"; "ourselves"; "you"; "your";
   "yours"; "yourself"; "yourselves"; "he"; "him"; "his"; "himself"; "she";
   "her"; "hers"; "herself"; "it"; "its"; "itself"; "they"; "them"; "their";
   "theirs"; "themselves"; "what"; "which"; "who"; "whom"; "this"; "that";
   "these"; "those"; "am"; "is"; "are"; "was"; "were"; "be"; "been"; "being";
   "have"; "has"; "had"; "having"; "do"; "does"; "did"; "doing"; "a"; "an";
   "the"; "and"; "but"; "if"; "or"; "because"; "as"; "until"; "while"; "of";
   "at"; "by"; "for"; "with"; "through"; "during"; "before"; "after"; "above";
   "below"; "up"; "down"; "in"; "out"; "on"; "off"; "over"; "under"; "again";
   "further"; "then"; "once"; "here"; "there"; "when"; "where"; "why"; "how";
   "all"; "any"; "both"; "each"; "few"; "more"; "most"; "other"; "some";
   "such"; "no"; "nor"; "not"; "only"; "own"; "same"; "so"; "than"; "too";
   "very"; "s"; "t"; "can"; "will"; "just"; "should"; "now"].

(** [list(dict.fromkeys(l))] and the elements of [set(l)], in the order of
    first occurrence. *)
Fixpoint dedup_aux (seen : list string) (l : list string) : list string :=
  match l with
  | [] => []
  | x :: xs => if mem x seen then dedup_aux seen xs
               else x :: dedup_aux (x :: seen) xs
  end.

Definition dedup (l : list string) : list string := dedup_aux [] l.

(** ** Lists *)

(** [l[i:j]] for non-negative bounds. *)
Definition slice {A : Type} (i j : nat) (l : list A) : list A :=
  firstn (j - i) (skipn i l).

(** Stable insertion sort: [le x y] says that [x] may stand before [y]. *)
Fixpoint insert_by {A : Type} (le : A -> A -> bool) (x : A) (l : list A)
  : list A :=
  match l with
  | [] => [x]
  | y :: l' => if le x y then x :: l else y :: insert_by le x l'
  end.

Fixpoint sort_by {A : Type} (le : A -> A -> bool) (l : list A) : list A :=
  match l with
  | [] => []
  | x :: l' => insert_by le x (sort_by le l')
  end.

(** [l.index(x)] on integers, when [x in l]. *)
Fixpoint index_of (x : Z) (l : list Z) : option nat :=
  match l with
  | [] => None
  | y :: l' => if Z.eqb x y then Some 0
               else option_map S (index_of x l')
  end.

(** [l.pop(k)]: the list without its element at position [k]. *)
Fixpoint remove_nth {A : Type} (k : nat) (l : list A) : list A :=
  match k, l with
  | _, [] => []
  | 0, _ :: l' => l'
  | S k', x :: l' => x :: remove_nth k' l'
  end.

(** ** Numbers *)

Definition Qltb (x y : Q) : bool := negb (Qle_bool y x).

Definition qmin (x y : Q) : Q := if Qle_bool x y then x else y.
Definition qmax (x y : Q) : Q := if Qle_bool x y then y else x.

(** [np.min], [np.max] of a non-empty array; [0] stands for the empty one,
    which no caller passes. *)
Definition np_min (xs : list Q) : Q :=
  match xs with
  | [] => 0%Q
  | x :: xs' => fold_left qmin xs' x
  end.

Definition np_max (xs : list Q) : Q :=
  match xs with
  | [] => 0%Q
  | x :: xs' => fold_left qmax xs' x
  end.

Definition qsum (xs : list Q) : Q := fold_left Qplus xs 0%Q.

Definition of_nat (n : nat) : Q := inject_Z (Z.of_nat n).

Definition np_mean (xs : list Q) : Q := (qsum xs / of_nat (List.length xs))%Q.

(** The population variance, [np.var]. *)
Definition np_var (xs : list Q) : Q :=
  let m := np_mean xs in
  np_mean (map (fun x => ((x - m) * (x - m))%Q) xs).

(** [_minmax] *)
Definition _minmax (xs : list Q) : list Q :=
  match xs with
  | [] => []
  | _ =>
      let lo := np_min xs in
      let hi := np_max xs in
      if Qltb (hi - lo) 1e-9 then map (fun _ => 0.5%Q) xs
      else map (fun x => ((x - lo) / (hi - lo))%Q) xs
  end.

(** The dot product [u @ v] of two vectors of one dimension.  For arrays of
    different lengths numpy raises [ValueError], where [dot] stops at the
    end of the shorter one. *)
Definition vec : Type := list Q.

Fixpoint dot (u v : vec) : Q :=
  match u, v with
  | x :: u', y :: v' => (x * y + dot u' v')%Q
  | _, _ => 0%Q
  end.

(** ** Keywords and full-text expressions *)

Definition longer_first (a b : string) : bool :=
  (String.length b <? String.length a)
  || ((String.length a =? String.length b) && String.leb a b).

(** [_keywords] *)
Definition _keywords (q : string) (max_terms : nat) : list string :=
  let terms := tok q in
  let nums := filter is_number terms in
  let words :=
    filter (fun t => negb (mem t nums) && negb (mem t STOP)
                     && (2 <? String.length t)) terms in
  let words := firstn max_terms (sort_by longer_first (dedup words)) in
  dedup (nums ++ words).

Definition dquote : string := String (ascii_of_nat 34) EmptyString.

(** [_fts_or] *)
Definition _fts_or (keys : list string) : option string :=
  match keys with
  | [] => None
  | _ =>
      Some (join " OR "
              (map (fun k => if is_number k then k
                             else (dquote ++ k ++ dquote)%string) keys))
  end.

(** The truth value of an optional string. *)
Definition truthy (o : option string) : bool :=
  match o with
  | Some s => negb (String.eqb s EmptyString)
  | None => false
  end.

Definition text_of (o : option string) : string :=
  match o with
  | Some s => s
  | None => "None"
  end.

(** [_build_expanded_query] *)
Definition _build_expanded_query (orig_keys expansion_terms : list string)
  : option string :=
  match orig_keys, expansion_terms with
  | [], [] => None
  | [], _ => _fts_or expansion_terms
  | _, [] => _fts_or orig_keys
  | k0 :: _, _ =>
      let anchors := _fts_or (firstn 3 orig_keys) in
      let expansions := _fts_or (firstn 5 expansion_terms) in
      if truthy expansions then
        Some ("(" ++ text_of anchors ++ ") OR (" ++ k0 ++ " AND ("
                  ++ text_of expansions ++ "))")%string
      else anchors
  end.

(** ** The snippet builder *)

(** [re.split(r'(?<=[.!?])\s+', text)].  [after_end]: the last character
    read ends a sentence; [in_gap]: a separator is being skipped; [cur]: the
    piece being read, in reverse. *)
Fixpoint split_sentences_aux (after_end in_gap : bool) (cur : string)
  (s : string) : list string :=
  match s with
  | EmptyString => [rev_string EmptyString cur]
  | String c s' =>
      if in_gap then
        if is_space c then split_sentences_aux false true cur s'
        else split_sentences_aux (is_sentence_end c) false
               (String c EmptyString) s'
      else if after_end && is_space c then
        rev_string EmptyString cur
          :: split_sentences_aux false true EmptyString s'
      else split_sentences_aux (is_sentence_end c) false (String c cur) s'
  end.

Definition split_sentences (text : string) : list string :=
  split_sentences_aux false false EmptyString text.

(** [sum(w in sent.lower() for w in qt)] *)
Definition hits (qt : list string) (sent : string) : nat :=
  List.length (filter (fun w => contains w (lower sent)) qt).

(** [max(range(len(l)), key=lambda i: key(l[i]))]: the first position of a
    greatest key.  [i] is the position of the head of [l]. *)
Fixpoint argmax_from (key : string -> nat) (i : nat) (l : list string)
  (best best_key : nat) : nat :=
  match l with
  | [] => best
  | x :: l' =>
      if best_key <? key x then argmax_from key (S i) l' i (key x)
      else argmax_from key (S i) l' best best_key
  end.

Definition argmax (key : string -> nat) (l : list string) : nat :=
  match l with
  | [] => 0
  | x :: l' => argmax_from key 1 l' 0 (key x)
  end.

(** The part of [s] before its last space, if it has one. *)
Fixpoint cut_last_space (s : string) : option string :=
  match s with
  | EmptyString => None
  | String c s' =>
      match cut_last_space s' with
      | Some h => Some (String c h)
      | None => if Ascii.eqb c space then Some EmptyString else None
      end
  end.

(** [s.rsplit(" ", 1)[0]] *)
Definition rsplit_head (s : string) : string :=
  match cut_last_space s with
  | Some h => h
  | None => s
  end.

(** The sentences the snippet is joined from. *)
Definition snippet_window (sents : list string) (qt : list string)
  : list string :=
  let best := argmax (hits qt) sents in
  slice (Nat.max 0 (best - 1)) (Nat.min (List.length sents) (best + 3)) sents.

(** [_snippet] *)
Definition _snippet (text query : string) (max_chars : nat) : string :=
  let sents := split_sentences text in
  match sents with
  | [] => String.append (take max_chars text)
            (if max_chars <? String.length text then ellipsis else "")
  | _ =>
      let qt := dedup (tok query) in
      let out := join " " (snippet_window sents qt) in
      if max_chars <? String.length out
      then (rsplit_head (take max_chars out) ++ ellipsis)%string
      else out
  end.

(** ** Configuration *)

(** The module constants read from the environment.  The integer ones are
    natural numbers: a negative setting is outside the model. *)
Record Config : Type := {
  K_SQL : nat;
  K_FINAL : nat;
  TOP_OAI : nat;
  JACCARD_THRESHOLD : Q;
  RRF_K : nat;
  PRF_K : nat;
  PRF_M : nat;
  K_SQL2 : nat
}.

(** The values the module takes when the environment sets none. *)
Definition default_config : Config := {|
  K_SQL := 600;
  K_FINAL := 20;
  TOP_OAI := 28;
  JACCARD_THRESHOLD := 0.83%Q;
  RRF_K := 60;
  PRF_K := 10;
  PRF_M := 20;
  K_SQL2 := 900
|}.

(** ** The numpy functions the development is parametric in *)

Record Numpy : Type := {
  np_sqrt : Q -> Q;
  np_exp : Q -> Q;
  (** [np.argsort]: positions of the array in ascending order of value. *)
  np_argsort : list Q -> list nat
}.

(** What [np.argsort] promises: a permutation of the positions, along which
    the values do not decrease. *)
Definition ascending (xs : list Q) (order : list nat) : Prop :=
  forall a b : nat,
    a < b -> b < List.length order ->
    (nth (nth a order 0%nat) xs 0 <= nth (nth b order 0%nat) xs 0)%Q.

Record argsort_spec (np : Numpy) : Prop := {
  argsort_perm :
    forall xs, Permutation (np_argsort np xs) (seq 0 (List.length xs));
  argsort_sorted :
    forall xs, ascending xs (np_argsort np xs)
}.

(** ** Token sets *)

(** [set(tok(t))] *)
Definition word_set (t : string) : list string := dedup (tok t).

(** [len(a & b)] and [len(a | b)] on duplicate-free lists. *)
Definition inter_size (a b : list string) : nat :=
  List.length (filter (fun x => mem x b) a).

Definition union_size (a b : list string) : nat :=
  List.length a + List.length (filter (fun x => negb (mem x a)) b).

(** [len(a & b) / max(1, len(a | b))] *)
Definition jaccard (a b : list string) : Q :=
  (of_nat (inter_size a b) / of_nat (Nat.max 1 (union_size a b)))%Q.

Section Engine.

Variable np : Numpy.
Variable cfg : Config.

(** [np.std] *)
Definition np_std (xs : list Q) : Q := np_sqrt np (np_var xs).

(** ** The rerank budget and the PRF gate *)

(** [_adaptive_budget], with [default=80]. *)
Definition _adaptive_budget (scores : list Q) : nat :=
  let n := List.length scores in
  if n <? 10 then Nat.min n 80
  else
    let r1 := nth 0 scores 0%Q in
    let r5 := nth (Nat.min 4 (n - 1)) scores 0%Q in
    let r10 := nth (Nat.min 9 (n - 1)) scores 0%Q in
    let score_std := if 10 <=? n then np_std (firstn 10 scores) else 0.1%Q in
    if Qltb score_std 0.02 || Qltb (r1 - r10) 0.1 then 100
    else if Qltb 0.4 (r1 - r5) then 70
    else if Qltb 0.5 (r1 - r10) then 80
    else 90.

(** The tokens [_should_prf] counts. *)
Definition content_tokens (query : string) : list string :=
  filter (fun t => negb (mem t STOP) && (2 <? String.length t)) (tok query).

(** [_should_prf] *)
Definition _should_prf (query : string) (scores : list Q) : bool :=
  if List.length (content_tokens query) <=? 4 then true
  else if List.length scores <? 10 then false
  else if Qltb (np_std (firstn 10 scores)) 0.02 then true
  else false.

(** ** PRF term extraction *)

Fixpoint count_add (t : string) (m : list (string * nat))
  : list (string * nat) :=
  match m with
  | [] => [(t, 1)]
  | (k, v) :: m' => if String.eqb k t then (k, S v) :: m'
                    else (k, v) :: count_add t m'
  end.

(** The dictionary [tf_map], in insertion order. *)
Definition tf_map (doc_tokens : list string) : list (string * nat) :=
  fold_left (fun m t => count_add t m) doc_tokens [].

(** [term_scores[term] = term_scores.get(term, 0) + s] *)
Fixpoint score_add (t : string) (s : Q) (m : list (string * Q))
  : list (string * Q) :=
  match m with
  | [] => [(t, (0 + s)%Q)]
  | (k, v) :: m' => if String.eqb k t then (k, (v + s)%Q) :: m'
                    else (k, v) :: score_add t s m'
  end.

Definition idf_est (tf : nat) : Q :=
  if tf <=? 2 then 2%Q else if tf <=? 5 then 1.5%Q else 1%Q.

Definition doc_weight (score : Q) : Q :=
  if Qltb score 0 then (1 / (1 + Qabs score))%Q else score.

Definition prf_skip (query_tokens : list string) (term : string) : bool :=
  (String.length term <? 3) || mem term STOP || is_digits term
  || mem term query_tokens.

Definition Doc : Type := (Z * string * Q)%type.

(** One pass of the outer loop of [_extract_prf_terms]. *)
Definition prf_add_doc (query_tokens : list string)
  (term_scores : list (string * Q)) (d : Doc) : list (string * Q) :=
  let '(_, text, score) := d in
  fold_left
    (fun ts '(term, tf) =>
       if prf_skip query_tokens term then ts
       else score_add term (doc_weight score * of_nat tf * idf_est tf)%Q ts)
    (tf_map (tok text)) term_scores.

(** [_extract_prf_terms] *)
Definition _extract_prf_terms (docs : list Doc) (query_tokens : list string)
  : list string :=
  let term_scores :=
    fold_left (prf_add_doc query_tokens) (firstn (PRF_K cfg) docs) [] in
  let sorted_terms :=
    sort_by (fun a b => Qle_bool (snd b) (snd a)) term_scores in
  let expansion_terms :=
    map fst (filter (fun ts => Qltb 0.1 (snd ts))
                    (firstn (PRF_M cfg) sorted_terms)) in
  firstn (PRF_M cfg) expansion_terms.

(** ** Near-duplicate filter *)

(** The inner loop of [_jaccard_dedup]: does a kept candidate come within the
    threshold of [wi]? *)
Fixpoint near_duplicate (word_sets : list (list string)) (threshold : Q)
  (wi : list string) (keep : list nat) : M bool :=
  match keep with
  | [] => Ok false
  | j :: keep' =>
      wj <- py_index word_sets j ;;
      if Qle_bool threshold (jaccard wi wj) then Ok true
      else near_duplicate word_sets threshold wi keep'
  end.

(** The outer loop of [_jaccard_dedup]. *)
Fixpoint dedup_loop (word_sets : list (list string)) (threshold : Q)
  (order keep : list nat) : M (list nat) :=
  match order with
  | [] => Ok keep
  | i :: order' =>
      wi <- py_index word_sets i ;;
      dup <- near_duplicate word_sets threshold wi keep ;;
      dedup_loop word_sets threshold order'
        (if dup then keep else keep ++ [i])
  end.

(** [_jaccard_dedup] *)
Definition _jaccard_dedup (texts : list string) (scores : list Q)
  (threshold : Q) : M (list nat) :=
  if List.length texts <=? 1 then Ok (seq 0 (List.length texts))
  else
    dedup_loop (map word_set texts) threshold
      (np_argsort np (map Qopp scores)) [].

(** ** Boost features *)

(** The [n]-grams of [qt] joined by a space. *)
Definition ngrams (n : nat) (qt : list string) : list string :=
  map (fun i => join " " (slice i (i + n) qt))
      (seq 0 (List.length qt + 1 - n)).

(** [normalize], the local helper of [_compute_boost_features]. *)
Definition normalize (arr : list Q) : M (list Q) :=
  match arr with
  | [] => Raise ValueError
  | _ =>
      let lo := np_min arr in
      let ptp := (np_max arr - np_min arr)%Q in
      Ok (map (fun x => ((x - lo) / (ptp + 1e-9))%Q) arr)
  end.

Definition jaccard_feature (qs : list string) (txt : string) : Q :=
  jaccard qs (dedup (tok txt)).

Definition phrase_feature (phrases : list string) (txt : string) : Q :=
  let s := join " " (tok txt) in
  (of_nat (List.length
             (filter (fun p => negb (String.eqb p "") && contains p s)
                     phrases))
   / of_nat (Nat.max 1 (List.length phrases)))%Q.

Definition digit_feature (qnums : list string) (txt : string) : Q :=
  let s := join " " (tok txt) in
  if 0 <? inter_size qnums (dedup (digit_runs s)) then 1%Q else 0%Q.

Definition query_phrases (qt : list string) : list string :=
  match dedup (ngrams 2 qt ++ ngrams 3 qt) with
  | [] => [""]
  | ps => ps
  end.

(** [qt], the query tokens that are no stop words. *)
Definition boost_tokens (query : string) : list string :=
  filter (fun t => negb (mem t STOP)) (tok query).

(** [_compute_boost_features] *)
Definition _compute_boost_features (texts : list string) (query : string)
  : M (list Q * list Q * list Q) :=
  let qt := boost_tokens query in
  let qs := dedup qt in
  let qnums := dedup (digit_runs (join " " qt)) in
  let phrases := query_phrases qt in
  j <- normalize (map (jaccard_feature qs) texts) ;;
  p <- normalize (map (phrase_feature phrases) texts) ;;
  d <- normalize (map (digit_feature qnums) texts) ;;
  Ok (j, p, d).

End Engine.

(** ** Data model *)

(** A row of the full-text index: [(id, text, bm25(fts), text_hash)]. *)
Record Row : Type := {
  row_id : Z;
  row_text : string;
  row_r : Q;
  row_hash : string
}.

Inductive Stage : Type := S1 | S1_embed_fail | S3 | S3_MMR.

Record Result : Type := {
  file_uid : string;
  file_path : string;
  chunk_id : Z;
  score : Q;
  snippet : string;
  rank_stage : Stage
}.

(** The collaborators, as they answer during one query. *)
Record Env : Type := {
  (** [SELECT id, text, bm25(fts), text_hash FROM fts WHERE fts MATCH ? AND
      file_uid = ? ORDER BY r LIMIT ?] *)
  fts : string -> string -> nat -> list Row;
  (** [SELECT text_hash, vector FROM embeddings WHERE text_hash IN (...)] for
      the model, dimension and version in force *)
  cache_select : list string -> list (string * vec);
  (** [OAI_D_CACHE.get] *)
  lru_get : string -> option vec;
  (** the embedding provider behind [_oai_embed]; [None] is the failure
      value *)
  oai_embed : list string -> option (list vec)
}.

Inductive Event : Type :=
| EvFts (expr : string) (limit : nat)
| EvEmbed (inputs : list string)
| EvCacheInsert (entries : list (string * vec)).

(** A Python [dict] from hashes to vectors: the first binding of a key is the
    one in force. *)
Definition Dict : Type := list (string * vec).

Fixpoint dict_get (k : string) (d : Dict) : option vec :=
  match d with
  | [] => None
  | (k', v) :: d' => if String.eqb k k' then Some v else dict_get k d'
  end.

Definition dict_set (k : string) (v : vec) (d : Dict) : Dict := (k, v) :: d.

(** [d[k] = v] for every pair of [entries], in their order. *)
Definition dict_update (entries : list (string * vec)) (d : Dict) : Dict :=
  fold_left (fun d '(k, v) => dict_set k v d) entries d.

(** [len(set(a) & set(b))] on chunk ids. *)
Definition id_overlap (a b : list Z) : nat :=
  List.length
    (filter (fun x => existsb (Z.eqb x) b) (nodup Z.eq_dec a)).

Section Orchestrator.

Variable np : Numpy.
Variable cfg : Config.
(** [_text_hash]: the MD5 digest of the UTF-8 text. *)
Variable _text_hash : string -> string.

(** [_oai_embed] *)
Definition _oai_embed (env : Env) (texts : list string)
  : option (list vec) :=
  match texts with
  | [] => None
  | _ => oai_embed env texts
  end.

(** [1.0/(1.0+raw_score)] *)
Definition bm25_score (r : Q) : M Q := py_div 1 (1 + r)%Q.

(** [initial_docs] *)
Definition initial_docs_of (rows : list Row) : M (list Doc) :=
  mapM (fun row => s <- bm25_score (row_r row) ;;
                   Ok (row_id row, row_text row, s)) rows.

Definition doc_id (d : Doc) : Z := fst (fst d).
Definition doc_text (d : Doc) : string := snd (fst d).
Definition doc_score (d : Doc) : Q := snd d.

(** The overlap of the drift guard. *)
Definition prf_overlap (initial_docs : list Doc) (prf_rows : list Row) : Q :=
  let orig_top10 := map doc_id (firstn 10 initial_docs) in
  let prf_top10 := map row_id (firstn 10 prf_rows) in
  match orig_top10 with
  | [] => 0%Q
  | _ => (of_nat (id_overlap orig_top10 prf_top10) / 10)%Q
  end.

(** The PRF block of [_search_single_sentence]: the calls it makes and the
    rows the query goes on with. *)
Definition prf_stage (env : Env) (uid q : string) (keys : list string)
  (rows : list Row) (initial_docs : list Doc) : list Event * list Row :=
  if _should_prf np q (map doc_score initial_docs) then
    match _extract_prf_terms cfg initial_docs (dedup keys) with
    | [] => ([], rows)
    | expansion_terms =>
        match _build_expanded_query keys expansion_terms with
        | Some expanded_query =>
            if String.eqb expanded_query "" then ([], rows)
            else
              let prf_rows := fts env expanded_query uid (K_SQL2 cfg) in
              ([EvFts expanded_query (K_SQL2 cfg)],
               match prf_rows with
               | [] => rows
               | _ => if Qle_bool 0.4 (prf_overlap initial_docs prf_rows)
                      then prf_rows else rows
               end)
        | None => ([], rows)
        end
    end
  else ([], rows).

(** The candidate arrays [ids], [texts], [text_hashes], [bnorm]. *)
Record Candidates : Type := {
  c_ids : list Z;
  c_texts : list string;
  c_hashes : list string;
  c_bnorm : list Q
}.

(** [[l[k] for k in keep_indices]] *)
Definition pick {A : Type} (l : list A) (keep_indices : list nat)
  : M (list A) :=
  mapM (py_index l) keep_indices.

(** Slice to [TOP_OAI] and dedupe. *)
Definition select_candidates (rows : list Row) : M Candidates :=
  let top := firstn (TOP_OAI cfg) rows in
  let ids := map row_id top in
  let texts := map row_text top in
  let text_hashes := map row_hash top in
  braw <- mapM (fun row => bm25_score (row_r row)) top ;;
  let bnorm := _minmax braw in
  if 1 <? List.length texts then
    keep_indices <- _jaccard_dedup np texts bnorm (JACCARD_THRESHOLD cfg) ;;
    ids' <- pick ids keep_indices ;;
    texts' <- pick texts keep_indices ;;
    hashes' <- pick text_hashes keep_indices ;;
    bnorm' <- pick bnorm keep_indices ;;
    Ok {| c_ids := ids'; c_texts := texts'; c_hashes := hashes';
          c_bnorm := bnorm' |}
  else
    Ok {| c_ids := ids; c_texts := texts; c_hashes := text_hashes;
          c_bnorm := bnorm |}.

(** The test of the numeric-only shortcut. *)
Definition numeric_only (q : string) : bool :=
  let nums := filter is_year_like (tok q) in
  let words :=
    filter (fun t => negb (mem t STOP) && negb (is_year_like t)) (tok q) in
  (0 <? List.length nums) && (List.length words =? 0).

(** The BM25-only answer of the two [S1] exits. *)
Definition bm25_results (stage : Stage) (uid path q : string)
  (ids : list Z) (texts : list string) (bnorm : list Q) : M (list Result) :=
  mapM (fun j =>
          id <- py_index ids j ;;
          b <- py_index bnorm j ;;
          t <- py_index texts j ;;
          Ok {| file_uid := uid; file_path := path; chunk_id := id;
                score := b; snippet := _snippet t q 280;
                rank_stage := stage |})
       (seq 0 (Nat.min (K_FINAL cfg) (List.length ids))).

(** The cache pass over the pool: the dictionary [cache_map] and the entries
    [(i, text, hash)] still to embed. *)
Definition cache_step (env : Env)
  (st : Dict * list (nat * string * string))
  (x : nat * (string * string)) : Dict * list (nat * string * string) :=
  let '(cache_map, need) := st in
  let '(i, (text_hash, embed_text)) := x in
  let cached_v :=
    match dict_get text_hash cache_map with
    | Some v => Some v
    | None => lru_get env text_hash
    end in
  match cached_v with
  | Some v => (dict_set text_hash v cache_map, need)
  | None => (cache_map, need ++ [(i, embed_text, text_hash)])
  end.

Definition cache_lookup (env : Env) (text_hashes texts : list string)
  : Dict * list (nat * string * string) :=
  let cache_rows := cache_select env text_hashes in
  let cache_map := dict_update cache_rows [] in
  fold_left (cache_step env)
    (combine (seq 0 (List.length text_hashes)) (combine text_hashes texts))
    (cache_map, []).

(** The new document vectors [V[1 + j]], with their hashes. *)
Definition new_vectors (V : list vec) (need : list (nat * string * string))
  : M (list (string * vec)) :=
  mapM (fun '(j, (_, _, text_hash)) =>
          dv <- py_index V (1 + j) ;; Ok (text_hash, dv))
       (combine (seq 0 (List.length need)) need).

(** [sims_o] *)
Definition similarities (cache_map : Dict) (qv : vec)
  (text_hashes : list string) : list Q :=
  map (fun h => match dict_get h cache_map with
                | Some dv => dot dv qv
                | None => 0%Q
                end) text_hashes.

(** ** Fusion *)

(** [embedding_weight] *)
Definition embedding_weight (sims_o : list Q) : Q :=
  let sims_std := match sims_o with [] => 0%Q | _ => np_std np sims_o end in
  let w := (1 / (1 + np_exp np (- (sims_std - 0.008) / 0.004)))%Q in
  (0.6 + 0.4 * w)%Q.

(** The position of [i] in [order]; [0], the initial entry of [embed_ranks],
    if it has none. *)
Fixpoint find_position (i : nat) (order : list nat) : option nat :=
  match order with
  | [] => None
  | j :: order' => if i =? j then Some 0
                   else option_map S (find_position i order')
  end.

Definition position (i : nat) (order : list nat) : nat :=
  match find_position i order with
  | Some k => k
  | None => 0
  end.

(** [embed_ranks], from the weighted normalized similarities. *)
Definition embed_ranks_of (weighted : list Q) : list nat :=
  let embed_pairs := combine (seq 0 (List.length weighted)) weighted in
  let sorted := sort_by (fun a b => Qle_bool (snd b) (snd a)) embed_pairs in
  map (fun i => position i (map fst sorted)) (seq 0 (List.length weighted)).

(** [rrf_scores] *)
Definition rrf_scores_of (n : nat) (embed_ranks : list nat) : M (list Q) :=
  mapM (fun j =>
          bm25_rrf <- py_div 1 (of_nat (RRF_K cfg + j)) ;;
          er <- py_index embed_ranks j ;;
          embed_rrf <- py_div 1 (of_nat (RRF_K cfg + er)) ;;
          Ok (bm25_rrf + embed_rrf)%Q)
       (seq 0 n).

(** [final_scores] *)
Definition final_scores_of (rrf_scores jaccard_boost phrase_boost
  digit_boost : list Q) : M (list Q) :=
  mapM (fun i =>
          base <- py_index rrf_scores i ;;
          jacc <- py_index jaccard_boost i ;;
          phrb <- py_index phrase_boost i ;;
          digb <- py_index digit_boost i ;;
          let co_mention := (0.4 * jacc + 0.3 * phrb + 0.1 * digb)%Q in
          Ok (base * (1 + co_mention))%Q)
       (seq 0 (List.length rrf_scores)).

(** [vector_coverage >= 0.90] *)
Definition coverage_ok (ids : list Z) (sims_o : list Q) : bool :=
  let nonzero_sims := List.length (filter (fun s => Qltb 0 s) sims_o) in
  let vector_coverage :=
    match ids with
    | [] => 0%Q
    | _ => (of_nat nonzero_sims / of_nat (List.length ids))%Q
    end in
  Qle_bool 0.90 vector_coverage.

(** ** The MMR pass *)

(** [text_hashes[ids.index(doc_id)] if doc_id in ids else _text_hash(text)] *)
Definition hash_of (ids : list Z) (text_hashes : list string) (d : Doc)
  : M string :=
  match index_of (doc_id d) ids with
  | Some k => py_index text_hashes k
  | None => Ok (_text_hash (doc_text d))
  end.

(** The greatest similarity of [doc_vec] with a selected document. *)
Fixpoint max_similarity (ids : list Z) (text_hashes : list string)
  (cache_map : Dict) (doc_vec : vec) (selected : list Doc) (max_sim : Q)
  : M Q :=
  match selected with
  | [] => Ok max_sim
  | sel :: selected' =>
      sel_hash <- hash_of ids text_hashes sel ;;
      match dict_get sel_hash cache_map with
      | Some sel_vec =>
          max_similarity ids text_hashes cache_map doc_vec selected'
            (qmax max_sim (dot doc_vec sel_vec))
      | None =>
          max_similarity ids text_hashes cache_map doc_vec selected' max_sim
      end
  end.

(** [mmr_score > best_score], where [None] is minus infinity. *)
Definition beats (mmr_score : Q) (best_score : option Q) : bool :=
  match best_score with
  | None => true
  | Some b => Qltb b mmr_score
  end.

(** The scan of [remaining] for the best MMR score; [i] is the position of
    the head of [remaining]. *)
Fixpoint mmr_scan (ids : list Z) (text_hashes : list string)
  (cache_map : Dict) (qv : vec) (selected remaining : list Doc)
  (i best_idx : nat) (best_score : option Q) : M nat :=
  match remaining with
  | [] => Ok best_idx
  | d :: remaining' =>
      doc_hash <- hash_of ids text_hashes d ;;
      match dict_get doc_hash cache_map with
      | Some doc_vec =>
          let relevance := dot doc_vec qv in
          max_sim <- max_similarity ids text_hashes cache_map doc_vec
                       selected 0%Q ;;
          let mmr_score := (0.7 * relevance - (1 - 0.7) * max_sim)%Q in
          if beats mmr_score best_score then
            mmr_scan ids text_hashes cache_map qv selected remaining'
              (S i) i (Some mmr_score)
          else
            mmr_scan ids text_hashes cache_map qv selected remaining'
              (S i) best_idx best_score
      | None =>
          mmr_scan ids text_hashes cache_map qv selected remaining'
            (S i) best_idx best_score
      end
  end.

(** The [while] loop of the MMR pass; every turn removes one document from
    [remaining], so [List.length remaining] turns are enough. *)
Fixpoint mmr_loop (fuel : nat) (ids : list Z) (text_hashes : list string)
  (cache_map : Dict) (qv : vec) (selected remaining : list Doc)
  : M (list Doc) :=
  match fuel with
  | 0 => Ok selected
  | S fuel' =>
      if (List.length selected <? K_FINAL cfg)
         && negb (List.length remaining =? 0) then
        best_idx <- mmr_scan ids text_hashes cache_map qv selected remaining
                      0 0 None ;;
        d <- py_index remaining best_idx ;;
        mmr_loop fuel' ids text_hashes cache_map qv (selected ++ [d])
          (remove_nth best_idx remaining)
      else Ok selected
  end.

(** The MMR pass: the top document first, then the loop. *)
Definition mmr_select (ids : list Z) (text_hashes : list string)
  (cache_map : Dict) (qv : vec) (scored_docs : list Doc) : M (list Doc) :=
  match scored_docs with
  | [] => Raise IndexError
  | top :: remaining =>
      mmr_loop (List.length remaining) ids text_hashes cache_map qv
        [top] remaining
  end.

(** Does the MMR pass run? *)
Definition mmr_gate (ids : list Z) (sims_o : list Q)
  (scored_docs : list Doc) : bool :=
  (K_FINAL cfg <? List.length scored_docs) && coverage_ok ids sims_o.

(** [final_scores]: the RRF score of every candidate times one plus its
    co-mention boost. *)
Definition boosted_scores (q : string) (ids : list Z) (texts : list string)
  (sims_o : list Q) : M (list Q) :=
  let onorm :=
    if existsb (fun s => negb (Qeq_bool s 0)) sims_o then _minmax sims_o
    else map (fun _ => 0%Q) ids in
  let w := embedding_weight sims_o in
  weighted <- mapM (fun i => o <- py_index onorm i ;; Ok (o * w)%Q)
                   (seq 0 (List.length ids)) ;;
  let embed_ranks := embed_ranks_of weighted in
  rrf_scores <- rrf_scores_of (List.length ids) embed_ranks ;;
  '(jaccard_boost, phrase_boost, digit_boost) <-
     _compute_boost_features texts q ;;
  final_scores_of rrf_scores jaccard_boost phrase_boost digit_boost.

(** [scored_docs], sorted by enhanced score. *)
Definition scored_docs_of (ids : list Z) (texts : list string)
  (final_scores : list Q) : list Doc :=
  sort_by (fun a b => Qle_bool (doc_score b) (doc_score a))
          (combine (combine ids texts) final_scores).

(** [final_docs]: the MMR selection when its gate holds, else the first
    [K_FINAL] documents. *)
Definition select_final (ids : list Z) (text_hashes : list string)
  (cache_map : Dict) (qv : vec) (sims_o : list Q) (scored_docs : list Doc)
  : M (list Doc) :=
  if mmr_gate ids sims_o scored_docs
  then mmr_select ids text_hashes cache_map qv scored_docs
  else Ok (firstn (K_FINAL cfg) scored_docs).

(** The output loop of the fusion path. *)
Definition emit (uid path q : string) (ids : list Z) (sims_o : list Q)
  (final_docs : list Doc) : list Result :=
  map (fun d =>
         {| file_uid := uid; file_path := path; chunk_id := doc_id d;
            score := doc_score d; snippet := _snippet (doc_text d) q 280;
            rank_stage := if coverage_ok ids sims_o then S3_MMR else S3 |})
      final_docs.

(** From the similarities to the emitted records: fusion, boost, sort, MMR
    or truncation, output. *)
Definition fuse (uid path q : string) (ids : list Z)
  (texts text_hashes : list string) (cache_map : Dict) (qv : vec)
  (sims_o : list Q) : M (list Result) :=
  final_scores <- boosted_scores q ids texts sims_o ;;
  final_docs <- select_final ids text_hashes cache_map qv sims_o
                  (scored_docs_of ids texts final_scores) ;;
  Ok (emit uid path q ids sims_o final_docs).

(** ** The orchestrator *)

(** The first stage of [_search_single_sentence]: BM25, PRF, slice and
    dedupe.  [None]: the index returned no row; otherwise the initial scores
    and the candidates. *)
Definition retrieve (env : Env) (q uid : string)
  : list Event * M (option (list Q * Candidates)) :=
  let keys := _keywords q 16 in
  let main_query := _fts_or keys in
  let '(tr0, rows) :=
    match main_query with
    | Some e => if String.eqb e "" then ([], [])
                else ([EvFts e (K_SQL cfg)], fts env e uid (K_SQL cfg))
    | None => ([], [])
    end in
  match rows with
  | [] => (tr0, Ok None)
  | _ =>
      match initial_docs_of rows with
      | Raise e => (tr0, Raise e)
      | Ok initial_docs =>
          let initial_scores := map doc_score initial_docs in
          let '(tr1, rows) := prf_stage env uid q keys rows initial_docs in
          (tr0 ++ tr1,
           c <- select_candidates rows ;; Ok (Some (initial_scores, c)))
      end
  end.

(** The rerank pool: the candidates cut to the adaptive budget. *)
Definition rerank_pool (initial_scores : list Q) (c : Candidates)
  : Candidates :=
  let adaptive_budget := _adaptive_budget np initial_scores in
  let rerank_pool := Nat.min adaptive_budget (List.length (c_ids c)) in
  {| c_ids := firstn rerank_pool (c_ids c);
     c_texts := firstn rerank_pool (c_texts c);
     c_hashes := firstn rerank_pool (c_hashes c);
     c_bnorm := c_bnorm c |}.

(** [embed_input]: the query, then the pool texts found in neither cache. *)
Definition embed_input_of (env : Env) (q : string) (pool : Candidates)
  : list string :=
  q :: map (fun n => snd (fst n))
           (snd (cache_lookup env (c_hashes pool) (c_texts pool))).

(** The second stage: cache pass, the one embedding call, then fusion or the
    BM25-only answer. *)
Definition rerank (env : Env) (uid path q : string) (pool : Candidates)
  : list Event * M (list Result) :=
  let ids := c_ids pool in
  let texts := c_texts pool in
  let text_hashes := c_hashes pool in
  let '(cache_map, need) := cache_lookup env text_hashes texts in
  let embed_input := embed_input_of env q pool in
  match _oai_embed env embed_input with
  | Some V =>
      match (qv <- py_index V 0 ;;
             fresh <- new_vectors V need ;;
             Ok (qv, fresh)) with
      | Ok (qv, fresh) =>
          let cache_map := dict_update fresh cache_map in
          let sims_o := similarities cache_map qv text_hashes in
          ([EvEmbed embed_input]
             ++ match fresh with [] => [] | _ => [EvCacheInsert fresh] end,
           fuse uid path q ids texts text_hashes cache_map qv sims_o)
      | Raise e => ([EvEmbed embed_input], Raise e)
      end
  | None =>
      ([EvEmbed embed_input],
       bm25_results S1_embed_fail uid path q ids texts (c_bnorm pool))
  end.

(** [_search_single_sentence] *)
Definition _search_single_sentence (env : Env) (q uid path : string)
  : list Event * M (list Result) :=
  match retrieve env q uid with
  | (tr, Raise e) => (tr, Raise e)
  | (tr, Ok None) => (tr, Ok [])
  | (tr, Ok (Some (initial_scores, c))) =>
      if numeric_only q then
        (tr, bm25_results S1 uid path q (c_ids c) (c_texts c) (c_bnorm c))
      else
        let '(tr2, r) := rerank env uid path q (rerank_pool initial_scores c) in
        (tr ++ tr2, r)
  end.

(** The loop of [semantic_search] over the unique sentences; an exception
    ends it. *)
Fixpoint search_all (env_of : string -> Env) (uid path : string)
  (sentences : list string) : list Event * M (list (list Result)) :=
  match sentences with
  | [] => ([], Ok [])
  | sentence :: rest =>
      match _search_single_sentence (env_of sentence) sentence uid path with
      | (tr, Ok sentence_results) =>
          let '(tr', r) := search_all env_of uid path rest in
          (tr ++ tr', rs <- r ;; Ok (sentence_results :: rs))
      | (tr, Raise e) => (tr, Raise e)
      end
  end.

(** [semantic_search].  [ensure_indexed] is [kb_store.ensure_indexed], [None]
    when it raises; [env_of sentence] is how the collaborators answer while
    that sentence is searched. *)
Definition semantic_search (ensure_indexed : string -> option string)
  (env_of : string -> Env) (path : string) (sentences : list string)
  : list Event * M (list (list Result)) :=
  match sentences with
  | [] => ([], Ok [])
  | _ =>
      match ensure_indexed path with
      | None => ([], Ok [])
      | Some uid => search_all env_of uid path (dedup sentences)
      end
  end.

End Orchestrator.

(** ** A reference instance

    Rational stand-ins for the numpy functions, used to run the engine on
    concrete inputs: the square root and the exponential to nine and twelve
    decimals, and the stable argsort. *)

Definition truncate_q (digits : nat) (x : Q) : Q :=
  let scale := Z.pow 10 (Z.of_nat digits) in
  Qmake (Z.div (Qnum x * scale) (Zpos (Qden x))) (Z.to_pos scale).

Definition sqrt_q (x : Q) : Q :=
  let scale := Z.pow 10 18 in
  Qmake (Z.sqrt (Z.div (Qnum x * scale) (Zpos (Qden x))))
        (Z.to_pos (Z.pow 10 9)).

Fixpoint square_times (n : nat) (x : Q) : Q :=
  match n with
  | 0 => x
  | S n' => square_times n' (truncate_q 24 (x * x))
  end.

(** [(1 + x/1024)^1024] *)
Definition exp_q (x : Q) : Q :=
  truncate_q 12 (square_times 10 (1 + x / 1024)%Q).

Definition stable_argsort (xs : list Q) : list nat :=
  map fst (sort_by (fun a b : nat * Q => Qle_bool (snd a) (snd b))
                   (combine (seq 0 (List.length xs)) xs)).

Definition reference_numpy : Numpy := {|
  np_sqrt := sqrt_q;
  np_exp := exp_q;
  np_argsort := stable_argsort
|}.

(** ** Definitions the statements use *)

(** The window as the specification words it: from one sentence before the
    best one to three sentences after it. *)
Definition spec_window (sents : list string) (qt : list string)
  : list string :=
  let best := argmax (hits qt) sents in
  slice (best - 1) (Nat.min (List.length sents) (best + 4)) sents.

Definition no_space (s : string) : bool :=
  all_chars (fun c => negb (Ascii.eqb c space)) s.

(** What [normalize] does to a feature vector [raw]: every entry is moved by
    the least value and divided by the range plus 1e-9. *)
Definition normalized (raw out : list Q) : Prop :=
  let lo := np_min raw in
  let hi := np_max raw in
  List.length out = List.length raw
  /\ forall i, i < List.length raw ->
       (nth i out 0 == (nth i raw 0 - lo) / (hi - lo + 1e-9))%Q
       /\ (0 <= nth i out 0)%Q /\ (nth i out 0 < 1)%Q
       /\ ((hi - lo < 1e-9)%Q -> (nth i out 0 < 0.5)%Q)
       /\ ((hi == lo)%Q -> (nth i out 0 == 0)%Q).

(** The deduplication rule as the specification words it: a candidate is
    taken if and only if its Jaccard similarity with every candidate already
    kept is strictly below the threshold. *)
Definition accepts (word_sets : list (list string)) (threshold : Q)
  (kept : list nat) (i : nat) : bool :=
  forallb (fun j => Qltb (jaccard (nth i word_sets []) (nth j word_sets []))
                         threshold) kept.

Definition greedy_step (word_sets : list (list string)) (threshold : Q)
  (kept : list nat) (i : nat) : list nat :=
  if accepts word_sets threshold kept i then kept ++ [i] else kept.

Definition greedy_keep (word_sets : list (list string)) (threshold : Q)
  (order : list nat) : list nat :=
  fold_left (greedy_step word_sets threshold) order [].

(** No two distinct candidates of [kept] reach the threshold. *)
Definition apart (word_sets : list (list string)) (threshold : Q)
  (kept : list nat) : Prop :=
  forall a b, In a kept -> In b kept -> a <> b ->
    (jaccard (nth a word_sets []) (nth b word_sets []) < threshold)%Q.

(** How the candidate arrays come from the rows: the rows at the kept
    positions of the first [TOP_OAI], each with its min-max normalized BM25
    score, the scores not increasing. *)
Definition candidates_from (cfg : Config) (rows : list Row) (c : Candidates)
  : Prop :=
  let top := firstn (TOP_OAI cfg) rows in
  exists braw keep,
    mapM (fun row => bm25_score (row_r row)) top = Ok braw
    /\ NoDup keep
    /\ Forall (fun k => k < List.length top) keep
    /\ c_ids c = map (fun k => nth k (map row_id top) 0%Z) keep
    /\ c_texts c = map (fun k => nth k (map row_text top) "") keep
    /\ c_hashes c = map (fun k => nth k (map row_hash top) "") keep
    /\ c_bnorm c = map (fun k => nth k (_minmax braw) 0%Q) keep
    /\ StronglySorted (fun x y => (y <= x)%Q) (c_bnorm c).

Definition is_fts (ev : Event) : bool :=
  match ev with
  | EvFts _ _ => true
  | _ => false
  end.

(** The record a BM25-only exit emits for candidate [j]. *)
Definition bm25_record (stage : Stage) (uid path q : string)
  (c : Candidates) (j : nat) : Result :=
  {| file_uid := uid; file_path := path;
     chunk_id := nth j (c_ids c) 0%Z;
     score := nth j (c_bnorm c) 0%Q;
     snippet := _snippet (nth j (c_texts c) "") q 280;
     rank_stage := stage |}.

(** The index never returns the raw score -1, at which [1.0/(1.0+raw)] is
    undefined. *)
Definition scores_defined (env : Env) (uid : string) : Prop :=
  forall e lim row, In row (fts env e uid lim) -> ~ (1 + row_r row == 0)%Q.

(** The data-model invariant of the index: within one file the chunk ids of
    the rows a query returns are pairwise distinct. *)
Definition ids_distinct (env : Env) (uid : string) : Prop :=
  forall e lim, NoDup (map row_id (fts env e uid lim)).

(** Is the hash in neither cache tier: not in the dictionary [cm0] built
    from the rows of the persistent cache, and not in the LRU? *)
Definition in_neither (env : Env) (cm0 : Dict) (h : string) : bool :=
  match dict_get h cm0 with
  | Some _ => false
  | None => match lru_get env h with
            | Some _ => false
            | None => true
            end
  end.

Definition in_no_cache (env : Env) (text_hashes : list string) (h : string)
  : bool :=
  in_neither env (dict_update (cache_select env text_hashes) []) h.

(** The dictionary [cm] of the cache pass binds a hash exactly when one of
    the two tiers has it. *)
Definition cache_inv (env : Env) (cm0 cm : Dict) : Prop :=
  forall h,
    (dict_get h cm = None -> dict_get h cm0 = None)
    /\ (forall v, dict_get h cm = Some v -> in_neither env cm0 h = false).

(** ** Concrete inputs *)

Definition boost_texts : list string := ["alpha beta 1789"; "gamma delta"].
Definition boost_query : string := "alpha beta of 1789".
Definition boost_rrf : list Q := [(1 # 30)%Q; (1 # 31)%Q].

Definition boost_j : list Q :=
  [(225000000000 # 225000000225)%Q; (0 # 375000000375)%Q].
Definition boost_p : list Q :=
  [(81000000000 # 81000000081)%Q; (0 # 81000000081)%Q].
Definition boost_d : list Q :=
  [(1000000000 # 1000000001)%Q; (0 # 1000000001)%Q].
Definition boost_final : list Q :=
  Eval vm_compute in
    match final_scores_of boost_rrf boost_j boost_p boost_d with
    | Ok fs => fs
    | Raise _ => []
    end.

Definition dedup_texts : list string :=
  ["alpha beta gamma"; "alpha beta gamma delta"; "omega"].
Definition dedup_scores : list Q := [1%Q; 0.9%Q; 0.5%Q].

(** A small file: the three chunks that mention 1789, as the index returns
    them.  The hash of a text is stood for by the text itself. *)
Definition mk_row (i : Z) (t : string) (r : Q) : Row :=
  {| row_id := i; row_text := t; row_r := r; row_hash := t |}.

Definition archive_rows : list Row :=
  [mk_row 1 "the act of 1789" (- (3 # 2))%Q;
   mk_row 3 "year 1789 ratified" (- (13 # 10))%Q;
   mk_row 5 "amendments of 1789 ratified by the act" (- (11 # 10))%Q].

(** Unit vectors for the texts. *)
Definition vector_of (t : string) : vec :=
  if contains "ratified" t then [(3 # 5)%Q; (4 # 5)%Q]
  else [(4 # 5)%Q; (3 # 5)%Q].

Definition archive_env (embed : list string -> option (list vec)) : Env :=
  {| fts := fun _ _ _ => archive_rows;
     cache_select := fun _ => [];
     lru_get := fun _ => None;
     oai_embed := embed |}.

(** The provider answers. *)
Definition archive_up : Env :=
  archive_env (fun texts => Some (map vector_of texts)).

(** The provider fails. *)
Definition archive_down : Env := archive_env (fun _ => None).

Definition same_text (t : string) : string := t.

(** The default configuration with [KB_K_FINAL=2]. *)
Definition two_results : Config := {|
  K_SQL := 600;
  K_FINAL := 2;
  TOP_OAI := 28;
  JACCARD_THRESHOLD := 0.83%Q;
  RRF_K := 60;
  PRF_K := 10;
  PRF_M := 20;
  K_SQL2 := 900
|}.

(** The default configuration with [KB_K_FINAL=0]. *)
Definition zero_results : Config := {|
  K_SQL := 600;
  K_FINAL := 0;
  TOP_OAI := 28;
  JACCARD_THRESHOLD := 0.83%Q;
  RRF_K := 60;
  PRF_K := 10;
  PRF_M := 20;
  K_SQL2 := 900
|}.

Definition archive_query : string := "act ratified of 1789".

(** The first stage of [archive_query] when the provider is down. *)
Definition down_trace : list Event :=
  Eval vm_compute in
    fst (retrieve reference_numpy default_config archive_down archive_query
           "u").

Definition down_scores : list Q :=
  Eval vm_compute in
    match snd (retrieve reference_numpy default_config archive_down
                 archive_query "u") with
    | Ok (Some (scores, _)) => scores
    | _ => []
    end.

Definition down_candidates : Candidates :=
  Eval vm_compute in
    match snd (retrieve reference_numpy default_config archive_down
                 archive_query "u") with
    | Ok (Some (_, c)) => c
    | _ => {| c_ids := []; c_texts := []; c_hashes := []; c_bnorm := [] |}
    end.

(** The run of [archive_query] with two results asked for. *)
Definition two_trace : list Event :=
  Eval vm_compute in
    fst (_search_single_sentence reference_numpy two_results same_text
           archive_up archive_query "u" "p").

Definition two_out : list Result :=
  Eval vm_compute in
    match snd (_search_single_sentence reference_numpy two_results same_text
                 archive_up archive_query "u" "p") with
    | Ok out => out
    | Raise _ => []
    end.

(** The arguments of the fusion stage in that run. *)
Definition fusion_ids : list Z := [1%Z; 3%Z; 5%Z].
Definition fusion_texts : list string := map row_text archive_rows.
Definition fusion_cache : Dict :=
  dict_update (map (fun t => (t, vector_of t)) fusion_texts) [].
Definition fusion_qv : vec := vector_of archive_query.
Definition fusion_sims : list Q :=
  similarities fusion_cache fusion_qv fusion_texts.

(** * Further code of the module *)

(** ** The class [LRU]

    The clock is an argument: [now] is what [time.time()] returns at the
    call. *)

(** An [OrderedDict] from keys to (value, timestamp) pairs: the entries in
    order, the least recently used first. *)
Definition OrderedDict : Type := list (string * (vec * Q)).

Record LRU : Type := {
  cap : nat;
  ttl : Q;
  d : OrderedDict
}.

(** [LRU(cap, ttl)] *)
Definition LRU_init (cap : nat) (ttl : Q) : LRU :=
  {| cap := cap; ttl := ttl; d := [] |}.

(** [d.get(k)] *)
Fixpoint od_get (k : string) (od : OrderedDict) : option (vec * Q) :=
  match od with
  | [] => None
  | (k', x) :: od' => if String.eqb k k' then Some x else od_get k od'
  end.

(** [d[k] = x]: a present key keeps its place, a new one goes to the end. *)
Fixpoint od_set (k : string) (x : vec * Q) (od : OrderedDict) : OrderedDict :=
  match od with
  | [] => [(k, x)]
  | (k', x') :: od' => if String.eqb k k' then (k', x) :: od'
                       else (k', x') :: od_set k x od'
  end.

(** [d.pop(k, None)] *)
Definition od_pop (k : string) (od : OrderedDict) : OrderedDict :=
  filter (fun e => negb (String.eqb k (fst e))) od.

(** [d.move_to_end(k)], for a key that is present, as it is at both calls. *)
Definition od_move_to_end (k : string) (od : OrderedDict) : OrderedDict :=
  match od_get k od with
  | Some x => od_pop k od ++ [(k, x)]
  | None => od
  end.

(** [d.popitem(last=False)], on a dictionary that is not empty, as it is at
    the call. *)
Definition od_popitem_first (od : OrderedDict) : OrderedDict := tl od.

(** [LRU.get], with the cache after the call. *)
Definition LRU_get (now : Q) (k : string) (c : LRU) : option vec * LRU :=
  match od_get k (d c) with
  | None => (None, c)
  | Some (v, ts) =>
      if Qltb (ttl c) (now - ts) then
        (None, {| cap := cap c; ttl := ttl c; d := od_pop k (d c) |})
      else
        (Some v,
         {| cap := cap c; ttl := ttl c; d := od_move_to_end k (d c) |})
  end.

(** [LRU.put] *)
Definition LRU_put (now : Q) (k : string) (v : vec) (c : LRU) : LRU :=
  let d1 := od_set k (v, now) (d c) in
  let d2 := od_move_to_end k d1 in
  let d3 := if cap c <? List.length d2 then od_popitem_first d2 else d2 in
  {| cap := cap c; ttl := ttl c; d := d3 |}.

(** ** Rank correlation *)

(** [_compute_rank_correlation]: ranks are Python integers; the one
    division is that of two integers, a float. *)
Definition _compute_rank_correlation (bm25_ranks embed_ranks : list Z)
  : M Q :=
  let n := List.length bm25_ranks in
  if n <? 5 then Ok 0%Q
  else
    ds <- mapM (fun i => b <- py_index bm25_ranks i ;;
                         e <- py_index embed_ranks i ;;
                         Ok ((b - e) * (b - e))%Z)
               (seq 0 n) ;;
    let sum_d_sq := fold_left Z.add ds 0%Z in
    let nz := Z.of_nat n in
    Ok (1 - inject_Z (6 * sum_d_sq) / inject_Z (nz * (nz * nz - 1)))%Q.

(** ** Definitions the further statements use *)

(** A character that lower-casing leaves as it is. *)
Definition unchanged_by_lower (c : ascii) : bool :=
  Ascii.eqb (lower_char c) c.

(** A call on an [LRU]. *)
Inductive LRUCall : Type :=
| CallGet (now : Q) (k : string)
| CallPut (now : Q) (k : string) (v : vec).

Definition LRU_call (c : LRU) (call : LRUCall) : LRU :=
  match call with
  | CallGet now k => snd (LRU_get now k c)
  | CallPut now k v => LRU_put now k v c
  end.

(** The cache after a sequence of calls on a new [LRU(cap, ttl)]. *)
Definition LRU_after (cap : nat) (ttl : Q) (calls : list LRUCall) : LRU :=
  fold_left LRU_call calls (LRU_init cap ttl).

Definition od_keys (od : OrderedDict) : list string := map fst od.

(** What a call keeps: no more entries than the capacity, no key twice. *)
Definition LRU_ok (c : LRU) : Prop :=
  List.length (d c) <= cap c /\ NoDup (od_keys (d c)).


(** A token that [_keywords] counts as a word: not a number, not a stop
    word, more than two characters. *)
Definition keyword_word (t : string) : bool :=
  negb (is_number t) && negb (mem t STOP) && (2 <? String.length t).

(** What the accumulated term scores hold: no term twice, and only terms
    that pass the filter and occur in one of the documents read. *)
Definition prf_terms_ok (query_tokens : list string) (docs : list Doc)
  (ts : list (string * Q)) : Prop :=
  NoDup (map fst ts)
  /\ forall k, In k (map fst ts) ->
       prf_skip query_tokens k = false
       /\ exists d, In d docs /\ In k (tok (doc_text d)).

(** The largest finite [np.float64], (2^53 - 1) * 2^971.  A difference of
    two finite floats that does not exceed it is finite; beyond it the code
    computes with [inf] and [nan], which a rational does not have. *)
Definition float_max : Q := inject_Z ((2 ^ 53 - 1) * 2 ^ 971).

(** [u @ v] on two one-dimensional arrays, as numpy evaluates it: arrays of
    different lengths are a [ValueError]. *)
Definition matmul (u v : vec) : M Q :=
  if List.length u =? List.length v then Ok (dot u v) else Raise ValueError.

(** Every vector the collaborators hand out has [dim] components: the rows
    of the embeddings table (the [SELECT] asks for [dim=OPENAI_DIM]), the
    entries of the in-memory cache (its keys hold [OPENAI_DIM]) and the rows
    of the array the provider returns. *)
Definition vectors_of_dim (dim : nat) (env : Env) : Prop :=
  (forall text_hashes h v,
      In (h, v) (cache_select env text_hashes) -> List.length v = dim)
  /\ (forall h v, lru_get env h = Some v -> List.length v = dim)
  /\ (forall texts V v,
        oai_embed env texts = Some V -> In v V -> List.length v = dim).

(** ** Further concrete inputs *)

Definition raw_scores : list Q := [0.4%Q; 0.25%Q; 1%Q].

(** A full cache of capacity 2. *)
Definition two_entries : LRU :=
  LRU_put 2 "b" [2%Q] (LRU_put 1 "a" [1%Q] (LRU_init 2 900)).

(** An index with a chunk whose raw BM25 score is -1. *)
Definition minus_one_env : Env :=
  {| fts := fun _ _ _ => [mk_row 1 "the act of 1789" (- (1))%Q];
     cache_select := fun _ => [];
     lru_get := fun _ => None;
     oai_embed := fun texts => Some (map vector_of texts) |}.

(** The default configuration with [RRF_K=0]. *)
Definition rrf_zero : Config := {|
  K_SQL := 600;
  K_FINAL := 20;
  TOP_OAI := 28;
  JACCARD_THRESHOLD := 0.83%Q;
  RRF_K := 0;
  PRF_K := 10;
  PRF_M := 20;
  K_SQL2 := 900
|}.

(** The provider returns one vector, whatever it is sent. *)
Definition archive_short : Env :=
  archive_env (fun _ => Some [[(3 # 5)%Q; (4 # 5)%Q]]).

(** * Properties *)

(** ** Comparisons, exceptions, lists *)

Lemma Qltb_lt (x y : Q) : Qltb x y = true <-> (x < y)%Q.
Proof.
  unfold Qltb. rewrite negb_true_iff, <- not_true_iff_false, Qle_bool_iff.
  split; [apply Qnot_le_lt | apply Qlt_not_le].
Qed.

Lemma Qltb_ge (x y : Q) : Qltb x y = false <-> (y <= x)%Q.
Proof.
  unfold Qltb. rewrite negb_false_iff. apply Qle_bool_iff.
Qed.

Lemma Qle_bool_gt (x y : Q) : Qle_bool x y = false <-> (y < x)%Q.
Proof.
  rewrite <- not_true_iff_false, Qle_bool_iff.
  split; [apply Qnot_le_lt | apply Qlt_not_le].
Qed.

Lemma bind_ok {A B : Type} (m : M A) (k : A -> M B) (b : B) :
  bind m k = Ok b -> exists a, m = Ok a /\ k a = Ok b.
Proof.
  destruct m as [a | e]; simpl; [eauto | discriminate].
Qed.

Lemma py_index_ok {A : Type} (l : list A) (k : nat) (a : A) :
  py_index l k = Ok a <-> nth_error l k = Some a.
Proof.
  unfold py_index. destruct (nth_error l k); split; congruence.
Qed.

Lemma py_index_lt {A : Type} (l : list A) (k : nat) :
  k < List.length l -> exists a, py_index l k = Ok a.
Proof.
  intros H. unfold py_index.
  destruct (nth_error l k) eqn:E; [eauto |].
  apply nth_error_None in E. lia.
Qed.

Lemma mapM_ok {A B : Type} (f : A -> M B) (l : list A) (ys : list B) :
  mapM f l = Ok ys -> Forall2 (fun x y => f x = Ok y) l ys.
Proof.
  revert ys. induction l as [| x xs IH]; simpl; intros ys H.
  - inversion H. constructor.
  - apply bind_ok in H. destruct H as (y & Hy & H).
    apply bind_ok in H. destruct H as (ys' & Hys & H).
    inversion H; subst. constructor; auto.
Qed.

Lemma mapM_total {A B : Type} (f : A -> M B) (l : list A) :
  Forall (fun x => exists y, f x = Ok y) l -> exists ys, mapM f l = Ok ys.
Proof.
  induction 1 as [| x xs (y & Hy) _ (ys & Hys)]; simpl.
  - eauto.
  - rewrite Hy, Hys. simpl. eauto.
Qed.

Lemma Forall2_length_eq {A B : Type} (R : A -> B -> Prop) l l' :
  Forall2 R l l' -> List.length l = List.length l'.
Proof.
  induction 1; simpl; congruence.
Qed.

Lemma mapM_length {A B : Type} (f : A -> M B) (l : list A) (ys : list B) :
  mapM f l = Ok ys -> List.length ys = List.length l.
Proof.
  intros H. symmetry. eapply Forall2_length_eq, mapM_ok, H.
Qed.

Lemma Forall2_nth {A B : Type} (R : A -> B -> Prop) (l : list A)
  (l' : list B) (a : A) (b : B) :
  Forall2 R l l' ->
  forall i, i < List.length l -> R (nth i l a) (nth i l' b).
Proof.
  induction 1 as [| x y l l' Hxy _ IH]; simpl; intros i Hi; [lia |].
  destruct i; [exact Hxy | apply IH; lia].
Qed.

Lemma Forall2_seq_nth {B : Type} (R : nat -> B -> Prop) (n : nat)
  (ys : list B) (b : B) :
  Forall2 R (seq 0 n) ys -> forall i, i < n -> R i (nth i ys b).
Proof.
  intros H i Hi.
  pose proof (Forall2_nth R (seq 0 n) ys 0 b H i) as Hn.
  rewrite length_seq, seq_nth in Hn by exact Hi. now apply Hn.
Qed.

Lemma py_index_nth {A : Type} (l : list A) (k : nat) (a d : A) :
  py_index l k = Ok a -> k < List.length l /\ nth k l d = a.
Proof.
  intros H. apply py_index_ok in H. split.
  - apply nth_error_Some. congruence.
  - now apply nth_error_nth.
Qed.

(** ** The insertion sort *)

Section SortFacts.

Variable A : Type.
Variable le : A -> A -> bool.

Lemma insert_by_perm (x : A) (l : list A) :
  Permutation (insert_by le x l) (x :: l).
Proof.
  induction l as [| y l IH]; simpl; [reflexivity |].
  destruct (le x y); [reflexivity |].
  rewrite IH. apply perm_swap.
Qed.

Lemma sort_by_perm (l : list A) : Permutation (sort_by le l) l.
Proof.
  induction l as [| x l IH]; simpl; [reflexivity |].
  rewrite insert_by_perm. now constructor.
Qed.

Lemma sort_by_length (l : list A) :
  List.length (sort_by le l) = List.length l.
Proof. apply Permutation_length, sort_by_perm. Qed.

Hypothesis le_total : forall x y, le x y = true \/ le y x = true.
Hypothesis le_trans :
  forall x y z, le x y = true -> le y z = true -> le x z = true.

Lemma insert_by_sorted (x : A) (l : list A) :
  StronglySorted (fun a b => le a b = true) l ->
  StronglySorted (fun a b => le a b = true) (insert_by le x l).
Proof.
  induction 1 as [| y l Hs IH Hf]; simpl.
  - repeat constructor.
  - destruct (le x y) eqn:E.
    + constructor; [now constructor |].
      constructor; [exact E |].
      eapply Forall_impl; [| exact Hf]. intros z Hz. eapply le_trans; eauto.
    + constructor; [exact IH |].
      apply (Permutation_Forall (Permutation_sym (insert_by_perm x l))).
      constructor; [| exact Hf].
      destruct (le_total x y); congruence.
Qed.

Lemma sort_by_sorted (l : list A) :
  StronglySorted (fun a b => le a b = true) (sort_by le l).
Proof.
  induction l as [| x l IH]; simpl; [constructor |].
  now apply insert_by_sorted.
Qed.

End SortFacts.

Lemma Qle_bool_total (x y : Q) : Qle_bool x y = true \/ Qle_bool y x = true.
Proof.
  rewrite !Qle_bool_iff. destruct (Qlt_le_dec x y) as [H | H].
  - left. now apply Qlt_le_weak.
  - now right.
Qed.

Lemma Qle_bool_trans (x y z : Q) :
  Qle_bool x y = true -> Qle_bool y z = true -> Qle_bool x z = true.
Proof.
  rewrite !Qle_bool_iff. apply Qle_trans.
Qed.

Lemma map_fst_combine {A B : Type} (l : list A) (l' : list B) :
  List.length l = List.length l' -> map fst (combine l l') = l.
Proof.
  revert l'. induction l as [| x l IH]; intros [| y l']; simpl;
    try discriminate; auto.
  intros H. f_equal. apply IH. lia.
Qed.

Lemma in_combine_seq_nth (xs : list Q) (i : nat) (x : Q) :
  In (i, x) (combine (seq 0 (List.length xs)) xs) -> nth i xs 0%Q = x.
Proof.
  intros H. apply (In_nth _ _ (0, 0%Q)) in H. destruct H as (k & Hk & Hn).
  rewrite length_combine, length_seq, Nat.min_id in Hk.
  rewrite combine_nth in Hn by now rewrite length_seq.
  rewrite seq_nth in Hn by exact Hk. simpl in Hn. now inversion Hn.
Qed.

Lemma sorted_map_fst (xs : list Q) (l : list (nat * Q)) :
  (forall p, In p l -> nth (fst p) xs 0%Q = snd p) ->
  StronglySorted (fun a b => Qle_bool (snd a) (snd b) = true) l ->
  StronglySorted (fun i j => (nth i xs 0 <= nth j xs 0)%Q) (map fst l).
Proof.
  intros Hin. induction 1 as [| p l Hs IH Hf]; simpl; constructor.
  - apply IH. intros q Hq. apply Hin. now right.
  - apply Forall_forall. intros j Hj. apply in_map_iff in Hj.
    destruct Hj as (q & <- & Hq).
    rewrite Forall_forall in Hf. specialize (Hf q Hq).
    apply Qle_bool_iff in Hf.
    rewrite (Hin p) by now left. rewrite (Hin q) by now right. exact Hf.
Qed.

Lemma sorted_nth (R : nat -> nat -> Prop) (l : list nat) :
  StronglySorted R l ->
  forall a b, a < b -> b < List.length l -> R (nth a l 0) (nth b l 0).
Proof.
  induction 1 as [| x l Hs IH Hf]; simpl; intros a b Hab Hb; [lia |].
  destruct b as [| b]; [lia |]. destruct a as [| a].
  - rewrite Forall_forall in Hf. apply Hf. apply nth_In. lia.
  - apply IH; lia.
Qed.

(** The stable argsort is an argsort. *)
Lemma reference_numpy_ok : argsort_spec reference_numpy.
Proof.
  split; simpl; intros xs; unfold stable_argsort.
  - rewrite sort_by_perm. rewrite map_fst_combine; [reflexivity |].
    apply length_seq.
  - intros a b Hab Hb.
    apply (sorted_nth (fun i j => (nth i xs 0 <= nth j xs 0)%Q));
      [| exact Hab | exact Hb].
    apply sorted_map_fst.
    + intros [i x] Hp. simpl.
      apply (Permutation_in _ (sort_by_perm _ _ _)) in Hp.
      now apply in_combine_seq_nth.
    + apply sort_by_sorted.
      * intros x y. apply Qle_bool_total.
      * intros x y z. apply Qle_bool_trans.
Qed.

(** ** Picking and removing by position *)

Lemma remove_nth_perm {A : Type} (l : list A) (k : nat) (d : A) :
  nth_error l k = Some d -> Permutation (d :: remove_nth k l) l.
Proof.
  revert k. induction l as [| x l IH]; intros [| k]; simpl; try discriminate.
  - intros H. inversion H. reflexivity.
  - intros H. rewrite perm_swap. constructor. now apply IH.
Qed.

Lemma remove_nth_length {A : Type} (l : list A) (k : nat) :
  k < List.length l -> List.length (remove_nth k l) = List.length l - 1.
Proof.
  revert k. induction l as [| x l IH]; intros [| k]; simpl; try lia.
  intros H. rewrite IH by lia. lia.
Qed.

Lemma map_nth_seq {A : Type} (l : list A) (d : A) (n : nat) :
  n <= List.length l -> map (fun j => nth j l d) (seq 0 n) = firstn n l.
Proof.
  revert l. induction n as [| n IH]; intros l Hn; [reflexivity |].
  destruct l as [| x l]; simpl in *; [lia |].
  f_equal. rewrite <- seq_shift, map_map. apply IH. lia.
Qed.

Lemma mapM_map {A B : Type} (f : A -> M B) (g : A -> B) (l : list A) :
  (forall x, In x l -> f x = Ok (g x)) -> mapM f l = Ok (map g l).
Proof.
  induction l as [| x l IH]; intros H; simpl; [reflexivity |].
  rewrite H by now left. simpl. rewrite IH; [reflexivity |].
  intros y Hy. apply H. now right.
Qed.

Lemma mapM_ok_map {A B : Type} (f : A -> M B) (g : A -> B) (l : list A)
  (ys : list B) :
  mapM f l = Ok ys ->
  (forall x y, In x l -> f x = Ok y -> y = g x) ->
  ys = map g l.
Proof.
  intros H Hg. apply mapM_ok in H.
  induction H as [| x y l ys Hxy _ IH]; simpl; [reflexivity |].
  f_equal.
  - apply Hg; [now left | exact Hxy].
  - apply IH. intros x' y' Hx'. apply Hg. now right.
Qed.

Lemma mapM_ok_In {A B : Type} (f : A -> M B) (l : list A) (ys : list B) :
  mapM f l = Ok ys -> forall x, In x l -> exists y, f x = Ok y.
Proof.
  intros H. apply mapM_ok in H.
  induction H as [| x y l ys Hxy _ IH]; intros x' []; subst; eauto.
Qed.

Lemma pick_ok {A : Type} (l : list A) (ks : list nat) (ys : list A) (d : A) :
  pick l ks = Ok ys ->
  ys = map (fun k => nth k l d) ks
  /\ Forall (fun k => k < List.length l) ks.
Proof.
  unfold pick. intros H. split.
  - apply (mapM_ok_map _ _ _ _ H). intros k y _ Hk.
    apply (py_index_nth _ _ _ d) in Hk. now destruct Hk.
  - apply Forall_forall. intros k Hk.
    destruct (mapM_ok_In _ _ _ H k Hk) as (y & Hy).
    apply (py_index_nth _ _ _ d) in Hy. now destruct Hy.
Qed.

Lemma pick_in_range {A : Type} (l : list A) (ks : list nat) (d : A) :
  Forall (fun k => k < List.length l) ks ->
  pick l ks = Ok (map (fun k => nth k l d) ks).
Proof.
  intros H. apply mapM_map. intros k Hk.
  rewrite Forall_forall in H. specialize (H k Hk).
  destruct (py_index_lt l k H) as (a & Ha). rewrite Ha.
  apply (py_index_nth _ _ _ d) in Ha. destruct Ha as (_ & ->). reflexivity.
Qed.

Lemma NoDup_map_nth {A : Type} (l : list A) (ks : list nat) (d : A) :
  NoDup l -> NoDup ks -> Forall (fun k => k < List.length l) ks ->
  NoDup (map (fun k => nth k l d) ks).
Proof.
  intros Hl Hks Hb. apply Finite.Injective_map_NoDup_in; [| exact Hks].
  rewrite Forall_forall in Hb. intros x y Hx Hy E.
  rewrite (NoDup_nth l d) in Hl. apply Hl; auto.
Qed.

Lemma combine_map_fst {A B : Type} (l : list A) (l' : list B) :
  map fst (combine l l') = firstn (List.length l') l.
Proof.
  revert l'. induction l as [| x l IH]; intros [| y l']; simpl; auto.
  - f_equal. apply IH.
Qed.

Lemma NoDup_firstn {A : Type} (n : nat) (l : list A) :
  NoDup l -> NoDup (firstn n l).
Proof.
  intros H. rewrite <- (firstn_skipn n l) in H.
  now apply NoDup_app_remove_r in H.
Qed.

Lemma In_firstn {A : Type} (n : nat) (l : list A) (x : A) :
  In x (firstn n l) -> In x l.
Proof.
  intros H. rewrite <- (firstn_skipn n l). apply in_or_app. now left.
Qed.



(** ** C5: the adaptive rerank budget *)

Section BudgetFacts.

Variable np : Numpy.

Lemma adaptive_budget_short (scores : list Q) :
  List.length scores < 10 ->
  _adaptive_budget np scores = List.length scores.
Proof.
  intros H. unfold _adaptive_budget.
  destruct (Nat.ltb_spec (List.length scores) 10); lia.
Qed.

(** C5, as the code has it.  With fewer than ten initial scores the budget
    is their number.  With ten or more it is one of 70, 80, 90 and 100:
    100 if the deviation of the first ten is below 0.02 or s[0]-s[9] is below
    0.1; else 70 if s[0]-s[4] exceeds 0.4; else 80 if s[0]-s[9] exceeds 0.5;
    else 90.  The rerank pool is the first min(budget, survivors) of the
    candidates that survived deduplication. *)
Theorem adaptive_budget_cases (scores : list Q) (c : Candidates) :
  let n := List.length scores in
  let r1 := nth 0 scores 0%Q in
  let r5 := nth 4 scores 0%Q in
  let r10 := nth 9 scores 0%Q in
  let sd := np_std np (firstn 10 scores) in
  let budget := _adaptive_budget np scores in
  (n < 10 -> budget = n)
  /\ (10 <= n ->
      In budget [70; 80; 90; 100]
      /\ ((sd < 0.02 \/ r1 - r10 < 0.1)%Q -> budget = 100)
      /\ (~ (sd < 0.02 \/ r1 - r10 < 0.1)%Q ->
          ((0.4 < r1 - r5)%Q -> budget = 70)
          /\ (~ (0.4 < r1 - r5)%Q ->
              ((0.5 < r1 - r10)%Q -> budget = 80)
              /\ (~ (0.5 < r1 - r10)%Q -> budget = 90))))
  /\ c_ids (rerank_pool np scores c)
     = firstn (Nat.min budget (List.length (c_ids c))) (c_ids c)
  /\ List.length (c_ids (rerank_pool np scores c))
     = Nat.min budget (List.length (c_ids c)).
Proof.
  intros n r1 r5 r10 sd budget. split; [| split; [| split]].
  - apply adaptive_budget_short.
  - intros Hn. subst budget. unfold _adaptive_budget. fold n.
    destruct (Nat.ltb_spec n 10) as [Hlt | _]; [lia |].
    destruct (Nat.leb_spec 10 n) as [_ | Hlt]; [| lia].
    replace (Nat.min 4 (n - 1)) with 4 by lia.
    replace (Nat.min 9 (n - 1)) with 9 by lia.
    fold sd r1 r5 r10.
    destruct (Qltb sd 0.02) eqn:Esd; simpl.
    { apply Qltb_lt in Esd. split; [simpl; tauto |].
      split; [reflexivity |]. intros Hn'. exfalso. apply Hn'. now left. }
    apply Qltb_ge in Esd.
    destruct (Qltb (r1 - r10) 0.1) eqn:Ed; simpl.
    { apply Qltb_lt in Ed. split; [simpl; tauto |].
      split; [reflexivity |]. intros Hn'. exfalso. apply Hn'. now right. }
    apply Qltb_ge in Ed.
    assert (Hflat : ~ (sd < 0.02 \/ r1 - r10 < 0.1)%Q).
    { intros [H | H]; eapply Qlt_not_le; eauto. }
    destruct (Qltb 0.4 (r1 - r5)) eqn:E5.
    { apply Qltb_lt in E5. split; [simpl; tauto |].
      split; [tauto |]. intros _. split; [reflexivity | tauto]. }
    apply Qltb_ge in E5.
    assert (H5 : ~ (0.4 < r1 - r5)%Q) by (now apply Qle_not_lt).
    destruct (Qltb 0.5 (r1 - r10)) eqn:E10.
    { apply Qltb_lt in E10. split; [simpl; tauto |].
      split; [tauto |]. intros _. split; [tauto |]. intros _.
      split; [reflexivity | tauto]. }
    apply Qltb_ge in E10.
    assert (H10 : ~ (0.5 < r1 - r10)%Q) by (now apply Qle_not_lt).
    split; [simpl; tauto |]. split; [tauto |]. intros _.
    split; [tauto |]. intros _. split; [tauto | reflexivity].
  - reflexivity.
  - unfold rerank_pool. simpl. rewrite length_firstn. fold budget. lia.
Qed.

End BudgetFacts.

(** C5 as stated fails: one initial score gives the budget 1. *)
Lemma adaptive_budget_not_in_set :
  _adaptive_budget reference_numpy [1%Q] = 1
  /\ ~ In (_adaptive_budget reference_numpy [1%Q]) [70; 80; 90; 100].
Proof.
  split; [reflexivity |].
  simpl. intros [H | [H | [H | [H | []]]]]; discriminate.
Qed.

(** ** C8: the snippet builder *)

Lemma split_sentences_aux_nonempty (a g : bool) (cur s : string) :
  split_sentences_aux a g cur s <> [].
Proof.
  revert a g cur. induction s as [| c s IH]; intros a g cur; simpl.
  - discriminate.
  - destruct g; [destruct (is_space c); apply IH |].
    destruct (a && is_space c); [discriminate | apply IH].
Qed.

Lemma argmax_from_spec (key : string -> nat) (sents : list string) :
  forall (l pre : list string) (best bk : nat),
    sents = pre ++ l ->
    best < List.length pre ->
    bk = key (nth best sents "") ->
    (forall j, j < List.length pre -> key (nth j sents "") <= bk) ->
    (forall j, j < best -> key (nth j sents "") < bk) ->
    let r := argmax_from key (List.length pre) l best bk in
    r < List.length sents
    /\ (forall j, j < List.length sents ->
                  key (nth j sents "") <= key (nth r sents ""))
    /\ (forall j, j < r -> key (nth j sents "") < key (nth r sents "")).
Proof.
  induction l as [| x l IH]; intros pre best bk Hs Hb Hk Hle Hlt; simpl.
  - rewrite app_nil_r in Hs. subst pre. subst bk. auto.
  - assert (Hx : nth (List.length pre) sents "" = x).
    { subst sents. rewrite app_nth2, Nat.sub_diag by lia. reflexivity. }
    assert (Hs' : sents = (pre ++ [x]) ++ l).
    { rewrite <- app_assoc. exact Hs. }
    assert (Hlen : List.length (pre ++ [x]) = S (List.length pre)).
    { rewrite length_app. simpl. lia. }
    destruct (Nat.ltb_spec bk (key x)) as [Hgt | Hge].
    + specialize (IH (pre ++ [x]) (List.length pre) (key x) Hs').
      rewrite Hlen in IH. apply IH.
      * lia.
      * now rewrite Hx.
      * intros j Hj. destruct (Nat.eq_dec j (List.length pre)) as [-> | Hne].
        -- now rewrite Hx.
        -- specialize (Hle j). lia.
      * intros j Hj. specialize (Hle j). lia.
    + specialize (IH (pre ++ [x]) best bk Hs').
      rewrite Hlen in IH. apply IH; auto.
      intros j Hj. destruct (Nat.eq_dec j (List.length pre)) as [-> | Hne].
      * now rewrite Hx.
      * apply Hle. lia.
Qed.

(** The position [argmax] returns is the first one of a greatest key. *)
Lemma argmax_spec (key : string -> nat) (sents : list string) :
  sents <> [] ->
  let r := argmax key sents in
  r < List.length sents
  /\ (forall j, j < List.length sents ->
                key (nth j sents "") <= key (nth r sents ""))
  /\ (forall j, j < r -> key (nth j sents "") < key (nth r sents "")).
Proof.
  destruct sents as [| x l]; [congruence | intros _].
  unfold argmax.
  apply (argmax_from_spec key (x :: l) l [x] 0 (key x)); simpl; auto.
  - intros j Hj. replace j with 0 by lia. auto.
  - intros j Hj. lia.
Qed.

Lemma take_length (n : nat) (s : string) :
  String.length (take n s) = Nat.min n (String.length s).
Proof.
  revert s. induction n as [| n IH]; intros [| c s]; simpl; auto.
Qed.

Lemma append_length (s t : string) :
  String.length (s ++ t)%string = String.length s + String.length t.
Proof.
  induction s as [| c s IH]; simpl; auto.
Qed.

Lemma cut_last_space_none (s : string) :
  cut_last_space s = None -> no_space s = true.
Proof.
  induction s as [| d s IHs]; simpl; auto.
  destruct (cut_last_space s); [discriminate |].
  destruct (Ascii.eqb_spec d space); [discriminate |].
  intros _. unfold no_space in *. simpl.
  destruct (Ascii.eqb_spec d space); [contradiction | auto].
Qed.

Lemma cut_last_space_some (s h : string) :
  cut_last_space s = Some h ->
  exists t, s = (h ++ String space t)%string /\ no_space t = true.
Proof.
  revert h. induction s as [| c s IH]; simpl; intros h H; [discriminate |].
  destruct (cut_last_space s) as [h' |] eqn:E.
  - inversion H; subst. destruct (IH h' eq_refl) as (t & -> & Ht).
    exists t. split; [reflexivity | exact Ht].
  - destruct (Ascii.eqb_spec c space) as [-> | Hne]; [| discriminate].
    inversion H; subst. exists s. split; [reflexivity |].
    now apply cut_last_space_none.
Qed.

(** C8, as the code has it.  The text always splits into at least one
    sentence; [best] is the first sentence with the greatest number of query
    tokens present; the window holds the sentences at positions [best - 1] to
    [best + 2] inside the text, at most four, the best one among them; the
    joined window is returned whole when it has at most [max_chars]
    characters, and otherwise its first [max_chars] characters are cut at
    their last space (kept whole if they have none) and the ellipsis is
    appended. *)
Theorem snippet_window_and_cut (text query : string) (max_chars : nat) :
  let sents := split_sentences text in
  let qt := dedup (tok query) in
  let best := argmax (hits qt) sents in
  let window := snippet_window sents qt in
  let out := join " " window in
  (best < List.length sents
   /\ (forall j, j < List.length sents ->
                 hits qt (nth j sents "") <= hits qt (nth best sents ""))
   /\ (forall j, j < best ->
                 hits qt (nth j sents "") < hits qt (nth best sents "")))
  /\ (List.length window
      = Nat.min (List.length sents) (best + 3) - (best - 1)
      /\ List.length window <= 4
      /\ (forall k, k < List.length window ->
                    nth_error window k = nth_error sents (best - 1 + k))
      /\ In (nth best sents "") window)
  /\ (String.length out <= max_chars -> _snippet text query max_chars = out)
  /\ (max_chars < String.length out ->
      exists head,
        _snippet text query max_chars = (head ++ ellipsis)%string
        /\ String.length head <= max_chars
        /\ ((no_space (take max_chars out) = true
             /\ head = take max_chars out)
            \/ (exists tail,
                  take max_chars out = (head ++ String space tail)%string
                  /\ no_space tail = true))).
Proof.
  intros sents qt best window out.
  assert (Hne : sents <> []) by apply split_sentences_aux_nonempty.
  pose proof (argmax_spec (hits qt) sents Hne) as Hbest.
  cbv zeta in Hbest. fold best in Hbest.
  assert (Hwin : window
                 = firstn (Nat.min (List.length sents) (best + 3) - (best - 1))
                          (skipn (best - 1) sents)).
  { unfold window, snippet_window, slice. fold best.
    now rewrite Nat.max_0_l. }
  assert (Hlen : List.length window
                 = Nat.min (List.length sents) (best + 3) - (best - 1)).
  { rewrite Hwin, length_firstn, length_skipn. lia. }
  assert (Hnth : forall k, k < List.length window ->
                           nth_error window k = nth_error sents (best - 1 + k)).
  { intros k Hk. rewrite Hlen in Hk. rewrite Hwin, nth_error_firstn.
    destruct (Nat.ltb_spec k
                (Nat.min (List.length sents) (best + 3) - (best - 1)));
      [| lia].
    apply nth_error_skipn. }
  assert (Hsnip : _snippet text query max_chars
                  = if max_chars <? String.length out
                    then (rsplit_head (take max_chars out) ++ ellipsis)%string
                    else out).
  { unfold _snippet. fold sents. destruct sents; [congruence | reflexivity]. }
  split; [exact Hbest |]. split; [| split].
  - split; [exact Hlen |]. split; [lia |]. split; [exact Hnth |].
    destruct Hbest as (Hb & _).
    apply nth_error_In with (n := best - (best - 1)).
    rewrite Hnth by lia.
    replace (best - 1 + (best - (best - 1))) with best by lia.
    now apply nth_error_nth'.
  - intros Hle. rewrite Hsnip.
    destruct (Nat.ltb_spec max_chars (String.length out)); [lia | reflexivity].
  - intros Hgt. rewrite Hsnip.
    destruct (Nat.ltb_spec max_chars (String.length out)); [| lia].
    exists (rsplit_head (take max_chars out)). split; [reflexivity |].
    unfold rsplit_head.
    destruct (cut_last_space (take max_chars out)) as [h |] eqn:E.
    + destruct (cut_last_space_some _ _ E) as (t & Ht & Hns).
      split.
      * pose proof (take_length max_chars out) as Hl.
        rewrite Ht, append_length in Hl. lia.
      * right. exists t. auto.
    + split.
      * rewrite take_length. lia.
      * left. split; [now apply cut_last_space_none | reflexivity].
Qed.

(** C8 as stated fails: with six sentences and the second one the best, the
    window ends two sentences after it, and the sentence three after it, which
    the window of the specification holds, is left out. *)
Lemma snippet_window_ends_two_after :
  let text := "a1. b2. c3. d4. e5. f6." in
  _snippet text "b2" 280 = "a1. b2. c3. d4."
  /\ join " " (spec_window (split_sentences text) (dedup (tok "b2")))
     = "a1. b2. c3. d4. e5."
  /\ _snippet text "b2" 280
     <> join " " (spec_window (split_sentences text) (dedup (tok "b2"))).
Proof.
  simpl. split; [reflexivity |]. split; [reflexivity |]. discriminate.
Qed.

(** ** C9: boost features and the final score *)

Lemma qmin_le_l (x y : Q) : (qmin x y <= x)%Q.
Proof.
  unfold qmin. destruct (Qle_bool x y) eqn:E.
  - apply Qle_refl.
  - apply Qle_bool_gt in E. now apply Qlt_le_weak.
Qed.

Lemma qmin_le_r (x y : Q) : (qmin x y <= y)%Q.
Proof.
  unfold qmin. destruct (Qle_bool x y) eqn:E.
  - now apply Qle_bool_iff.
  - apply Qle_refl.
Qed.

Lemma qmax_ge_l (x y : Q) : (x <= qmax x y)%Q.
Proof.
  unfold qmax. destruct (Qle_bool x y) eqn:E.
  - now apply Qle_bool_iff.
  - apply Qle_refl.
Qed.

Lemma qmax_ge_r (x y : Q) : (y <= qmax x y)%Q.
Proof.
  unfold qmax. destruct (Qle_bool x y) eqn:E.
  - apply Qle_refl.
  - apply Qle_bool_gt in E. now apply Qlt_le_weak.
Qed.

Lemma fold_qmin_le (xs : list Q) (a : Q) :
  (fold_left qmin xs a <= a)%Q
  /\ forall x, In x xs -> (fold_left qmin xs a <= x)%Q.
Proof.
  revert a. induction xs as [| y xs IH]; intros a; simpl.
  - split; [apply Qle_refl | tauto].
  - destruct (IH (qmin a y)) as (Ha & Hin). split.
    + eapply Qle_trans; [exact Ha | apply qmin_le_l].
    + intros x [-> | Hx]; [| auto].
      eapply Qle_trans; [exact Ha | apply qmin_le_r].
Qed.

Lemma fold_qmax_ge (xs : list Q) (a : Q) :
  (a <= fold_left qmax xs a)%Q
  /\ forall x, In x xs -> (x <= fold_left qmax xs a)%Q.
Proof.
  revert a. induction xs as [| y xs IH]; intros a; simpl.
  - split; [apply Qle_refl | tauto].
  - destruct (IH (qmax a y)) as (Ha & Hin). split.
    + eapply Qle_trans; [apply qmax_ge_l | exact Ha].
    + intros x [-> | Hx]; [| auto].
      eapply Qle_trans; [apply qmax_ge_r | exact Ha].
Qed.

Lemma np_min_le (xs : list Q) (x : Q) : In x xs -> (np_min xs <= x)%Q.
Proof.
  destruct xs as [| a xs]; simpl; [tauto |].
  destruct (fold_qmin_le xs a) as (Ha & Hin).
  intros [<- | Hx]; auto.
Qed.

Lemma np_max_ge (xs : list Q) (x : Q) : In x xs -> (x <= np_max xs)%Q.
Proof.
  destruct xs as [| a xs]; simpl; [tauto |].
  destruct (fold_qmax_ge xs a) as (Ha & Hin).
  intros [<- | Hx]; auto.
Qed.

Lemma normalize_normalized (raw out : list Q) :
  normalize raw = Ok out -> normalized raw out.
Proof.
  unfold normalize, normalized. intros H.
  assert (Hout : out = map (fun x => ((x - np_min raw)
                   / (np_max raw - np_min raw + 1e-9))%Q) raw).
  { destruct raw; [discriminate | now inversion H]. }
  clear H. split; [subst out; apply length_map |].
  intros i Hi.
  set (lo := np_min raw) in *. set (hi := np_max raw) in *.
  set (x := nth i raw 0%Q).
  assert (Hx : In x raw) by (apply nth_In; exact Hi).
  assert (Hlo : (lo <= x)%Q) by (now apply np_min_le).
  assert (Hhi : (x <= hi)%Q) by (now apply np_max_ge).
  assert (Hnth : nth i out 0%Q = ((x - lo) / (hi - lo + 1e-9))%Q).
  { subst out.
    rewrite nth_indep with (d' := ((0 - lo) / (hi - lo + 1e-9))%Q)
      by (now rewrite length_map).
    apply (map_nth (fun x => ((x - lo) / (hi - lo + 1e-9))%Q)). }
  rewrite Hnth.
  clearbody x lo hi. clear Hx Hnth Hout.
  change (1e-9)%Q with (1 # 1000000000)%Q.
  assert (Hden : (0 < hi - lo + (1 # 1000000000))%Q) by lra.
  split; [reflexivity |]. split; [| split; [| split]].
  - apply Qle_shift_div_l; [exact Hden | lra].
  - apply Qlt_shift_div_r; [exact Hden | lra].
  - intros Hsmall. apply Qlt_shift_div_r; [exact Hden | lra].
  - intros Heq. setoid_replace (x - lo)%Q with 0%Q by lra.
    unfold Qdiv. apply Qmult_0_l.
Qed.

Lemma final_scores_of_spec (rrf j p d fs : list Q) :
  final_scores_of rrf j p d = Ok fs ->
  List.length fs = List.length rrf
  /\ forall i, i < List.length rrf ->
       nth i fs 0%Q
       = (nth i rrf 0 * (1 + (0.4 * nth i j 0 + 0.3 * nth i p 0
                              + 0.1 * nth i d 0)))%Q.
Proof.
  unfold final_scores_of. intros H.
  pose proof (mapM_length _ _ _ H) as Hlen. rewrite length_seq in Hlen.
  split; [exact Hlen |]. intros i Hi.
  apply mapM_ok in H.
  pose proof (Forall2_seq_nth _ _ _ 0%Q H i Hi) as Hi'. cbv beta in Hi'.
  apply bind_ok in Hi'. destruct Hi' as (base & Hbase & Hi').
  apply bind_ok in Hi'. destruct Hi' as (jacc & Hjacc & Hi').
  apply bind_ok in Hi'. destruct Hi' as (phrb & Hphrb & Hi').
  apply bind_ok in Hi'. destruct Hi' as (digb & Hdigb & Hi').
  apply (py_index_nth _ _ _ 0%Q) in Hbase, Hjacc, Hphrb, Hdigb.
  destruct Hbase as (_ & ->), Hjacc as (_ & ->), Hphrb as (_ & ->),
    Hdigb as (_ & ->).
  now inversion Hi'.
Qed.

(** C9, as the code has it.  Each of the three boost feature vectors goes
    through [normalize]: every entry is (x - min) / (range + 1e-9), lies in
    [0, 1), is below 0.5 when the range is below 1e-9 and is 0 when all the
    values are equal.  The final score of candidate i is
    rrf[i] * (1 + 0.4 jacc[i] + 0.3 phr[i] + 0.1 dig[i]). *)
Theorem boost_normalization_and_final_score
  (texts : list string) (q : string) (rrf j p d fs : list Q) :
  _compute_boost_features texts q = Ok (j, p, d) ->
  final_scores_of rrf j p d = Ok fs ->
  let qt := boost_tokens q in
  normalized (map (jaccard_feature (dedup qt)) texts) j
  /\ normalized (map (phrase_feature (query_phrases qt)) texts) p
  /\ normalized
       (map (digit_feature (dedup (digit_runs (join " " qt)))) texts) d
  /\ List.length fs = List.length rrf
  /\ forall i, i < List.length rrf ->
       nth i fs 0%Q
       = (nth i rrf 0 * (1 + (0.4 * nth i j 0 + 0.3 * nth i p 0
                              + 0.1 * nth i d 0)))%Q.
Proof.
  intros Hf Hs qt. unfold _compute_boost_features in Hf. fold qt in Hf.
  apply bind_ok in Hf. destruct Hf as (j' & Hj & Hf).
  apply bind_ok in Hf. destruct Hf as (p' & Hp & Hf).
  apply bind_ok in Hf. destruct Hf as (d' & Hd & Hf).
  inversion Hf; subst j' p' d'.
  split; [now apply normalize_normalized |].
  split; [now apply normalize_normalized |].
  split; [now apply normalize_normalized |].
  now apply final_scores_of_spec.
Qed.

Lemma boost_normalization_witness :
  _compute_boost_features boost_texts boost_query
    = Ok (boost_j, boost_p, boost_d)
  /\ final_scores_of boost_rrf boost_j boost_p boost_d = Ok boost_final
  /\ (normalized
        (map (jaccard_feature (dedup (boost_tokens boost_query))) boost_texts)
        boost_j
      /\ List.length boost_final = List.length boost_rrf).
Proof.
  assert (H1 : _compute_boost_features boost_texts boost_query
               = Ok (boost_j, boost_p, boost_d)) by (vm_compute; reflexivity).
  assert (H2 : final_scores_of boost_rrf boost_j boost_p boost_d
               = Ok boost_final) by (vm_compute; reflexivity).
  split; [exact H1 |]. split; [exact H2 |].
  pose proof (boost_normalization_and_final_score
                boost_texts boost_query boost_rrf boost_j boost_p boost_d
                boost_final H1 H2) as H.
  cbv zeta in H. split; [apply H | apply H].
Defined.

(** C9 as stated fails: when no candidate shares a token with the query the
    jaccard feature is 0 everywhere, its range is below 1e-9, and the
    normalized entries are 0, not 0.5. *)
Lemma flat_feature_normalizes_to_zero :
  let raw := map (jaccard_feature (dedup (boost_tokens "gamma")))
                 ["alpha"; "beta"] in
  (np_max raw - np_min raw < 1e-9)%Q
  /\ exists j p d,
       _compute_boost_features ["alpha"; "beta"] "gamma" = Ok (j, p, d)
       /\ (nth 0 j 0 == 0)%Q /\ ~ (nth 0 j 0 == 0.5)%Q.
Proof.
  split; [vm_compute; reflexivity |].
  eexists _, _, _. split; [vm_compute; reflexivity |].
  split; [reflexivity | discriminate].
Qed.

(** ** C7: the near-duplicate filter *)

Lemma mem_In (x : string) (l : list string) : mem x l = true <-> In x l.
Proof.
  unfold mem. rewrite existsb_exists. split.
  - intros (y & Hy & E). apply String.eqb_eq in E. now subst.
  - intros H. exists x. split; [exact H | apply String.eqb_refl].
Qed.

Lemma mem_not_In (x : string) (l : list string) :
  mem x l = false <-> ~ In x l.
Proof.
  rewrite <- mem_In. destruct (mem x l); split; congruence.
Qed.

Lemma dedup_aux_spec (l seen : list string) :
  NoDup (dedup_aux seen l)
  /\ forall x, In x (dedup_aux seen l) <-> In x l /\ ~ In x seen.
Proof.
  revert seen. induction l as [| y l IH]; intros seen; simpl.
  - split; [constructor | tauto].
  - destruct (mem y seen) eqn:E.
    + apply mem_In in E. destruct (IH seen) as (Hnd & Hin).
      split; [exact Hnd |]. intros x. rewrite Hin.
      split; [tauto |]. intros ([-> | Hx] & Hs); tauto.
    + apply mem_not_In in E. destruct (IH (y :: seen)) as (Hnd & Hin).
      split.
      * constructor; [| exact Hnd]. rewrite Hin. simpl. tauto.
      * intros x. simpl. rewrite Hin. simpl.
        destruct (string_dec y x) as [-> | Hne]; tauto.
Qed.

Lemma dedup_NoDup (l : list string) : NoDup (dedup l).
Proof. apply dedup_aux_spec. Qed.

Lemma dedup_In (l : list string) (x : string) : In x (dedup l) <-> In x l.
Proof.
  unfold dedup. rewrite (proj2 (dedup_aux_spec l [])). simpl. tauto.
Qed.

Lemma inter_size_sym (a b : list string) :
  NoDup a -> NoDup b -> inter_size a b = inter_size b a.
Proof.
  intros Ha Hb. unfold inter_size. apply Permutation_length.
  apply NoDup_Permutation; try (now apply NoDup_filter).
  intros x. rewrite !filter_In, !mem_In. tauto.
Qed.

Lemma union_size_inter (a b : list string) :
  union_size a b + inter_size b a = List.length a + List.length b.
Proof.
  unfold union_size, inter_size.
  pose proof (filter_length (fun x => mem x a) b). lia.
Qed.

Lemma union_size_sym (a b : list string) :
  NoDup a -> NoDup b -> union_size a b = union_size b a.
Proof.
  intros Ha Hb.
  pose proof (union_size_inter a b). pose proof (union_size_inter b a).
  pose proof (inter_size_sym a b Ha Hb). lia.
Qed.

Lemma jaccard_sym (a b : list string) :
  NoDup a -> NoDup b -> jaccard a b = jaccard b a.
Proof.
  intros Ha Hb. unfold jaccard.
  now rewrite inter_size_sym, union_size_sym.
Qed.

Section DedupFacts.

Variable word_sets : list (list string).
Variable threshold : Q.

Lemma near_duplicate_accepts (i : nat) (keep : list nat) :
  Forall (fun j => j < List.length word_sets) keep ->
  near_duplicate word_sets threshold (nth i word_sets []) keep
  = Ok (negb (accepts word_sets threshold keep i)).
Proof.
  induction 1 as [| j keep Hj _ IH]; simpl; [reflexivity |].
  destruct (py_index_lt word_sets j Hj) as (wj & Hwj). rewrite Hwj. simpl.
  apply (py_index_nth _ _ _ []) in Hwj. destruct Hwj as (_ & <-).
  unfold Qltb.
  destruct (Qle_bool threshold
              (jaccard (nth i word_sets []) (nth j word_sets []))); simpl;
    [reflexivity | exact IH].
Qed.

Lemma greedy_step_bound (kept : list nat) (i : nat) :
  Forall (fun j => j < List.length word_sets) kept ->
  i < List.length word_sets ->
  Forall (fun j => j < List.length word_sets)
         (greedy_step word_sets threshold kept i).
Proof.
  intros Hk Hi. unfold greedy_step.
  destruct (accepts word_sets threshold kept i); [| exact Hk].
  apply Forall_app. split; [exact Hk | now constructor].
Qed.

(** The loop of the code computes the rule of the specification. *)
Lemma dedup_loop_greedy (order : list nat) :
  forall keep,
    Forall (fun j => j < List.length word_sets) order ->
    Forall (fun j => j < List.length word_sets) keep ->
    dedup_loop word_sets threshold order keep
    = Ok (fold_left (greedy_step word_sets threshold) order keep).
Proof.
  induction order as [| i order IH]; intros keep Ho Hk; simpl;
    [reflexivity |].
  inversion Ho as [| ? ? Hi Ho']; subst.
  destruct (py_index_lt word_sets i Hi) as (wi & Hwi). rewrite Hwi. simpl.
  apply (py_index_nth _ _ _ []) in Hwi. destruct Hwi as (_ & <-).
  rewrite near_duplicate_accepts by exact Hk. simpl.
  rewrite IH; [| exact Ho' |].
  - unfold greedy_step.
    now destruct (accepts word_sets threshold keep i).
  - pose proof (greedy_step_bound keep i Hk Hi) as Hb.
    unfold greedy_step in Hb.
    now destruct (accepts word_sets threshold keep i).
Qed.

Lemma fold_step_In (order : list nat) :
  forall kept x,
    In x (fold_left (greedy_step word_sets threshold) order kept) ->
    In x kept \/ In x order.
Proof.
  induction order as [| i order IH]; intros kept x; simpl; [tauto |].
  intros H. apply IH in H. destruct H as [H | H]; [| tauto].
  unfold greedy_step in H.
  destruct (accepts word_sets threshold kept i); [| tauto].
  apply in_app_or in H. simpl in H. tauto.
Qed.

Lemma fold_step_keeps (order : list nat) :
  forall kept x,
    In x kept ->
    In x (fold_left (greedy_step word_sets threshold) order kept).
Proof.
  induction order as [| i order IH]; intros kept x H; simpl; [exact H |].
  apply IH. unfold greedy_step.
  destruct (accepts word_sets threshold kept i); [| exact H].
  apply in_or_app. now left.
Qed.

Lemma fold_step_NoDup (order : list nat) :
  forall kept,
    NoDup (kept ++ order) ->
    NoDup (fold_left (greedy_step word_sets threshold) order kept).
Proof.
  induction order as [| i order IH]; intros kept H; simpl.
  - now rewrite app_nil_r in H.
  - apply IH. unfold greedy_step.
    destruct (accepts word_sets threshold kept i).
    + now rewrite <- app_assoc.
    + now apply NoDup_remove_1 in H.
Qed.

(** Along the kept list, as along the order, [R] relates every element to
    the later ones. *)
Lemma fold_step_sorted (R : nat -> nat -> Prop) (order : list nat) :
  forall kept,
    StronglySorted R (kept ++ order) ->
    StronglySorted R (fold_left (greedy_step word_sets threshold) order kept).
Proof.
  induction order as [| i order IH]; intros kept H; simpl.
  - now rewrite app_nil_r in H.
  - apply IH. unfold greedy_step.
    destruct (accepts word_sets threshold kept i).
    + now rewrite <- app_assoc.
    + clear IH. induction kept as [| k kept IHk]; simpl in *.
      * now inversion H.
      * inversion H as [| ? ? Hs Hf]; subst. constructor.
        -- now apply IHk.
        -- rewrite Forall_app in *. destruct Hf as (Hf1 & Hf2).
           split; [exact Hf1 | now inversion Hf2].
Qed.

Hypothesis word_sets_NoDup : Forall (@NoDup string) word_sets.

Lemma nth_word_set_NoDup (i : nat) : NoDup (nth i word_sets []).
Proof.
  destruct (Nat.lt_ge_cases i (List.length word_sets)) as [H | H].
  - rewrite Forall_forall in word_sets_NoDup.
    apply word_sets_NoDup. now apply nth_In.
  - rewrite nth_overflow by exact H. constructor.
Qed.

Lemma greedy_step_apart (kept : list nat) (i : nat) :
  apart word_sets threshold kept ->
  apart word_sets threshold (greedy_step word_sets threshold kept i).
Proof.
  intros Hk. unfold greedy_step.
  destruct (accepts word_sets threshold kept i) eqn:E; [| exact Hk].
  unfold apart in *. unfold accepts in E. rewrite forallb_forall in E.
  intros a b Ha Hb Hab.
  apply in_app_or in Ha. apply in_app_or in Hb. simpl in Ha, Hb.
  destruct Ha as [Ha | [<- | []]], Hb as [Hb | [<- | []]].
  - now apply Hk.
  - rewrite jaccard_sym by apply nth_word_set_NoDup.
    apply Qltb_lt. now apply E.
  - apply Qltb_lt. now apply E.
  - congruence.
Qed.

Lemma fold_step_apart (order : list nat) :
  forall kept,
    apart word_sets threshold kept ->
    apart word_sets threshold
      (fold_left (greedy_step word_sets threshold) order kept).
Proof.
  induction order as [| i order IH]; intros kept H; simpl; [exact H |].
  apply IH. now apply greedy_step_apart.
Qed.

End DedupFacts.

Lemma ascending_sorted (xs : list Q) (order : list nat) :
  ascending xs order ->
  StronglySorted (fun i j => (nth i xs 0 <= nth j xs 0)%Q) order.
Proof.
  induction order as [| x l IH]; intros H; constructor.
  - apply IH. intros a b Hab Hb.
    apply (H (S a) (S b)); simpl; lia.
  - apply Forall_forall. intros y Hy.
    destruct (In_nth l y 0 Hy) as (k & Hk & <-).
    apply (H 0 (S k)); simpl; lia.
Qed.

Lemma sorted_impl (R R' : nat -> nat -> Prop) (l : list nat) :
  (forall i j, R i j -> R' i j) ->
  StronglySorted R l -> StronglySorted R' l.
Proof.
  intros HR. induction 1 as [| x l Hs IH Hf]; constructor; [exact IH |].
  eapply Forall_impl; [| exact Hf]. intros j. apply HR.
Qed.

Lemma word_sets_all_NoDup (texts : list string) :
  Forall (@NoDup string) (map word_set texts).
Proof.
  apply Forall_forall. intros w Hw. apply in_map_iff in Hw.
  destruct Hw as (t & <- & _). apply dedup_NoDup.
Qed.

Lemma Permutation_seq_bound (order : list nat) (n : nat) :
  Permutation order (seq 0 n) -> Forall (fun j => j < n) order.
Proof.
  intros H. apply Forall_forall. intros j Hj.
  apply (Permutation_in _ H) in Hj. apply in_seq in Hj. lia.
Qed.

Section JaccardDedup.

Variable np : Numpy.
Hypothesis np_ok : argsort_spec np.

(** What [_jaccard_dedup] returns, for scores that go with the texts: the
    list the rule of the specification keeps along the score order. *)
Lemma jaccard_dedup_greedy (texts : list string) (scores : list Q)
  (threshold : Q) :
  List.length scores = List.length texts ->
  _jaccard_dedup np texts scores threshold
  = Ok (greedy_keep (map word_set texts) threshold
          (np_argsort np (map Qopp scores))).
Proof.
  intros Hlen. unfold _jaccard_dedup, greedy_keep.
  pose proof (argsort_perm np np_ok (map Qopp scores)) as Hperm.
  rewrite length_map, Hlen in Hperm.
  destruct (Nat.leb_spec (List.length texts) 1) as [Hle | Hgt].
  - destruct texts as [| t [| t' texts]]; simpl in *; [| | lia].
    + apply Permutation_sym, Permutation_nil in Hperm. now rewrite Hperm.
    + apply Permutation_sym, Permutation_length_1_inv in Hperm.
      now rewrite Hperm.
  - apply dedup_loop_greedy; [| constructor].
    rewrite length_map. now apply Permutation_seq_bound.
Qed.

Lemma argsort_descending (scores : list Q) :
  StronglySorted (fun i j => (nth j scores 0 <= nth i scores 0)%Q)
    (np_argsort np (map Qopp scores)).
Proof.
  pose proof (ascending_sorted _ _ (argsort_sorted np np_ok (map Qopp scores)))
    as Hs.
  eapply sorted_impl; [| exact Hs]. intros i j. cbv beta.
  change 0%Q with (Qopp 0) at 1 2. rewrite !map_nth. intros H.
  apply Qopp_le_compat in H. now rewrite !Qopp_involutive in H.
Qed.

(** The kept positions are distinct positions of the input, in
    decreasing-score order. *)
Lemma jaccard_dedup_props (texts : list string) (scores : list Q)
  (threshold : Q) :
  List.length scores = List.length texts ->
  exists keep,
    _jaccard_dedup np texts scores threshold = Ok keep
    /\ NoDup keep
    /\ Forall (fun k => k < List.length texts) keep
    /\ StronglySorted (fun i j => (nth j scores 0 <= nth i scores 0)%Q) keep.
Proof.
  intros Hlen. eexists. split; [now apply jaccard_dedup_greedy |].
  pose proof (argsort_perm np np_ok (map Qopp scores)) as Hperm.
  rewrite length_map, Hlen in Hperm.
  assert (Hnd : NoDup (np_argsort np (map Qopp scores))).
  { apply (Permutation_NoDup (Permutation_sym Hperm)). apply seq_NoDup. }
  split; [| split].
  - apply fold_step_NoDup. exact Hnd.
  - apply Forall_forall. intros i Hi.
    apply fold_step_In in Hi. destruct Hi as [[] | Hi].
    apply (Permutation_in _ Hperm) in Hi. apply in_seq in Hi. lia.
  - apply fold_step_sorted. apply argsort_descending.
Qed.

(** C7.  For scores that go with the texts, [_jaccard_dedup] returns the
    list [keep] that the rule "take i if and only if its Jaccard similarity
    with every candidate already kept is strictly below the threshold" builds
    when the candidates are processed in decreasing-score order; a candidate
    is in [keep] exactly when the rule took it at its turn; [keep] has no
    repetition and holds positions of the input; no two distinct kept
    candidates have a similarity at or above the threshold; and the scores do
    not increase along [keep]. *)
Theorem jaccard_dedup_correct (texts : list string) (scores : list Q)
  (threshold : Q) :
  List.length scores = List.length texts ->
  let word_sets := map word_set texts in
  let order := np_argsort np (map Qopp scores) in
  let sim := fun i j =>
    jaccard (word_set (nth i texts "")) (word_set (nth j texts "")) in
  exists keep,
    _jaccard_dedup np texts scores threshold = Ok keep
    /\ (forall a b, a < b -> b < List.length order ->
          (nth (nth b order 0%nat) scores 0
           <= nth (nth a order 0%nat) scores 0)%Q)
    /\ keep = greedy_keep word_sets threshold order
    /\ (forall before i later,
          order = before ++ i :: later ->
          (In i keep <->
           forall j, In j (greedy_keep word_sets threshold before) ->
                     (sim i j < threshold)%Q))
    /\ NoDup keep
    /\ (forall i, In i keep -> i < List.length texts)
    /\ (forall i j, In i keep -> In j keep -> i <> j ->
                    (sim i j < threshold)%Q)
    /\ (forall a b, a < b -> b < List.length keep ->
          (nth (nth b keep 0%nat) scores 0
           <= nth (nth a keep 0%nat) scores 0)%Q).
Proof.
  intros Hlen word_sets order sim.
  exists (greedy_keep word_sets threshold order).
  pose proof (argsort_perm np np_ok (map Qopp scores)) as Hperm.
  rewrite length_map, Hlen in Hperm. fold order in Hperm.
  assert (Hnd : NoDup order).
  { apply (Permutation_NoDup (Permutation_sym Hperm)). apply seq_NoDup. }
  assert (Hsim : forall i j,
             jaccard (nth i word_sets []) (nth j word_sets []) = sim i j).
  { intros i j. unfold sim, word_sets.
    change (@nil string) with (word_set ""). now rewrite !map_nth. }
  pose proof (argsort_descending scores) as Hdesc. fold order in Hdesc.
  split; [now apply jaccard_dedup_greedy |].
  split.
  { intros a b Hab Hb.
    now apply (sorted_nth
                 (fun i j => (nth j scores 0 <= nth i scores 0)%Q) order). }
  split; [reflexivity |].
  split; [| split; [| split; [| split]]].
  - intros before i later Ho. unfold greedy_keep. rewrite Ho, fold_left_app.
    simpl. rewrite Ho in Hnd. apply NoDup_remove_2 in Hnd.
    set (kept := fold_left (greedy_step word_sets threshold) before []).
    assert (Hi : ~ In i kept).
    { intros H. apply fold_step_In in H. simpl in H.
      apply Hnd. apply in_or_app. tauto. }
    assert (Hacc : accepts word_sets threshold kept i = true <->
                   forall j, In j kept -> (sim i j < threshold)%Q).
    { unfold accepts. rewrite forallb_forall.
      split; intros H j Hj; specialize (H j Hj);
        [rewrite <- Hsim | rewrite Hsim]; now apply Qltb_lt. }
    rewrite <- Hacc. split.
    + intros H. apply fold_step_In in H. destruct H as [H | H].
      * unfold greedy_step in H.
        destruct (accepts word_sets threshold kept i); [reflexivity |].
        contradiction.
      * exfalso. apply Hnd. apply in_or_app. tauto.
    + intros H. apply fold_step_keeps. unfold greedy_step. rewrite H.
      apply in_or_app. simpl. tauto.
  - apply fold_step_NoDup. exact Hnd.
  - intros i Hi. apply fold_step_In in Hi. destruct Hi as [[] | Hi].
    apply (Permutation_in _ Hperm) in Hi. apply in_seq in Hi. lia.
  - intros i j Hi Hj Hij. rewrite <- Hsim.
    refine (fold_step_apart word_sets threshold _ order [] _ i j Hi Hj Hij).
    + apply word_sets_all_NoDup.
    + intros a b [].
  - intros a b Hab Hb.
    apply (sorted_nth
             (fun i j => (nth j scores 0 <= nth i scores 0)%Q)
             (greedy_keep word_sets threshold order)); [| exact Hab | exact Hb].
    apply fold_step_sorted. exact Hdesc.
Qed.

End JaccardDedup.

Lemma jaccard_dedup_witness :
  argsort_spec reference_numpy
  /\ List.length dedup_scores = List.length dedup_texts
  /\ exists keep,
       _jaccard_dedup reference_numpy dedup_texts dedup_scores 0.7 = Ok keep
       /\ NoDup keep.
Proof.
  split; [exact reference_numpy_ok |]. split; [reflexivity |].
  destruct (jaccard_dedup_correct reference_numpy reference_numpy_ok
              dedup_texts dedup_scores 0.7 eq_refl)
    as (keep & H1 & _ & _ & _ & H5 & _).
  exists keep. split; [exact H1 | exact H5].
Defined.

(** ** C4: the PRF gate and the drift guard *)

Section PrfFacts.

Variable np : Numpy.
Variable cfg : Config.

Lemma should_prf_gate (q : string) (scores : list Q) :
  _should_prf np q scores = true ->
  List.length (content_tokens q) <= 4
  \/ (10 <= List.length scores
      /\ (np_std np (firstn 10 scores) < 0.02)%Q).
Proof.
  unfold _should_prf.
  destruct (Nat.leb_spec (List.length (content_tokens q)) 4) as [H | H];
    [now left |].
  destruct (Nat.ltb_spec (List.length scores) 10) as [H' | H'];
    [discriminate |].
  destruct (Qltb (np_std np (firstn 10 scores)) 0.02) eqn:E;
    [| discriminate].
  intros _. right. split; [exact H' | now apply Qltb_lt].
Qed.

(** C4.  The PRF block changes the rows or queries the index only if
    [_should_prf] holds, and [_should_prf] holds only if the query has at
    most four non-stopword tokens longer than two characters or the deviation
    of the first ten initial scores is below 0.02.  When the block issues the
    expanded query (once, with limit K_SQL2) and rows come back, the query
    goes on with the expanded rows if the overlap of the two top-10 id sets,
    divided by ten, is at least 0.4, and with the original rows if it is
    below; with no expanded query issued the original rows are kept. *)
Theorem prf_gate_and_drift_guard (env : Env) (uid q : string)
  (keys : list string) (rows : list Row) (initial_docs : list Doc) :
  let scores := map doc_score initial_docs in
  let tr := fst (prf_stage np cfg env uid q keys rows initial_docs) in
  let rows' := snd (prf_stage np cfg env uid q keys rows initial_docs) in
  ((tr <> [] \/ rows' <> rows) -> _should_prf np q scores = true)
  /\ (_should_prf np q scores = true ->
      List.length (content_tokens q) <= 4
      \/ (np_std np (firstn 10 scores) < 0.02)%Q)
  /\ (forall e lim,
        In (EvFts e lim) tr ->
        tr = [EvFts e (K_SQL2 cfg)]
        /\ lim = K_SQL2 cfg
        /\ let prf_rows := fts env e uid lim in
           let overlap := prf_overlap initial_docs prf_rows in
           (prf_rows = [] -> rows' = rows)
           /\ (prf_rows <> [] ->
               ((0.4 <= overlap)%Q -> rows' = prf_rows)
               /\ ((overlap < 0.4)%Q -> rows' = rows)))
  /\ (tr = [] -> rows' = rows)
  /\ (initial_docs <> [] ->
      forall prf_rows,
        prf_overlap initial_docs prf_rows
        = (of_nat (id_overlap (map doc_id (firstn 10 initial_docs))
                              (map row_id (firstn 10 prf_rows))) / 10)%Q).
Proof.
  intros scores tr rows'.
  assert (Hshape :
            (tr = [] /\ rows' = rows)
            \/ (_should_prf np q scores = true
                /\ exists e,
                     tr = [EvFts e (K_SQL2 cfg)]
                     /\ rows'
                        = match fts env e uid (K_SQL2 cfg) with
                          | [] => rows
                          | _ =>
                              if Qle_bool 0.4
                                   (prf_overlap initial_docs
                                      (fts env e uid (K_SQL2 cfg)))
                              then fts env e uid (K_SQL2 cfg) else rows
                          end)).
  { subst tr rows'. unfold prf_stage. fold scores.
    destruct (_should_prf np q scores); [| now left].
    destruct (_extract_prf_terms cfg initial_docs (dedup keys))
      as [| term terms]; [now left |].
    destruct (_build_expanded_query keys (term :: terms)) as [e |];
      [| now left].
    destruct (String.eqb e ""); [now left |].
    right. split; [reflexivity |]. exists e. simpl. auto. }
  split; [| split; [| split; [| split]]].
  - intros Hch. destruct Hshape as [(Ht & Hr) | (Hg & _)]; [| exact Hg].
    destruct Hch; contradiction.
  - intros Hg. destruct (should_prf_gate q scores Hg) as [H | (_ & H)]; auto.
  - intros e lim Hin.
    destruct Hshape as [(Ht & _) | (_ & e' & Ht & Hr)].
    + rewrite Ht in Hin. contradiction.
    + rewrite Ht in Hin. destruct Hin as [Hin | []].
      inversion Hin; subst e' lim. split; [exact Ht |].
      split; [reflexivity |]. cbv zeta.
      destruct (fts env e uid (K_SQL2 cfg)) as [| r rs] eqn:Ef.
      * split; [intros _; exact Hr | congruence].
      * split; [discriminate |]. intros _.
        destruct (Qle_bool 0.4 (prf_overlap initial_docs (r :: rs))) eqn:Eo.
        -- split; [intros _; exact Hr |].
           intros Hlt. apply Qle_bool_iff in Eo.
           exfalso. eapply Qlt_not_le; eauto.
        -- split; [| intros _; exact Hr].
           intros Hle. apply Qle_bool_iff in Hle. congruence.
  - intros Ht. destruct Hshape as [(_ & Hr) | (_ & e & Ht' & _)];
      [exact Hr | congruence].
  - intros Hne prf_rows. unfold prf_overlap.
    destruct initial_docs; [congruence | reflexivity].
Qed.

End PrfFacts.

(** ** The candidates *)

Lemma minmax_length (xs : list Q) : List.length (_minmax xs) = List.length xs.
Proof.
  unfold _minmax. destruct xs as [| x xs]; [reflexivity |].
  destruct (Qltb _ _); apply length_map.
Qed.

Lemma sorted_map_nth (scores : list Q) (keep : list nat) :
  StronglySorted (fun i j => (nth j scores 0 <= nth i scores 0)%Q) keep ->
  StronglySorted (fun x y => (y <= x)%Q)
    (map (fun k => nth k scores 0%Q) keep).
Proof.
  induction 1 as [| k keep Hs IH Hf]; simpl; constructor; [exact IH |].
  apply Forall_forall. intros y Hy. apply in_map_iff in Hy.
  destruct Hy as (j & <- & Hj). rewrite Forall_forall in Hf. now apply Hf.
Qed.

Lemma sorted_short (xs : list Q) :
  List.length xs <= 1 -> StronglySorted (fun x y => (y <= x)%Q) xs.
Proof.
  destruct xs as [| x [| y xs]]; simpl; intros H; try lia;
    repeat constructor.
Qed.

Lemma map_nth_all {A : Type} (l : list A) (d : A) (n : nat) :
  List.length l = n -> l = map (fun k => nth k l d) (seq 0 n).
Proof.
  intros <-. rewrite map_nth_seq by lia. symmetry. apply firstn_all.
Qed.

Section CandidateFacts.

Variable np : Numpy.
Variable cfg : Config.
Hypothesis np_ok : argsort_spec np.

Lemma select_candidates_from (rows : list Row) (c : Candidates) :
  select_candidates np cfg rows = Ok c -> candidates_from cfg rows c.
Proof.
  unfold select_candidates, candidates_from.
  set (top := firstn (TOP_OAI cfg) rows).
  intros H. apply bind_ok in H. destruct H as (braw & Hbraw & H).
  exists braw.
  assert (Hlb : List.length (_minmax braw) = List.length top).
  { rewrite minmax_length. now apply mapM_length in Hbraw. }
  rewrite length_map in H.
  destruct (Nat.ltb_spec 1 (List.length top)) as [Hgt | Hle].
  - destruct (jaccard_dedup_props np np_ok (map row_text top) (_minmax braw)
                (JACCARD_THRESHOLD cfg)) as (keep & Hk & Hnd & Hb & Hs).
    { now rewrite length_map. }
    rewrite Hk in H. simpl in H. rewrite length_map in Hb.
    apply bind_ok in H. destruct H as (ids' & Hi & H).
    apply bind_ok in H. destruct H as (texts' & Ht & H).
    apply bind_ok in H. destruct H as (hashes' & Hh & H).
    apply bind_ok in H. destruct H as (bnorm' & Hn & H).
    apply (pick_ok _ _ _ 0%Z) in Hi. apply (pick_ok _ _ _ "") in Ht.
    apply (pick_ok _ _ _ "") in Hh. apply (pick_ok _ _ _ 0%Q) in Hn.
    destruct Hi as (-> & _), Ht as (-> & _), Hh as (-> & _), Hn as (-> & _).
    inversion H; subst c; simpl. exists keep.
    repeat (split; [solve [auto] |]). now apply sorted_map_nth.
  - inversion H; subst c; simpl. exists (seq 0 (List.length top)).
    split; [exact Hbraw |]. split; [apply seq_NoDup |].
    split; [apply Forall_forall; intros k Hk; apply in_seq in Hk; lia |].
    repeat (split; [apply map_nth_all; now rewrite ?length_map |]).
    apply sorted_short. lia.
Qed.

Lemma candidates_lengths (rows : list Row) (c : Candidates) :
  candidates_from cfg rows c ->
  List.length (c_texts c) = List.length (c_ids c)
  /\ List.length (c_hashes c) = List.length (c_ids c)
  /\ List.length (c_bnorm c) = List.length (c_ids c).
Proof.
  intros (braw & keep & _ & _ & _ & -> & -> & -> & -> & _).
  now rewrite !length_map.
Qed.

Lemma candidates_NoDup (rows : list Row) (c : Candidates) :
  NoDup (map row_id rows) ->
  candidates_from cfg rows c -> NoDup (c_ids c).
Proof.
  intros Hnd (braw & keep & _ & Hk & Hb & -> & _).
  apply NoDup_map_nth; [| exact Hk | now rewrite length_map].
  rewrite <- firstn_map. now apply NoDup_firstn.
Qed.

(** With every BM25 score defined, the candidates are computed. *)
Lemma select_candidates_total (rows : list Row) :
  (forall row, In row rows -> ~ (1 + row_r row == 0)%Q) ->
  exists c, select_candidates np cfg rows = Ok c.
Proof.
  intros Hdef. unfold select_candidates.
  set (top := firstn (TOP_OAI cfg) rows).
  destruct (mapM_total (fun row => bm25_score (row_r row)) top)
    as (braw & Hbraw).
  { apply Forall_forall. intros row Hrow.
    apply In_firstn in Hrow. specialize (Hdef row Hrow).
    unfold bm25_score, py_div.
    destruct (Qeq_bool (1 + row_r row) 0) eqn:E; [| eauto].
    apply Qeq_bool_iff in E. contradiction. }
  rewrite Hbraw. simpl. rewrite length_map.
  assert (Hlb : List.length (_minmax braw) = List.length top).
  { rewrite minmax_length. now apply mapM_length in Hbraw. }
  destruct (Nat.ltb_spec 1 (List.length top)) as [Hgt | Hle]; [| eauto].
  destruct (jaccard_dedup_props np np_ok (map row_text top) (_minmax braw)
              (JACCARD_THRESHOLD cfg)) as (keep & Hk & Hnd & Hb & Hs).
  { now rewrite length_map. }
  rewrite Hk. simpl. rewrite length_map in Hb.
  rewrite (pick_in_range (map row_id top) keep 0%Z)
    by now rewrite length_map.
  simpl.
  rewrite (pick_in_range (map row_text top) keep "")
    by now rewrite length_map.
  simpl.
  rewrite (pick_in_range (map row_hash top) keep "")
    by now rewrite length_map.
  simpl.
  rewrite (pick_in_range (_minmax braw) keep 0%Q) by now rewrite Hlb.
  simpl. eauto.
Qed.

End CandidateFacts.

(** ** The first stage and the BM25-only exits *)

Section RetrieveFacts.

Variable np : Numpy.
Variable cfg : Config.

Lemma prf_stage_cases (env : Env) (uid q : string) (keys : list string)
  (rows : list Row) (initial_docs : list Doc) :
  let r := prf_stage np cfg env uid q keys rows initial_docs in
  forallb is_fts (fst r) = true
  /\ (snd r = rows
      \/ exists e lim, snd r = fts env e uid lim /\ snd r <> []).
Proof.
  unfold prf_stage.
  destruct (_should_prf np q (map doc_score initial_docs)); [| simpl; auto].
  destruct (_extract_prf_terms cfg initial_docs (dedup keys))
    as [| term terms]; [simpl; auto |].
  destruct (_build_expanded_query keys (term :: terms)) as [e |];
    [| simpl; auto].
  destruct (String.eqb e ""); [simpl; auto |]. simpl.
  split; [reflexivity |].
  destruct (fts env e uid (K_SQL2 cfg)) eqn:E; [now left |].
  destruct (Qle_bool _ _); [| now left].
  right. exists e, (K_SQL2 cfg). rewrite E. split; [reflexivity | discriminate].
Qed.

(** What [retrieve] returns: only index queries in the trace, and candidates
    that come from rows the index returned. *)
Lemma retrieve_cases (env : Env) (q uid : string) :
  let r := retrieve np cfg env q uid in
  forallb is_fts (fst r) = true
  /\ match snd r with
     | Ok (Some (scores, c)) =>
         exists rows e lim,
           rows = fts env e uid lim /\ rows <> []
           /\ select_candidates np cfg rows = Ok c
     | _ => True
     end.
Proof.
  unfold retrieve.
  set (keys := _keywords q 16).
  destruct (_fts_or keys) as [e |]; [| simpl; auto].
  destruct (String.eqb e ""); [simpl; auto |].
  destruct (fts env e uid (K_SQL cfg)) as [| r0 rows0] eqn:E; [simpl; auto |].
  destruct (initial_docs_of (r0 :: rows0)) as [docs | ex]; [| simpl; auto].
  pose proof (prf_stage_cases env uid q keys (r0 :: rows0) docs) as Hp.
  cbv zeta in Hp.
  destruct (prf_stage np cfg env uid q keys (r0 :: rows0) docs)
    as [tr1 rows1].
  simpl in Hp. destruct Hp as (Htr & Hrows). simpl. split; [exact Htr |].
  destruct (select_candidates np cfg rows1) as [c | ex] eqn:Ec; simpl; [| auto].
  destruct Hrows as [-> | (e' & lim & Hr & Hne)].
  - exists (r0 :: rows0), e, (K_SQL cfg). rewrite E.
    split; [reflexivity |]. split; [discriminate | exact Ec].
  - exists rows1, e', lim. auto.
Qed.

Lemma py_index_nth_ok {A : Type} (l : list A) (k : nat) (d : A) :
  k < List.length l -> py_index l k = Ok (nth k l d).
Proof.
  intros H. destruct (py_index_lt l k H) as (a & Ha). rewrite Ha.
  apply (py_index_nth _ _ _ d) in Ha. now destruct Ha as (_ & ->).
Qed.

Lemma bm25_results_eq (stage : Stage) (uid path q : string)
  (c : Candidates) :
  List.length (c_ids c) <= List.length (c_texts c) ->
  List.length (c_ids c) <= List.length (c_bnorm c) ->
  bm25_results cfg stage uid path q (c_ids c) (c_texts c) (c_bnorm c)
  = Ok (map (bm25_record stage uid path q c)
            (seq 0 (Nat.min (K_FINAL cfg) (List.length (c_ids c))))).
Proof.
  intros Ht Hb. unfold bm25_results. apply mapM_map.
  intros j Hj. apply in_seq in Hj.
  rewrite (py_index_nth_ok (c_ids c) j 0%Z) by lia. simpl.
  rewrite (py_index_nth_ok (c_bnorm c) j 0%Q) by lia. simpl.
  rewrite (py_index_nth_ok (c_texts c) j "") by lia. simpl.
  reflexivity.
Qed.

Hypothesis np_ok : argsort_spec np.

(** With every BM25 score defined, the first stage raises nothing. *)
Lemma retrieve_total (env : Env) (q uid : string) :
  scores_defined env uid ->
  exists r, snd (retrieve np cfg env q uid) = Ok r.
Proof.
  intros Hdef. unfold retrieve.
  set (keys := _keywords q 16).
  destruct (_fts_or keys) as [e |]; [| simpl; eauto].
  destruct (String.eqb e ""); [simpl; eauto |].
  destruct (fts env e uid (K_SQL cfg)) as [| r0 rows0] eqn:E; [simpl; eauto |].
  destruct (mapM_total
              (fun row => s <- bm25_score (row_r row) ;;
                          Ok (row_id row, row_text row, s)) (r0 :: rows0))
    as (docs & Hdocs).
  { apply Forall_forall. intros row Hrow. rewrite <- E in Hrow.
    specialize (Hdef _ _ _ Hrow). unfold bm25_score, py_div.
    destruct (Qeq_bool (1 + row_r row) 0) eqn:Eq; [| simpl; eauto].
    apply Qeq_bool_iff in Eq. contradiction. }
  unfold initial_docs_of. rewrite Hdocs.
  pose proof (prf_stage_cases env uid q keys (r0 :: rows0) docs) as Hp.
  cbv zeta in Hp.
  destruct (prf_stage np cfg env uid q keys (r0 :: rows0) docs)
    as [tr1 rows1].
  simpl in Hp. destruct Hp as (_ & Hrows). simpl.
  destruct (select_candidates_total np cfg np_ok rows1) as (c & Hc).
  { intros row Hrow. destruct Hrows as [-> | (e' & lim & -> & _)].
    - rewrite <- E in Hrow. eapply Hdef; eauto.
    - eapply Hdef; eauto. }
  rewrite Hc. simpl. eauto.
Qed.

End RetrieveFacts.

(** ** C6: the numeric-only shortcut *)

Section ShortcutFacts.

Variable np : Numpy.
Variable cfg : Config.
Variable md5 : string -> string.
Hypothesis np_ok : argsort_spec np.


End ShortcutFacts.

(** ** C2: the embedding-failure exit *)

Section CacheFacts.

Variable env : Env.
Variable cm0 : Dict.

Lemma cache_fold_need (xs : list (nat * (string * string))) :
  forall cm need,
    cache_inv env cm0 cm ->
    let r := fold_left (cache_step env) xs (cm, need) in
    map (fun n => snd (fst n)) (snd r)
    = map (fun n => snd (fst n)) need
      ++ map (fun x => snd (snd x))
             (filter (fun x => in_neither env cm0 (fst (snd x))) xs).
Proof.
  induction xs as [| [i [h t]] xs IH]; intros cm need Hinv; simpl.
  - now rewrite app_nil_r.
  - destruct (Hinv h) as (Hnone & Hsome).
    destruct (dict_get h cm) as [v |] eqn:Ecm.
    + rewrite (Hsome v eq_refl). apply IH.
      intros h'. unfold dict_set. simpl.
      destruct (String.eqb_spec h' h) as [-> | Hne].
      * split; [discriminate |]. intros _ _. now apply (Hsome v).
      * apply Hinv.
    + assert (Hm : in_neither env cm0 h = match lru_get env h with
                               | Some _ => false
                               | None => true
                               end).
      { unfold in_neither. now rewrite (Hnone eq_refl). }
      destruct (lru_get env h) as [v |] eqn:Elru; rewrite Hm.
      * apply IH. intros h'. unfold dict_set. simpl.
        destruct (String.eqb_spec h' h) as [-> | Hne].
        -- split; [discriminate |]. intros _ _. exact Hm.
        -- apply Hinv.
      * simpl. rewrite IH by exact Hinv.
        rewrite map_app. simpl. now rewrite <- app_assoc.
Qed.

End CacheFacts.

Lemma map_snd_combine_seq {B : Type} (l : list B) (n s : nat) :
  List.length l <= n -> map snd (combine (seq s n) l) = l.
Proof.
  revert n s. induction l as [| x l IH]; intros [| n] s H; simpl in *;
    try lia; auto.
  f_equal. apply IH. lia.
Qed.

Lemma filter_map_snd {A B : Type} (P : B -> bool) (xs : list (A * B)) :
  map snd (filter (fun x => P (snd x)) xs) = filter P (map snd xs).
Proof.
  induction xs as [| x xs IH]; simpl; [reflexivity |].
  destruct (P (snd x)); simpl; now rewrite IH.
Qed.

(** The texts sent for embedding are those whose hash is in neither cache
    tier. *)
Lemma cache_lookup_need (env : Env) (text_hashes texts : list string) :
  map (fun n => snd (fst n)) (snd (cache_lookup env text_hashes texts))
  = map snd (filter (fun ht => in_no_cache env text_hashes (fst ht))
                    (combine text_hashes texts)).
Proof.
  unfold cache_lookup.
  rewrite (cache_fold_need env (dict_update (cache_select env text_hashes) [])).
  - simpl.
    rewrite <- (map_snd_combine_seq (combine text_hashes texts)
                  (List.length text_hashes) 0) at 2.
    + rewrite <- (filter_map_snd
                    (fun ht => in_no_cache env text_hashes (fst ht))).
      now rewrite map_map.
    + rewrite length_combine. lia.
  - intros h. split; [auto |]. intros v Hv. unfold in_neither.
    now rewrite Hv.
Qed.

Section EmbedFailFacts.

Variable np : Numpy.
Variable cfg : Config.
Variable md5 : string -> string.
Hypothesis np_ok : argsort_spec np.

Lemma bm25_record_pool (stage : Stage) (uid path q : string)
  (scores : list Q) (c : Candidates) (j : nat) :
  j < List.length (c_ids (rerank_pool np scores c)) ->
  bm25_record stage uid path q (rerank_pool np scores c) j
  = bm25_record stage uid path q c j.
Proof.
  unfold rerank_pool, bm25_record. simpl. rewrite length_firstn. intros Hj.
  rewrite !nth_firstn.
  destruct (Nat.ltb_spec j
              (Nat.min (_adaptive_budget np scores) (List.length (c_ids c))));
    [reflexivity | lia].
Qed.

(** C2.  Take a query off the shortcut whose first stage gave the candidates
    [c], and let the embedding call fail.  The search returns normally; its
    trace is the index queries of the first stage followed by that one
    embedding call, whose input is the query followed by the pool texts found
    in neither cache tier; the result is the first min(K_FINAL, |pool|)
    candidates of the rerank pool, the candidates that survived deduplication
    and the budget, each with its min-max normalized BM25 score and the tag
    S1_embed_fail.  With n candidates after deduplication |pool| is
    min(budget, n), so these are min(K_FINAL, n) results whenever the budget
    does not cut below that. *)
Theorem embedding_failure_degrades (env : Env) (q uid path : string)
  (tr : list Event) (scores : list Q) (c : Candidates) :
  retrieve np cfg env q uid = (tr, Ok (Some (scores, c))) ->
  numeric_only q = false ->
  let pool := rerank_pool np scores c in
  let embed_input := embed_input_of env q pool in
  oai_embed env embed_input = None ->
  let budget := _adaptive_budget np scores in
  let n := List.length (c_ids c) in
  exists out,
    _search_single_sentence np cfg md5 env q uid path
    = (tr ++ [EvEmbed embed_input], Ok out)
    /\ forallb is_fts tr = true
    /\ embed_input
       = q :: map snd
                (filter (fun ht => in_no_cache env (c_hashes pool) (fst ht))
                        (combine (c_hashes pool) (c_texts pool)))
    /\ (exists rows e lim,
          rows = fts env e uid lim /\ candidates_from cfg rows c)
    /\ out = map (bm25_record S1_embed_fail uid path q c)
                 (seq 0 (Nat.min (K_FINAL cfg) (Nat.min budget n)))
    /\ List.length out = Nat.min (K_FINAL cfg) (Nat.min budget n)
    /\ (Nat.min (K_FINAL cfg) n <= budget ->
        List.length out = Nat.min (K_FINAL cfg) n)
    /\ Forall (fun r => rank_stage r = S1_embed_fail) out.
Proof.
  intros Hret Hnum pool embed_input Hfail budget n.
  pose proof (retrieve_cases np cfg env q uid) as Hc. cbv zeta in Hc.
  rewrite Hret in Hc. simpl in Hc.
  destruct Hc as (Hfts & rows & e & lim & Hrows & _ & Hsel).
  pose proof (select_candidates_from np cfg np_ok rows c Hsel) as Hfrom.
  destruct (candidates_lengths cfg rows c Hfrom) as (Hlt & Hlh & Hlb).
  assert (Hpool : List.length (c_ids pool) = Nat.min budget n).
  { unfold pool, rerank_pool. simpl. rewrite length_firstn.
    fold budget n. lia. }
  set (out := map (bm25_record S1_embed_fail uid path q c)
                  (seq 0 (Nat.min (K_FINAL cfg) (Nat.min budget n)))).
  exists out.
  assert (Hlen : List.length out = Nat.min (K_FINAL cfg) (Nat.min budget n)).
  { unfold out. now rewrite length_map, length_seq. }
  split; [| split; [exact Hfts |];
           split; [| split; [| split; [| split; [| split]]]]].
  - unfold _search_single_sentence. rewrite Hret, Hnum.
    unfold rerank. fold pool. fold embed_input.
    destruct (cache_lookup env (c_hashes pool) (c_texts pool))
      as [cache_map need].
    assert (Hemb : _oai_embed env embed_input = None).
    { unfold embed_input, embed_input_of, _oai_embed. exact Hfail. }
    rewrite Hemb. f_equal.
    rewrite bm25_results_eq.
    + rewrite Hpool. unfold out. f_equal.
      apply map_ext_in. intros j Hj. apply in_seq in Hj.
      apply bm25_record_pool. fold pool. lia.
    + unfold pool, rerank_pool. simpl. rewrite !length_firstn. lia.
    + unfold pool, rerank_pool. simpl. rewrite !length_firstn. lia.
  - unfold embed_input, embed_input_of. f_equal. apply cache_lookup_need.
  - exists rows, e, lim. auto.
  - reflexivity.
  - exact Hlen.
  - intros Hb. rewrite Hlen. lia.
  - apply Forall_forall. intros x Hx. apply in_map_iff in Hx.
    now destruct Hx as (j & <- & _).
Qed.

End EmbedFailFacts.

(** ** C1: at most K_FINAL results, with distinct chunk ids *)

Section BoundFacts.

Variable np : Numpy.
Variable cfg : Config.
Variable md5 : string -> string.

Lemma scored_docs_perm (ids : list Z) (texts : list string)
  (final_scores : list Q) :
  Permutation (scored_docs_of ids texts final_scores)
              (combine (combine ids texts) final_scores).
Proof. apply sort_by_perm. Qed.

Lemma combined_ids_NoDup (ids : list Z) (texts : list string)
  (final_scores : list Q) :
  NoDup ids ->
  NoDup (map doc_id (combine (combine ids texts) final_scores)).
Proof.
  intros H.
  replace (map doc_id (combine (combine ids texts) final_scores))
    with (map fst (map fst (combine (combine ids texts) final_scores)))
    by (now rewrite map_map).
  rewrite combine_map_fst, <- firstn_map, combine_map_fst.
  now apply NoDup_firstn, NoDup_firstn.
Qed.

(** The MMR loop moves documents from [remaining] to [selected] and stops
    at [K_FINAL] selected ones. *)
Lemma mmr_loop_inv (ids : list Z) (text_hashes : list string)
  (cache_map : Dict) (qv : vec) (fuel : nat) :
  forall selected remaining final,
    mmr_loop cfg md5 fuel ids text_hashes cache_map qv selected remaining
    = Ok final ->
    List.length final <= Nat.max (List.length selected) (K_FINAL cfg)
    /\ exists rest, Permutation (final ++ rest) (selected ++ remaining).
Proof.
  induction fuel as [| fuel IH]; intros selected remaining final H;
    simpl in H.
  - inversion H; subst. split; [lia |]. now exists remaining.
  - destruct ((List.length selected <? K_FINAL cfg)
              && negb (List.length remaining =? 0)) eqn:E.
    + apply andb_true_iff in E. destruct E as (Elt & _).
      apply Nat.ltb_lt in Elt.
      apply bind_ok in H. destruct H as (best_idx & _ & H).
      apply bind_ok in H. destruct H as (d & Hd & H).
      apply IH in H. destruct H as (Hlen & rest & Hperm).
      rewrite length_app in Hlen. simpl in Hlen. split; [lia |].
      exists rest. rewrite Hperm, <- app_assoc. simpl.
      apply Permutation_app_head.
      apply remove_nth_perm. now apply py_index_ok.
    + inversion H; subst. split; [lia |]. now exists remaining.
Qed.

(** With enough fuel the loop runs to its end: it stops only at [K_FINAL]
    selected documents or with nothing left. *)
Lemma mmr_loop_complete (ids : list Z) (text_hashes : list string)
  (cache_map : Dict) (qv : vec) (fuel : nat) :
  forall selected remaining final,
    List.length remaining <= fuel ->
    List.length selected <= K_FINAL cfg ->
    mmr_loop cfg md5 fuel ids text_hashes cache_map qv selected remaining
    = Ok final ->
    List.length final
    = Nat.min (K_FINAL cfg) (List.length selected + List.length remaining).
Proof.
  induction fuel as [| fuel IH]; intros selected remaining final Hf Hs H;
    simpl in H.
  - inversion H; subst. lia.
  - destruct (Nat.ltb_spec (List.length selected) (K_FINAL cfg)) as [Hlt | Hge];
      simpl in H.
    + destruct (Nat.eqb_spec (List.length remaining) 0) as [Hz | Hnz];
        simpl in H.
      * inversion H; subst. lia.
      * apply bind_ok in H. destruct H as (best_idx & _ & H).
        apply bind_ok in H. destruct H as (d & Hd & H).
        assert (Hb : best_idx < List.length remaining).
        { apply py_index_ok in Hd. apply nth_error_Some. congruence. }
        apply IH in H.
        -- rewrite H, length_app, remove_nth_length by exact Hb.
           simpl. lia.
        -- rewrite remove_nth_length by exact Hb. lia.
        -- rewrite length_app. simpl. lia.
    + inversion H; subst. lia.
Qed.

Hypothesis K_FINAL_pos : 1 <= K_FINAL cfg.

Lemma select_final_bounded (ids : list Z) (text_hashes : list string)
  (cache_map : Dict) (qv : vec) (sims_o : list Q)
  (scored_docs final : list Doc) :
  select_final cfg md5 ids text_hashes cache_map qv sims_o scored_docs
  = Ok final ->
  List.length final <= K_FINAL cfg
  /\ exists rest, Permutation (final ++ rest) scored_docs.
Proof.
  unfold select_final, mmr_select. intros H.
  destruct (mmr_gate cfg ids sims_o scored_docs).
  - destruct scored_docs as [| top remaining]; [discriminate |].
    apply mmr_loop_inv in H. destruct H as (Hlen & Hrest).
    change (List.length [top]) with 1 in Hlen.
    split; [lia | exact Hrest].
  - inversion H; subst. split; [apply firstn_le_length |].
    exists (skipn (K_FINAL cfg) scored_docs). now rewrite firstn_skipn.
Qed.

Lemma fuse_bounded (uid path q : string) (ids : list Z)
  (texts text_hashes : list string) (cache_map : Dict) (qv : vec)
  (sims_o : list Q) (out : list Result) :
  NoDup ids ->
  fuse np cfg md5 uid path q ids texts text_hashes cache_map qv sims_o
  = Ok out ->
  List.length out <= K_FINAL cfg /\ NoDup (map chunk_id out).
Proof.
  intros Hnd H. unfold fuse in H.
  apply bind_ok in H. destruct H as (fs & _ & H).
  apply bind_ok in H. destruct H as (final & Hsel & H).
  inversion H; subst out. clear H.
  apply select_final_bounded in Hsel. destruct Hsel as (Hlen & rest & Hperm).
  unfold emit. rewrite length_map, map_map. simpl.
  split; [exact Hlen |].
  change (fun x : Doc => doc_id x) with doc_id.
  assert (Hall : NoDup (map doc_id (final ++ rest))).
  { apply (Permutation_NoDup (Permutation_sym (Permutation_map doc_id Hperm))).
    apply (Permutation_NoDup
             (Permutation_sym (Permutation_map doc_id
                                 (scored_docs_perm ids texts fs)))).
    now apply combined_ids_NoDup. }
  rewrite map_app in Hall. now apply NoDup_app_remove_r in Hall.
Qed.

Lemma bm25_results_bounded (stage : Stage) (uid path q : string)
  (ids : list Z) (texts : list string) (bnorm : list Q)
  (out : list Result) :
  NoDup ids ->
  bm25_results cfg stage uid path q ids texts bnorm = Ok out ->
  List.length out <= K_FINAL cfg /\ NoDup (map chunk_id out).
Proof.
  intros Hnd H. unfold bm25_results in H.
  pose proof (mapM_length _ _ _ H) as Hlen. rewrite length_seq in Hlen.
  split; [lia |].
  assert (Hout : map chunk_id out
                 = map (fun j => nth j ids 0%Z)
                       (seq 0 (Nat.min (K_FINAL cfg) (List.length ids)))).
  { apply mapM_ok in H. clear Hlen. revert H.
    generalize (seq 0 (Nat.min (K_FINAL cfg) (List.length ids))).
    intros js H. induction H as [| j r js rs Hj _ IH]; simpl; [reflexivity |].
    f_equal; [| exact IH].
    apply bind_ok in Hj. destruct Hj as (id & Hid & Hj).
    apply bind_ok in Hj. destruct Hj as (b & _ & Hj).
    apply bind_ok in Hj. destruct Hj as (t & _ & Hj).
    inversion Hj; subst r. simpl.
    apply (py_index_nth _ _ _ 0%Z) in Hid. now destruct Hid. }
  rewrite Hout, map_nth_seq by lia. now apply NoDup_firstn.
Qed.

Lemma rerank_bounded (env : Env) (uid path q : string) (pool : Candidates)
  (tr : list Event) (out : list Result) :
  NoDup (c_ids pool) ->
  rerank np cfg md5 env uid path q pool = (tr, Ok out) ->
  List.length out <= K_FINAL cfg /\ NoDup (map chunk_id out).
Proof.
  intros Hnd H. unfold rerank in H.
  destruct (cache_lookup env (c_hashes pool) (c_texts pool))
    as [cache_map need].
  destruct (_oai_embed env (embed_input_of env q pool)) as [V |].
  - destruct (qv <- py_index V 0 ;;
              fresh <- new_vectors V need ;; Ok (qv, fresh))
      as [[qv fresh] | e]; [| discriminate].
    inversion H as [[Htr Hout]]. now apply fuse_bounded in Hout.
  - inversion H as [[Htr Hout]]. now apply bm25_results_bounded in Hout.
Qed.

Hypothesis np_ok : argsort_spec np.

Lemma search_single_bounded (env : Env) (q uid path : string)
  (tr : list Event) (out : list Result) :
  ids_distinct env uid ->
  _search_single_sentence np cfg md5 env q uid path = (tr, Ok out) ->
  List.length out <= K_FINAL cfg /\ NoDup (map chunk_id out).
Proof.
  intros Hdist H. unfold _search_single_sentence in H.
  pose proof (retrieve_cases np cfg env q uid) as Hc. cbv zeta in Hc.
  destruct (retrieve np cfg env q uid) as [tr0 [[[scores c] |] | e]];
    simpl in Hc.
  - destruct Hc as (_ & rows & e & lim & Hrows & _ & Hsel).
    assert (Hnd : NoDup (c_ids c)).
    { apply (candidates_NoDup cfg rows c).
      - rewrite Hrows. apply Hdist.
      - now apply (select_candidates_from np cfg np_ok). }
    destruct (numeric_only q).
    + inversion H as [[Htr Hout]]. now apply bm25_results_bounded in Hout.
    + destruct (rerank np cfg md5 env uid path q (rerank_pool np scores c))
        as [tr2 r] eqn:Er.
      inversion H; subst. apply rerank_bounded in Er; [exact Er |].
      unfold rerank_pool. simpl. now apply NoDup_firstn.
  - inversion H; subst. simpl. split; [lia | constructor].
  - discriminate.
Qed.

(** C1.  With K_FINAL at least 1 and an index that keeps the chunk ids of
    one file distinct: whatever exit a query takes (no row, numeric-only
    shortcut, embedding failure, fusion with or without the MMR pass), the
    list [_search_single_sentence] returns has at most K_FINAL results and
    pairwise distinct chunk ids; and so has every list of the answer of
    [semantic_search]. *)
Theorem results_bounded_and_distinct :
  (forall env q uid path tr out,
      ids_distinct env uid ->
      _search_single_sentence np cfg md5 env q uid path = (tr, Ok out) ->
      List.length out <= K_FINAL cfg /\ NoDup (map chunk_id out))
  /\ (forall ensure_indexed env_of path sentences tr results,
        (forall sentence uid, ids_distinct (env_of sentence) uid) ->
        semantic_search np cfg md5 ensure_indexed env_of path sentences
        = (tr, Ok results) ->
        Forall (fun out => List.length out <= K_FINAL cfg
                           /\ NoDup (map chunk_id out)) results).
Proof.
  split; [intros; eapply search_single_bounded; eauto |].
  intros ensure_indexed env_of path sentences tr results Hdist H.
  unfold semantic_search in H.
  destruct sentences as [| s0 rest]; [inversion H; constructor |].
  destruct (ensure_indexed path) as [uid |]; [| inversion H; constructor].
  revert tr results H. generalize (dedup (s0 :: rest)).
  induction l as [| sentence l IH]; intros tr results H; simpl in H.
  - inversion H. constructor.
  - destruct (_search_single_sentence np cfg md5 (env_of sentence) sentence
                uid path) as [tr1 [out |]] eqn:E; [| discriminate].
    destruct (search_all np cfg md5 env_of uid path l) as [tr2 [rs |]];
      simpl in H; [| discriminate].
    inversion H; subst. constructor.
    + eapply search_single_bounded; eauto.
    + eapply IH. reflexivity.
Qed.

End BoundFacts.

(** ** C10: the emitted score is the boosted fusion score *)

Lemma in_combine3 {A B C : Type} (l1 : list A) :
  forall (l2 : list B) (l3 : list C) a b c,
    In (a, b, c) (combine (combine l1 l2) l3) ->
    exists i, nth_error l1 i = Some a /\ nth_error l2 i = Some b
              /\ nth_error l3 i = Some c.
Proof.
  induction l1 as [| x l1 IH]; intros [| y l2] [| z l3] a b c H;
    simpl in H; try contradiction.
  destruct H as [H | H].
  - inversion H; subst. now exists 0.
  - destruct (IH _ _ _ _ _ H) as (i & H1 & H2 & H3). now exists (S i).
Qed.

Section FusionFacts.

Variable np : Numpy.
Variable cfg : Config.
Variable md5 : string -> string.

Lemma select_final_perm (ids : list Z) (text_hashes : list string)
  (cache_map : Dict) (qv : vec) (sims_o : list Q)
  (scored_docs final : list Doc) :
  select_final cfg md5 ids text_hashes cache_map qv sims_o scored_docs
  = Ok final ->
  exists rest, Permutation (final ++ rest) scored_docs.
Proof.
  unfold select_final, mmr_select. intros H.
  destruct (mmr_gate cfg ids sims_o scored_docs).
  - destruct scored_docs as [| top remaining]; [discriminate |].
    apply mmr_loop_inv in H. now destruct H as (_ & Hrest).
  - inversion H; subst.
    exists (skipn (K_FINAL cfg) scored_docs). now rewrite firstn_skipn.
Qed.

(** C10.  On the fusion path every emitted record is one of the scored
    documents, unchanged: the final documents, whether the MMR pass selected
    them or they are the first K_FINAL, together with the documents left out
    are a permutation of the candidates paired with their final scores; each
    final score is the RRF score times one plus the co-mention boost; and the
    score field of a record is the final score of the candidate whose chunk
    id it carries. *)
Theorem fusion_emits_boosted_scores (uid path q : string) (ids : list Z)
  (texts text_hashes : list string) (cache_map : Dict) (qv : vec)
  (sims_o : list Q) (out : list Result) :
  fuse np cfg md5 uid path q ids texts text_hashes cache_map qv sims_o
  = Ok out ->
  exists final_scores final_docs rrf jacc phr dig,
    boosted_scores np cfg q ids texts sims_o = Ok final_scores
    /\ _compute_boost_features texts q = Ok (jacc, phr, dig)
    /\ final_scores_of rrf jacc phr dig = Ok final_scores
    /\ (forall i, i < List.length rrf ->
          nth i final_scores 0%Q
          = (nth i rrf 0 * (1 + (0.4 * nth i jacc 0 + 0.3 * nth i phr 0
                                 + 0.1 * nth i dig 0)))%Q)
    /\ select_final cfg md5 ids text_hashes cache_map qv sims_o
         (scored_docs_of ids texts final_scores) = Ok final_docs
    /\ (exists rest,
          Permutation (final_docs ++ rest)
                      (combine (combine ids texts) final_scores))
    /\ map chunk_id out = map doc_id final_docs
    /\ map score out = map doc_score final_docs
    /\ (forall r, In r out ->
          exists i, nth_error ids i = Some (chunk_id r)
                    /\ nth_error final_scores i = Some (score r)).
Proof.
  intros H. unfold fuse in H.
  apply bind_ok in H. destruct H as (fs & Hfs & H).
  apply bind_ok in H. destruct H as (final & Hsel & H).
  inversion H; subst out. clear H.
  pose proof Hfs as Hb. unfold boosted_scores in Hb.
  apply bind_ok in Hb. destruct Hb as (weighted & _ & Hb).
  apply bind_ok in Hb. destruct Hb as (rrf & _ & Hb).
  apply bind_ok in Hb. destruct Hb as ([[jacc phr] dig] & Hfeat & Hb).
  destruct (select_final_perm _ _ _ _ _ _ _ Hsel) as (rest & Hperm).
  rewrite scored_docs_perm in Hperm.
  exists fs, final, rrf, jacc, phr, dig.
  split; [exact Hfs |]. split; [exact Hfeat |]. split; [exact Hb |].
  split; [now apply final_scores_of_spec |]. split; [exact Hsel |].
  split; [now exists rest |].
  unfold emit. rewrite !map_map. simpl.
  split; [reflexivity |]. split; [reflexivity |].
  intros r Hr. apply in_map_iff in Hr. destruct Hr as ([[id t] s] & <- & Hd).
  simpl.
  assert (Hin : In (id, t, s) (combine (combine ids texts) fs)).
  { apply (Permutation_in _ Hperm). apply in_or_app. now left. }
  destruct (in_combine3 _ _ _ _ _ _ Hin) as (i & Hi & _ & Hs). now exists i.
Qed.

End FusionFacts.

(** ** The theorems at concrete inputs *)

Lemma archive_scores_defined (embed : list string -> option (list vec)) :
  scores_defined (archive_env embed) "u".
Proof.
  intros e lim row Hrow E. simpl in Hrow.
  destruct Hrow as [<- | [<- | [<- | []]]]; vm_compute in E; discriminate.
Qed.

Lemma archive_ids_distinct (embed : list string -> option (list vec))
  (uid : string) :
  ids_distinct (archive_env embed) uid.
Proof.
  intros e lim. simpl. repeat constructor; simpl; intuition discriminate.
Qed.


Lemma embedding_failure_witness :
  argsort_spec reference_numpy
  /\ retrieve reference_numpy default_config archive_down archive_query "u"
     = (down_trace, Ok (Some (down_scores, down_candidates)))
  /\ numeric_only archive_query = false
  /\ oai_embed archive_down
       (embed_input_of archive_down archive_query
          (rerank_pool reference_numpy down_scores down_candidates)) = None
  /\ exists out,
       _search_single_sentence reference_numpy default_config same_text
         archive_down archive_query "u" "p"
       = (down_trace
            ++ [EvEmbed (embed_input_of archive_down archive_query
                           (rerank_pool reference_numpy down_scores
                              down_candidates))],
          Ok out)
       /\ List.length out = 3
       /\ Forall (fun r => rank_stage r = S1_embed_fail) out.
Proof.
  assert (Hret : retrieve reference_numpy default_config archive_down
                   archive_query "u"
                 = (down_trace, Ok (Some (down_scores, down_candidates))))
    by (vm_compute; reflexivity).
  split; [exact reference_numpy_ok |]. split; [exact Hret |].
  split; [reflexivity |]. split; [reflexivity |].
  destruct (embedding_failure_degrades reference_numpy default_config
              same_text reference_numpy_ok archive_down archive_query "u" "p"
              down_trace down_scores down_candidates Hret eq_refl eq_refl)
    as (out & Hrun & _ & _ & _ & _ & Hlen & _ & Htag).
  exists out. split; [exact Hrun |]. split; [| exact Htag].
  rewrite Hlen. reflexivity.
Defined.

Lemma results_bounded_witness :
  1 <= K_FINAL two_results
  /\ argsort_spec reference_numpy
  /\ ids_distinct archive_up "u"
  /\ _search_single_sentence reference_numpy two_results same_text
       archive_up archive_query "u" "p" = (two_trace, Ok two_out)
  /\ List.length two_out <= K_FINAL two_results
  /\ NoDup (map chunk_id two_out).
Proof.
  assert (HK : 1 <= K_FINAL two_results) by (simpl; lia).
  assert (Hrun : _search_single_sentence reference_numpy two_results same_text
                   archive_up archive_query "u" "p" = (two_trace, Ok two_out))
    by (vm_compute; reflexivity).
  split; [exact HK |]. split; [exact reference_numpy_ok |].
  split; [apply archive_ids_distinct |]. split; [exact Hrun |].
  exact (proj1 (results_bounded_and_distinct reference_numpy two_results
                  same_text HK reference_numpy_ok)
               archive_up archive_query "u" "p" two_trace two_out
               (archive_ids_distinct _ _) Hrun).
Defined.

(** C1 as stated fails for [KB_K_FINAL=0]: the three candidates of the
    archive all have a positive cosine, so the MMR gate holds (3 > 0); the
    pass takes the top document before it tests the bound, and the search
    returns one result where the bound is 0. *)
Lemma one_result_for_K_FINAL_zero :
  K_FINAL zero_results = 0
  /\ argsort_spec reference_numpy
  /\ ids_distinct archive_up "u"
  /\ exists tr r,
       _search_single_sentence reference_numpy zero_results same_text
         archive_up archive_query "u" "p" = (tr, Ok [r])
       /\ chunk_id r = 3%Z
       /\ rank_stage r = S3_MMR
       /\ ~ List.length [r] <= K_FINAL zero_results.
Proof.
  split; [reflexivity |]. split; [exact reference_numpy_ok |].
  split; [apply archive_ids_distinct |].
  eexists. eexists. split; [vm_compute; reflexivity |].
  split; [reflexivity |]. split; [reflexivity |].
  simpl. lia.
Qed.

Lemma fusion_emits_witness :
  fuse reference_numpy two_results same_text "u" "p" archive_query
    fusion_ids fusion_texts fusion_texts fusion_cache fusion_qv fusion_sims
  = Ok two_out
  /\ exists final_scores final_docs,
       boosted_scores reference_numpy two_results archive_query fusion_ids
         fusion_texts fusion_sims = Ok final_scores
       /\ map score two_out = map doc_score final_docs
       /\ exists rest,
            Permutation (final_docs ++ rest)
              (combine (combine fusion_ids fusion_texts) final_scores).
Proof.
  assert (Hrun : fuse reference_numpy two_results same_text "u" "p"
                   archive_query fusion_ids fusion_texts fusion_texts
                   fusion_cache fusion_qv fusion_sims = Ok two_out)
    by (vm_compute; reflexivity).
  split; [exact Hrun |].
  destruct (fusion_emits_boosted_scores reference_numpy two_results same_text
              "u" "p" archive_query fusion_ids fusion_texts fusion_texts
              fusion_cache fusion_qv fusion_sims two_out Hrun)
    as (fs & docs & rrf & jacc & phr & dig
        & Hfs & _ & _ & _ & _ & Hperm & _ & Hsc & _).
  exists fs, docs. split; [exact Hfs |]. split; [exact Hsc | exact Hperm].
Defined.

(** ** C3: the MMR tag without the MMR pass *)

(** C3, on a failing input.  With the default K_FINAL = 20 the three
    candidates of [archive_query] are too few for the MMR pass, whose gate
    asks for more than K_FINAL scored documents; every emitted record is
    tagged S3_MMR all the same. *)
Lemma mmr_tag_without_mmr_pass :
  (forall ids sims_o scored_docs,
      List.length scored_docs <= K_FINAL default_config ->
      mmr_gate default_config ids sims_o scored_docs = false)
  /\ exists tr out,
       _search_single_sentence reference_numpy default_config same_text
         archive_up archive_query "u" "p" = (tr, Ok out)
       /\ List.length out = 3
       /\ List.length out <= K_FINAL default_config
       /\ Forall (fun r => rank_stage r = S3_MMR) out.
Proof.
  split.
  - intros ids sims_o scored_docs H. unfold mmr_gate.
    destruct (Nat.ltb_spec (K_FINAL default_config) (List.length scored_docs));
      [lia | reflexivity].
  - eexists _, _. split; [vm_compute; reflexivity |].
    split; [reflexivity |]. split; [simpl; lia |].
    repeat constructor.
Qed.

(** * Further properties of the code *)

(** ** The tokenizer *)

Lemma rev_string_all (cls : ascii -> bool) (s acc : string) :
  all_chars cls (rev_string acc s) = all_chars cls s && all_chars cls acc.
Proof.
  revert acc. induction s as [| c s IH]; intros acc; simpl; [reflexivity |].
  rewrite IH. simpl. destruct (cls c), (all_chars cls s); reflexivity.
Qed.

Lemma rev_string_nonempty (s acc : string) :
  acc <> "" -> rev_string acc s <> "".
Proof.
  revert acc. induction s as [| c s IH]; intros acc H; simpl; [exact H |].
  apply IH. intros E. discriminate E.
Qed.

Lemma runs_aux_shape (cls : ascii -> bool) (s : string) :
  forall cur,
    all_chars cls cur = true ->
    Forall (fun t => t <> "" /\ all_chars cls t = true) (runs_aux cls cur s).
Proof.
  induction s as [| c s IH]; intros cur Hcur; simpl.
  - destruct cur as [| d cur]; [constructor |].
    constructor; [| constructor]. split.
    + simpl. apply rev_string_nonempty. intros E. discriminate E.
    + rewrite rev_string_all. simpl in *. now rewrite Hcur.
  - destruct (cls c) eqn:Ec.
    + apply IH. simpl. now rewrite Ec.
    + destruct cur as [| d cur]; [now apply IH |].
      constructor; [| now apply IH].
      split.
      * simpl. apply rev_string_nonempty. intros E. discriminate E.
      * rewrite rev_string_all. simpl in *. now rewrite Hcur.
Qed.

Lemma lower_char_idem (c : ascii) : lower_char (lower_char c) = lower_char c.
Proof.
  destruct c as [[] [] [] [] [] [] [] []]; reflexivity.
Qed.

Lemma lower_idem (s : string) : lower (lower s) = lower s.
Proof.
  induction s as [| c s IH]; simpl; [reflexivity |].
  now rewrite lower_char_idem, IH.
Qed.

Lemma tok_shape (s : string) :
  Forall (fun t => t <> "" /\ all_chars is_alnum t = true) (tok s).
Proof. apply runs_aux_shape. reflexivity. Qed.

(** X1.  Every token is a non-empty string of the characters a-z and 0-9,
    and tokenizing does not see the case of the input. *)
Theorem tok_tokens_lowercase_alnum (s : string) :
  Forall (fun t => t <> "" /\ all_chars is_alnum t = true) (tok s)
  /\ tok (lower s) = tok s.
Proof.
  split.
  - apply tok_shape.
  - unfold tok. now rewrite lower_idem.
Qed.

Lemma is_alnum_lower_char (c : ascii) :
  is_alnum c = true -> lower_char c = c.
Proof.
  destruct c as [[] [] [] [] [] [] [] []]; try reflexivity; discriminate.
Qed.

Lemma lower_fixed (t : string) :
  all_chars unchanged_by_lower t = true -> lower t = t.
Proof.
  induction t as [| c t IH]; simpl; [reflexivity |].
  intros H. apply andb_true_iff in H. destruct H as (Hc & Ht).
  apply Ascii.eqb_eq in Hc. now rewrite Hc, IH.
Qed.

Lemma all_chars_app (cls : ascii -> bool) (a b : string) :
  all_chars cls (a ++ b)%string = all_chars cls a && all_chars cls b.
Proof.
  induction a as [| c a IH]; simpl; [reflexivity |].
  rewrite IH. now rewrite andb_assoc.
Qed.

Lemma all_chars_impl (cls cls' : ascii -> bool) (t : string) :
  (forall c, cls c = true -> cls' c = true) ->
  all_chars cls t = true -> all_chars cls' t = true.
Proof.
  intros Himp. induction t as [| c t IH]; simpl; [reflexivity |].
  intros H. apply andb_true_iff in H. destruct H as (Hc & Ht).
  now rewrite (Himp c Hc), IH.
Qed.

(** Reading a run [t] of the class on top of the run [cur] being read. *)
Lemma runs_aux_app (cls : ascii -> bool) (t : string) :
  forall cur rest,
    all_chars cls t = true ->
    runs_aux cls cur (t ++ rest)%string
    = runs_aux cls (rev_string cur t) rest.
Proof.
  induction t as [| c t IH]; intros cur rest H; simpl; [reflexivity |].
  simpl in H. apply andb_true_iff in H. destruct H as (Hc & Ht).
  rewrite Hc. now apply IH.
Qed.

Lemma rev_string_app (s acc : string) :
  rev_string acc s = (rev_string "" s ++ acc)%string.
Proof.
  revert acc. induction s as [| c s IH]; intros acc; simpl; [reflexivity |].
  rewrite (IH (String c acc)), (IH (String c "")).
  clear IH. induction (rev_string "" s) as [| d r IHr]; simpl;
    [reflexivity | now rewrite IHr].
Qed.

Lemma rev_string_involutive (s : string) :
  rev_string "" (rev_string "" s) = s.
Proof.
  assert (H : forall s acc,
             rev_string "" (rev_string acc s) = rev_string s acc).
  { clear s. induction s as [| c s IH]; intros acc; simpl; [reflexivity |].
    now rewrite IH. }
  rewrite H. reflexivity.
Qed.

Lemma append_empty_r (t : string) : (t ++ "")%string = t.
Proof.
  induction t as [| c t IH]; simpl; [reflexivity | now rewrite IH].
Qed.

Lemma rev_string_empty (t : string) : rev_string "" t = "" -> t = "".
Proof.
  intros E. rewrite <- (rev_string_involutive t), E. reflexivity.
Qed.

Lemma runs_aux_last (cls : ascii -> bool) (t : string) :
  t <> "" -> all_chars cls t = true -> runs_aux cls "" t = [t].
Proof.
  intros Hne Hal.
  rewrite <- (append_empty_r t) at 1.
  rewrite runs_aux_app by exact Hal. simpl.
  destruct (rev_string "" t) as [| d r] eqn:E.
  - apply rev_string_empty in E. contradiction.
  - rewrite <- E, rev_string_involutive. reflexivity.
Qed.

Lemma runs_aux_then_space (t rest : string) :
  t <> "" -> all_chars is_alnum t = true ->
  runs_aux is_alnum "" (t ++ String " " rest)
  = t :: runs_aux is_alnum "" rest.
Proof.
  intros Hne Hal. rewrite runs_aux_app by exact Hal. simpl.
  destruct (rev_string "" t) as [| d r] eqn:E.
  - apply rev_string_empty in E. contradiction.
  - rewrite <- E, rev_string_involutive. reflexivity.
Qed.

Lemma runs_join (ts : list string) :
  Forall (fun t => t <> "" /\ all_chars is_alnum t = true) ts ->
  runs is_alnum (join " " ts) = ts.
Proof.
  unfold runs, join.
  induction 1 as [| t ts (Hne & Hal) Hts IH]; [reflexivity |].
  destruct ts as [| t' ts].
  - simpl. now apply runs_aux_last.
  - change (concat " " (t :: t' :: ts))
      with (t ++ String " " (concat " " (t' :: ts)))%string.
    rewrite runs_aux_then_space by assumption. f_equal. exact IH.
Qed.

Lemma join_unchanged_by_lower (ts : list string) :
  Forall (fun t => t <> "" /\ all_chars is_alnum t = true) ts ->
  all_chars unchanged_by_lower (join " " ts) = true.
Proof.
  unfold join.
  induction 1 as [| t ts (_ & Hal) _ IH]; [reflexivity |].
  assert (Ht : all_chars unchanged_by_lower t = true).
  { apply (all_chars_impl is_alnum); [| exact Hal].
    intros c Hc. unfold unchanged_by_lower.
    rewrite is_alnum_lower_char by exact Hc. apply Ascii.eqb_refl. }
  destruct ts as [| t' ts]; [exact Ht |].
  change (concat " " (t :: t' :: ts))
    with (t ++ String " " (concat " " (t' :: ts)))%string.
  rewrite all_chars_app, Ht. simpl. exact IH.
Qed.

(** X2.  Tokens survive being joined by spaces and tokenized again: the
    joined form that the boost features search in has the tokens of the
    text, in their order. *)
Theorem tok_join_round_trip (s : string) :
  tok (join " " (tok s)) = tok s.
Proof.
  pose proof (tok_shape s) as Hshape.
  unfold tok at 1.
  rewrite lower_fixed by now apply join_unchanged_by_lower.
  now apply runs_join.
Qed.

(** ** Min-max normalization *)

Lemma fold_qmin_In (xs : list Q) (a : Q) :
  fold_left qmin xs a = a \/ In (fold_left qmin xs a) xs.
Proof.
  revert a. induction xs as [| y xs IH]; intros a; simpl; [now left |].
  destruct (IH (qmin a y)) as [H | H]; [| auto].
  rewrite H. unfold qmin. destruct (Qle_bool a y); auto.
Qed.

Lemma fold_qmax_In (xs : list Q) (a : Q) :
  fold_left qmax xs a = a \/ In (fold_left qmax xs a) xs.
Proof.
  revert a. induction xs as [| y xs IH]; intros a; simpl; [now left |].
  destruct (IH (qmax a y)) as [H | H]; [| auto].
  rewrite H. unfold qmax. destruct (Qle_bool a y); auto.
Qed.

Lemma np_min_In (xs : list Q) : xs <> [] -> In (np_min xs) xs.
Proof.
  destruct xs as [| a xs]; [congruence | intros _]. simpl.
  destruct (fold_qmin_In xs a) as [-> | H]; auto.
Qed.

Lemma np_max_In (xs : list Q) : xs <> [] -> In (np_max xs) xs.
Proof.
  destruct xs as [| a xs]; [congruence | intros _]. simpl.
  destruct (fold_qmax_In xs a) as [-> | H]; auto.
Qed.

Lemma minmax_nth (xs : list Q) (i : nat) :
  i < List.length xs ->
  nth i (_minmax xs) 0%Q
  = if Qltb (np_max xs - np_min xs) 1e-9 then 0.5%Q
    else ((nth i xs 0 - np_min xs) / (np_max xs - np_min xs))%Q.
Proof.
  intros Hi. unfold _minmax. destruct xs as [| a xs]; [simpl in Hi; lia |].
  set (l := a :: xs) in *.
  destruct (Qltb (np_max l - np_min l) 1e-9).
  - rewrite nth_indep with (d' := (fun _ : Q => 0.5%Q) 0%Q)
      by now rewrite length_map.
    exact (map_nth (fun _ : Q => 0.5%Q) l 0%Q i).
  - rewrite nth_indep
      with (d' := (fun x => ((x - np_min l) / (np_max l - np_min l))%Q) 0%Q)
      by now rewrite length_map.
    exact (map_nth (fun x => ((x - np_min l) / (np_max l - np_min l))%Q)
             l 0%Q i).
Qed.

(** X3.  [_minmax] on finite inputs whose range does not overflow, that is
    with [max - min] at most [float_max]: the length is kept and every value
    lands in [0, 1]; when [hi - lo < 1e-9] every value is 0.5; otherwise
    value i is (x[i] - lo) / (hi - lo), a least input goes to 0 and a
    greatest one to 1. *)
Theorem minmax_range (xs : list Q) :
  (np_max xs - np_min xs <= float_max)%Q ->
  let ys := _minmax xs in
  let lo := np_min xs in
  let hi := np_max xs in
  List.length ys = List.length xs
  /\ (forall i, i < List.length xs ->
        (0 <= nth i ys 0)%Q /\ (nth i ys 0 <= 1)%Q)
  /\ ((hi - lo < 1e-9)%Q ->
      forall i, i < List.length xs -> nth i ys 0%Q = 0.5%Q)
  /\ ((1e-9 <= hi - lo)%Q ->
      (forall i, i < List.length xs ->
         (nth i ys 0 == (nth i xs 0 - lo) / (hi - lo))%Q)
      /\ (exists i, i < List.length xs
                    /\ nth i xs 0%Q = lo /\ (nth i ys 0 == 0)%Q)
      /\ (exists j, j < List.length xs
                    /\ nth j xs 0%Q = hi /\ (nth j ys 0 == 1)%Q)).
Proof.
  intros _ ys lo hi.
  split; [apply minmax_length |]. split; [| split].
  - intros i Hi. unfold ys. rewrite minmax_nth by exact Hi. fold lo hi.
    assert (Hx : In (nth i xs 0%Q) xs) by now apply nth_In.
    pose proof (np_min_le xs _ Hx) as Hlo. pose proof (np_max_ge xs _ Hx) as Hhi.
    fold lo in Hlo. fold hi in Hhi.
    destruct (Qltb (hi - lo) 1e-9) eqn:E.
    + split; lra.
    + apply Qltb_ge in E. revert E Hlo Hhi.
      generalize (nth i xs 0%Q). clearbody lo hi. clear. intros x E Hlo Hhi.
      change (1e-9)%Q with (1 # 1000000000)%Q in E.
      assert (Hden : (0 < hi - lo)%Q) by lra.
      split.
      * apply Qle_shift_div_l; [exact Hden | lra].
      * apply Qle_shift_div_r; [exact Hden | lra].
  - intros Hflat i Hi. unfold ys. rewrite minmax_nth by exact Hi.
    fold lo hi. apply Qltb_lt in Hflat. now rewrite Hflat.
  - intros Hwide.
    assert (E : Qltb (hi - lo) 1e-9 = false) by now apply Qltb_ge.
    assert (Hne : xs <> []).
    { intros ->. unfold hi, lo in Hwide. simpl in Hwide.
      revert Hwide. apply Qlt_not_le. reflexivity. }
    assert (Hden : ~ (hi - lo == 0)%Q).
    { change (1e-9)%Q with (1 # 1000000000)%Q in Hwide.
      clearbody lo hi. clear - Hwide. intros H. lra. }
    split; [| split].
    + intros i Hi. unfold ys. rewrite minmax_nth by exact Hi.
      fold lo hi. rewrite E. reflexivity.
    + destruct (In_nth xs lo 0%Q (np_min_In xs Hne)) as (i & Hi & Hx).
      exists i. split; [exact Hi |]. split; [exact Hx |].
      unfold ys. rewrite minmax_nth by exact Hi. fold lo hi.
      rewrite E, Hx. unfold Qdiv.
      setoid_replace (lo - lo)%Q with 0%Q by ring. apply Qmult_0_l.
    + destruct (In_nth xs hi 0%Q (np_max_In xs Hne)) as (j & Hj & Hx).
      exists j. split; [exact Hj |]. split; [exact Hx |].
      unfold ys. rewrite minmax_nth by exact Hj. fold lo hi.
      rewrite E, Hx. unfold Qdiv. apply Qmult_inv_r. exact Hden.
Qed.

(** X4.  [_minmax] never inverts an order, on finite inputs whose range
    does not overflow: a value that is not above another one is not above it
    afterwards, and equal values stay equal.  Two distinct values may get one
    image, so nothing is said of a strict order. *)
Theorem minmax_monotone (xs : list Q) (i j : nat) :
  (np_max xs - np_min xs <= float_max)%Q ->
  i < List.length xs -> j < List.length xs ->
  ((nth i xs 0 <= nth j xs 0)%Q ->
   (nth i (_minmax xs) 0 <= nth j (_minmax xs) 0)%Q)
  /\ ((nth i xs 0 == nth j xs 0)%Q ->
      (nth i (_minmax xs) 0 == nth j (_minmax xs) 0)%Q).
Proof.
  intros _ Hi Hj. rewrite !minmax_nth by assumption.
  set (lo := np_min xs). set (hi := np_max xs).
  destruct (Qltb (hi - lo) 1e-9) eqn:E.
  - split; intros _; [apply Qle_refl | reflexivity].
  - apply Qltb_ge in E. change (1e-9)%Q with (1 # 1000000000)%Q in E.
    assert (Hden : (0 < hi - lo)%Q) by (clearbody lo hi; lra).
    unfold Qdiv. split.
    + intros Hle. apply Qmult_le_compat_r.
      * clearbody lo hi. lra.
      * apply Qinv_le_0_compat. now apply Qlt_le_weak.
    + intros Heq. now rewrite Heq.
Qed.

Lemma minmax_range_witness :
  (np_max raw_scores - np_min raw_scores <= float_max)%Q
  /\ List.length (_minmax raw_scores) = List.length raw_scores
  /\ forall i, i < List.length raw_scores ->
       (0 <= nth i (_minmax raw_scores) 0)%Q
       /\ (nth i (_minmax raw_scores) 0 <= 1)%Q.
Proof.
  assert (H : (np_max raw_scores - np_min raw_scores <= float_max)%Q)
    by (apply Qle_bool_imp_le; vm_compute; reflexivity).
  split; [exact H |].
  pose proof (minmax_range raw_scores H) as P. cbv zeta in P.
  destruct P as (Hlen & Hrange & _).
  split; [exact Hlen | exact Hrange].
Defined.

Lemma minmax_monotone_witness :
  (np_max raw_scores - np_min raw_scores <= float_max)%Q
  /\ 1 < List.length raw_scores
  /\ 0 < List.length raw_scores
  /\ ((nth 1 raw_scores 0 <= nth 0 raw_scores 0)%Q ->
      (nth 1 (_minmax raw_scores) 0 <= nth 0 (_minmax raw_scores) 0)%Q).
Proof.
  assert (H : (np_max raw_scores - np_min raw_scores <= float_max)%Q)
    by (apply Qle_bool_imp_le; vm_compute; reflexivity).
  assert (H1 : 1 < List.length raw_scores) by (simpl; lia).
  assert (H0 : 0 < List.length raw_scores) by (simpl; lia).
  split; [exact H |]. split; [exact H1 |]. split; [exact H0 |].
  exact (proj1 (minmax_monotone raw_scores 1 0 H H1 H0)).
Defined.

(** ** The class [LRU] *)

Lemma od_get_None (k : string) (od : OrderedDict) :
  od_get k od = None <-> ~ In k (od_keys od).
Proof.
  induction od as [| [k' x] od IH]; simpl; [tauto |].
  destruct (String.eqb_spec k k') as [-> | Hne].
  - split; [discriminate | intros H; exfalso; apply H; now left].
  - rewrite IH. split; [intros H [E | Hin]; [congruence | tauto] | tauto].
Qed.

Lemma od_get_In (k : string) (x : vec * Q) (od : OrderedDict) :
  od_get k od = Some x -> In (k, x) od.
Proof.
  induction od as [| [k' x'] od IH]; simpl; [discriminate |].
  destruct (String.eqb_spec k k') as [-> | Hne].
  - intros H. inversion H. now left.
  - intros H. right. now apply IH.
Qed.

Lemma od_get_app (k : string) (a b : OrderedDict) :
  od_get k (a ++ b)
  = match od_get k a with
    | Some x => Some x
    | None => od_get k b
    end.
Proof.
  induction a as [| [k' x] a IH]; simpl; [reflexivity |].
  destruct (String.eqb k k'); [reflexivity | exact IH].
Qed.

Lemma od_get_pop_same (k : string) (od : OrderedDict) :
  od_get k (od_pop k od) = None.
Proof.
  induction od as [| [k' x] od IH]; simpl; [reflexivity |].
  destruct (String.eqb k k') eqn:E; simpl; [exact IH |].
  now rewrite E.
Qed.

Lemma od_get_pop_other (k k' : string) (od : OrderedDict) :
  k' <> k -> od_get k' (od_pop k od) = od_get k' od.
Proof.
  intros Hne. induction od as [| [k0 x] od IH]; simpl; [reflexivity |].
  destruct (String.eqb_spec k k0) as [<- | Hk]; simpl.
  - destruct (String.eqb_spec k' k); [contradiction | exact IH].
  - destruct (String.eqb k' k0); [reflexivity | exact IH].
Qed.

Lemma od_get_set_same (k : string) (x : vec * Q) (od : OrderedDict) :
  od_get k (od_set k x od) = Some x.
Proof.
  induction od as [| [k' x'] od IH]; simpl.
  - now rewrite String.eqb_refl.
  - destruct (String.eqb k k') eqn:E; simpl; rewrite E; [reflexivity | exact IH].
Qed.

Lemma od_get_set_other (k k' : string) (x : vec * Q) (od : OrderedDict) :
  k' <> k -> od_get k' (od_set k x od) = od_get k' od.
Proof.
  intros Hne. induction od as [| [k0 x0] od IH]; simpl.
  - destruct (String.eqb_spec k' k); [contradiction | reflexivity].
  - destruct (String.eqb_spec k k0) as [<- | Hk]; simpl.
    + destruct (String.eqb_spec k' k); [contradiction | reflexivity].
    + destruct (String.eqb k' k0); [reflexivity | exact IH].
Qed.

Lemma od_keys_pop (k : string) (od : OrderedDict) :
  od_keys (od_pop k od)
  = filter (fun k' => negb (String.eqb k k')) (od_keys od).
Proof.
  unfold od_keys, od_pop.
  induction od as [| [k' x] od IH]; simpl; [reflexivity |].
  destruct (String.eqb k k'); simpl; now rewrite IH.
Qed.

Lemma od_pop_length (k : string) (od : OrderedDict) :
  List.length (od_pop k od) <= List.length od.
Proof. apply filter_length_le. Qed.

Lemma od_pop_present_length (k : string) (x : vec * Q) (od : OrderedDict) :
  od_get k od = Some x -> List.length (od_pop k od) < List.length od.
Proof.
  induction od as [| [k' x'] od IH]; simpl; [discriminate |].
  destruct (String.eqb k k') eqn:E; simpl.
  - intros _. pose proof (od_pop_length k od). unfold od_pop in *. lia.
  - intros H. apply IH in H. unfold od_pop in *. lia.
Qed.

Lemma od_pop_NoDup (k : string) (od : OrderedDict) :
  NoDup (od_keys od) -> NoDup (od_keys (od_pop k od)).
Proof.
  intros H. rewrite od_keys_pop. now apply NoDup_filter.
Qed.

Lemma od_pop_absent (k : string) (od : OrderedDict) :
  od_get k od = None -> od_pop k od = od.
Proof.
  induction od as [| [k' x] od IH]; simpl; [reflexivity |].
  destruct (String.eqb k k') eqn:E; [discriminate |].
  intros H. simpl. f_equal. now apply IH.
Qed.

Lemma od_set_absent (k : string) (x : vec * Q) (od : OrderedDict) :
  od_get k od = None -> od_set k x od = od ++ [(k, x)].
Proof.
  induction od as [| [k' x'] od IH]; simpl; [reflexivity |].
  destruct (String.eqb k k') eqn:E; [discriminate |].
  intros H. f_equal. now apply IH.
Qed.

Lemma od_set_keys_present (k : string) (x y : vec * Q) (od : OrderedDict) :
  od_get k od = Some y -> od_keys (od_set k x od) = od_keys od.
Proof.
  induction od as [| [k' x'] od IH]; simpl; [discriminate |].
  destruct (String.eqb k k') eqn:E; [reflexivity |].
  intros H. simpl. f_equal. now apply IH.
Qed.

Lemma NoDup_snoc {A : Type} (l : list A) (x : A) :
  NoDup l -> ~ In x l -> NoDup (l ++ [x]).
Proof.
  intros Hl Hx.
  apply (Permutation_NoDup (l := x :: l)); [| now constructor].
  apply Permutation_cons_append.
Qed.

Lemma od_set_NoDup (k : string) (x : vec * Q) (od : OrderedDict) :
  NoDup (od_keys od) -> NoDup (od_keys (od_set k x od)).
Proof.
  intros H. destruct (od_get k od) as [y |] eqn:E.
  - now rewrite (od_set_keys_present k x y od E).
  - rewrite (od_set_absent k x od E). unfold od_keys. rewrite map_app.
    simpl. apply NoDup_snoc; [exact H | now apply od_get_None].
Qed.

Lemma od_set_length (k : string) (x : vec * Q) (od : OrderedDict) :
  List.length (od_set k x od) <= S (List.length od).
Proof.
  induction od as [| [k' x'] od IH]; simpl; [lia |].
  destruct (String.eqb k k'); simpl; lia.
Qed.

Lemma od_move_to_end_length (k : string) (od : OrderedDict) :
  List.length (od_move_to_end k od) <= List.length od.
Proof.
  unfold od_move_to_end. destruct (od_get k od) as [x |] eqn:E; [| lia].
  rewrite length_app. simpl.
  pose proof (od_pop_present_length k x od E). lia.
Qed.

Lemma od_move_to_end_NoDup (k : string) (od : OrderedDict) :
  NoDup (od_keys od) -> NoDup (od_keys (od_move_to_end k od)).
Proof.
  intros H. unfold od_move_to_end.
  destruct (od_get k od) as [x |]; [| exact H].
  unfold od_keys. rewrite map_app. simpl. apply NoDup_snoc.
  - now apply od_pop_NoDup.
  - apply od_get_None. apply od_get_pop_same.
Qed.

Lemma od_move_to_end_get (k k' : string) (od : OrderedDict) :
  od_get k' (od_move_to_end k od) = od_get k' od.
Proof.
  unfold od_move_to_end. destruct (od_get k od) as [x |] eqn:E;
    [| reflexivity].
  rewrite od_get_app. simpl.
  destruct (String.eqb_spec k' k) as [-> | Hne].
  - now rewrite od_get_pop_same, E.
  - rewrite od_get_pop_other by exact Hne.
    now destruct (od_get k' od).
Qed.

Lemma LRU_get_ok (now : Q) (k : string) (c : LRU) :
  LRU_ok c -> LRU_ok (snd (LRU_get now k c)).
Proof.
  intros (Hlen & Hnd). unfold LRU_get.
  destruct (od_get k (d c)) as [[v ts] |]; [| now split].
  destruct (Qltb (ttl c) (now - ts)); split; simpl.
  - pose proof (od_pop_length k (d c)). lia.
  - now apply od_pop_NoDup.
  - pose proof (od_move_to_end_length k (d c)). lia.
  - now apply od_move_to_end_NoDup.
Qed.

Lemma NoDup_tl {A : Type} (l : list A) : NoDup l -> NoDup (tl l).
Proof.
  destruct l; simpl; [auto |]. intros H. now inversion H.
Qed.

Lemma LRU_put_ok (now : Q) (k : string) (v : vec) (c : LRU) :
  LRU_ok c -> LRU_ok (LRU_put now k v c).
Proof.
  intros (Hlen & Hnd). unfold LRU_put, LRU_ok. simpl.
  set (d2 := od_move_to_end k (od_set k (v, now) (d c))).
  assert (Hl2 : List.length d2 <= S (List.length (d c))).
  { unfold d2.
    pose proof (od_move_to_end_length k (od_set k (v, now) (d c))).
    pose proof (od_set_length k (v, now) (d c)). lia. }
  assert (Hn2 : NoDup (od_keys d2)).
  { unfold d2. now apply od_move_to_end_NoDup, od_set_NoDup. }
  destruct (Nat.ltb_spec (cap c) (List.length d2)) as [Hgt | Hle].
  - unfold od_popitem_first. split.
    + destruct d2; simpl in *; lia.
    + destruct d2 as [| e d2']; [constructor |]. simpl in *.
      now inversion Hn2.
  - now split.
Qed.

(** X5.  Whatever calls are made on a new [LRU(cap, ttl)], it never holds
    more than [cap] entries, no key is held twice, and its capacity and
    lifetime stay as given. *)
Theorem LRU_never_exceeds_capacity (cap0 : nat) (ttl0 : Q)
  (calls : list LRUCall) :
  let c := LRU_after cap0 ttl0 calls in
  List.length (d c) <= cap0
  /\ NoDup (od_keys (d c))
  /\ cap c = cap0 /\ ttl c = ttl0.
Proof.
  unfold LRU_after.
  assert (H : forall c,
             LRU_ok c ->
             let c' := fold_left LRU_call calls c in
             LRU_ok c' /\ cap c' = cap c /\ ttl c' = ttl c).
  { induction calls as [| call calls IH]; intros c Hok; simpl; [auto |].
    assert (Hstep : LRU_ok (LRU_call c call)
                    /\ cap (LRU_call c call) = cap c
                    /\ ttl (LRU_call c call) = ttl c).
    { destruct call as [now k | now k v]; simpl.
      - split; [now apply LRU_get_ok |]. unfold LRU_get.
        destruct (od_get k (d c)) as [[v ts] |]; [| auto].
        destruct (Qltb (ttl c) (now - ts)); auto.
      - split; [now apply LRU_put_ok | auto]. }
    destruct Hstep as (Hok' & Hc & Ht).
    destruct (IH _ Hok') as (H1 & H2 & H3). cbv zeta.
    split; [exact H1 |]. split; congruence. }
  destruct (H (LRU_init cap0 ttl0)) as ((Hlen & Hnd) & Hc & Ht).
  - split; simpl; [lia | constructor].
  - cbv zeta. simpl in Hc, Ht. rewrite Hc in Hlen. auto.
Qed.

Lemma LRU_put_d (now : Q) (k : string) (v : vec) (c : LRU) :
  d (LRU_put now k v c)
  = let d2 := od_pop k (od_set k (v, now) (d c)) ++ [(k, (v, now))] in
    if cap c <? List.length d2 then tl d2 else d2.
Proof.
  unfold LRU_put, od_move_to_end. simpl.
  now rewrite od_get_set_same.
Qed.

Lemma od_get_tl_last (k : string) (x : vec * Q) (od : OrderedDict) :
  od_get k od = None -> od <> [] -> od_get k (tl (od ++ [(k, x)])) = Some x.
Proof.
  destruct od as [| [k' x'] od]; [congruence |]. simpl.
  destruct (String.eqb k k') eqn:E; [discriminate |].
  intros H _. rewrite od_get_app, H. simpl. now rewrite String.eqb_refl.
Qed.

Lemma LRU_put_holds (now : Q) (k : string) (v : vec) (c : LRU) :
  1 <= cap c -> od_get k (d (LRU_put now k v c)) = Some (v, now).
Proof.
  intros Hcap. rewrite LRU_put_d. cbv zeta.
  set (rest := od_pop k (od_set k (v, now) (d c))).
  assert (Hrest : od_get k rest = None) by apply od_get_pop_same.
  destruct (Nat.ltb_spec (cap c) (List.length (rest ++ [(k, (v, now))])))
    as [Hgt | Hle].
  - apply od_get_tl_last; [exact Hrest |].
    intros ->. simpl in Hgt. lia.
  - rewrite od_get_app, Hrest. simpl. now rewrite String.eqb_refl.
Qed.

(** X6.  In a cache of capacity at least 1, a value that was put is what
    [get] returns for its key until its lifetime is over, and [get] returns
    nothing once more than [ttl] has passed since the put. *)
Theorem LRU_put_then_get (now now' : Q) (k : string) (v : vec) (c : LRU) :
  1 <= cap c ->
  fst (LRU_get now' k (LRU_put now k v c))
  = if Qltb (ttl c) (now' - now) then None else Some v.
Proof.
  intros Hcap. unfold LRU_get. rewrite LRU_put_holds by exact Hcap.
  change (ttl (LRU_put now k v c)) with (ttl c).
  now destruct (Qltb (ttl c) (now' - now)).
Qed.

Lemma LRU_put_then_get_witness :
  1 <= cap (LRU_init 512 900)
  /\ fst (LRU_get 1000 "h" (LRU_put 400 "h" [1%Q] (LRU_init 512 900)))
     = Some [1%Q].
Proof.
  assert (H : 1 <= cap (LRU_init 512 900)) by (simpl; lia).
  split; [exact H |].
  exact (LRU_put_then_get 400 1000 "h" [1%Q] (LRU_init 512 900) H).
Defined.

Lemma LRU_get_absent (now : Q) (k : string) (c : LRU) :
  od_get k (d c) = None -> LRU_get now k c = (None, c).
Proof. intros H. unfold LRU_get. now rewrite H. Qed.

Lemma LRU_get_late (now : Q) (k : string) (v : vec) (ts : Q) (c : LRU) :
  od_get k (d c) = Some (v, ts) ->
  Qltb (ttl c) (now - ts) = true ->
  LRU_get now k c
  = (None, {| cap := cap c; ttl := ttl c; d := od_pop k (d c) |}).
Proof. intros H L. unfold LRU_get. now rewrite H, L. Qed.

Lemma LRU_get_in_time (now : Q) (k : string) (v : vec) (ts : Q) (c : LRU) :
  od_get k (d c) = Some (v, ts) ->
  Qltb (ttl c) (now - ts) = false ->
  LRU_get now k c
  = (Some v, {| cap := cap c; ttl := ttl c; d := od_move_to_end k (d c) |}).
Proof. intros H L. unfold LRU_get. now rewrite H, L. Qed.

(** X7.  An entry lives [ttl] from the time it was put, and reading it does
    not renew it: for a key held with timestamp [ts], a [get] later than
    [ts + ttl] returns nothing and drops the key for good; a [get] in time
    returns the value and leaves the timestamp as it was, so a later [get],
    once [ts + ttl] is past, returns nothing. *)
Theorem LRU_entries_expire (now : Q) (k : string) (v : vec) (ts : Q)
  (c : LRU) :
  od_get k (d c) = Some (v, ts) ->
  let r := LRU_get now k c in
  ((ttl c < now - ts)%Q ->
   fst r = None
   /\ od_get k (d (snd r)) = None
   /\ forall now2, fst (LRU_get now2 k (snd r)) = None)
  /\ ((now - ts <= ttl c)%Q ->
      fst r = Some v
      /\ od_get k (d (snd r)) = Some (v, ts)
      /\ forall now2, (ttl c < now2 - ts)%Q ->
                      fst (LRU_get now2 k (snd r)) = None).
Proof.
  intros Hget r. subst r. split.
  - intros Hlate. apply Qltb_lt in Hlate.
    rewrite (LRU_get_late now k v ts c Hget Hlate). cbn [fst snd d].
    split; [reflexivity |]. split; [apply od_get_pop_same |].
    intros now2. rewrite LRU_get_absent; [reflexivity |].
    cbn [d]. apply od_get_pop_same.
  - intros Hintime. apply Qltb_ge in Hintime.
    rewrite (LRU_get_in_time now k v ts c Hget Hintime). cbn [fst snd d].
    split; [reflexivity |].
    split; [now rewrite od_move_to_end_get |].
    intros now2 Hlate. apply Qltb_lt in Hlate.
    rewrite (LRU_get_late now2 k v ts
               {| cap := cap c; ttl := ttl c; d := od_move_to_end k (d c) |});
      [reflexivity | | exact Hlate].
    cbn [d]. now rewrite od_move_to_end_get.
Qed.

Lemma LRU_entries_expire_witness :
  od_get "h" (d (LRU_put 400 "h" [1%Q] (LRU_init 512 900)))
  = Some ([1%Q], 400%Q)
  /\ fst (LRU_get 1400 "h"
            (snd (LRU_get 1000 "h"
                    (LRU_put 400 "h" [1%Q] (LRU_init 512 900))))) = None.
Proof.
  assert (H : od_get "h" (d (LRU_put 400 "h" [1%Q] (LRU_init 512 900)))
              = Some ([1%Q], 400%Q)) by reflexivity.
  split; [exact H |].
  refine (proj2 (proj2 (proj2 (LRU_entries_expire 1000 "h" [1%Q] 400
                                 (LRU_put 400 "h" [1%Q] (LRU_init 512 900)) H)
                          _)) 1400%Q _);
    vm_compute; congruence.
Defined.

(** X8.  Putting a key the cache does not hold makes it the most recently
    used entry; when the cache was full, the entry that goes is the least
    recently used one (the first), and every other entry stays, in order. *)
Theorem LRU_evicts_least_recently_used (now : Q) (k : string) (v : vec)
  (c : LRU) :
  od_get k (d c) = None ->
  List.length (d c) <= cap c ->
  1 <= cap c ->
  d (LRU_put now k v c)
  = (if List.length (d c) <? cap c then d c else tl (d c))
    ++ [(k, (v, now))].
Proof.
  intros Habs Hlen Hcap. rewrite LRU_put_d. cbv zeta.
  rewrite (od_set_absent k (v, now) (d c) Habs).
  assert (Hpop : od_pop k (d c ++ [(k, (v, now))]) = d c).
  { unfold od_pop. rewrite filter_app. simpl.
    rewrite String.eqb_refl. simpl. rewrite app_nil_r.
    exact (od_pop_absent k (d c) Habs). }
  rewrite Hpop, length_app. simpl.
  destruct (Nat.ltb_spec (List.length (d c)) (cap c)) as [Hlt | Hge].
  - destruct (Nat.ltb_spec (cap c) (List.length (d c) + 1)); [lia |].
    reflexivity.
  - destruct (Nat.ltb_spec (cap c) (List.length (d c) + 1)); [| lia].
    destruct (d c) as [| e rest]; [simpl in *; lia | reflexivity].
Qed.

Lemma LRU_evicts_witness :
  od_keys (d (LRU_put 3 "c" [3%Q] two_entries)) = ["b"; "c"].
Proof.
  assert (Habs : od_get "c" (d two_entries) = None) by reflexivity.
  assert (Hlen : List.length (d two_entries) <= cap two_entries)
    by (simpl; lia).
  assert (Hcap : 1 <= cap two_entries) by (simpl; lia).
  rewrite (LRU_evicts_least_recently_used 3 "c" [3%Q] two_entries
             Habs Hlen Hcap).
  reflexivity.
Defined.

(** * Keywords *)

Lemma ascii_compare_N (a b : ascii) :
  Ascii.compare a b = N.compare (N_of_ascii a) (N_of_ascii b).
Proof. reflexivity. Qed.

Lemma string_leb_trans (a b c : string) :
  String.leb a b = true -> String.leb b c = true -> String.leb a c = true.
Proof.
  unfold String.leb. revert b c.
  induction a as [| x a IH]; intros [| y b] [| z c]; simpl;
    try congruence.
  rewrite !ascii_compare_N.
  destruct (N.compare_spec (N_of_ascii x) (N_of_ascii y)) as [Exy | Lxy | Gxy];
    destruct (N.compare_spec (N_of_ascii y) (N_of_ascii z))
      as [Eyz | Lyz | Gyz];
    try congruence; intros Hab Hbc.
  - rewrite Exy, Eyz, N.compare_refl. now apply (IH b c).
  - rewrite Exy. now apply N.compare_lt_iff in Lyz; rewrite Lyz.
  - rewrite <- Eyz. now apply N.compare_lt_iff in Lxy; rewrite Lxy.
  - assert (L : (N_of_ascii x < N_of_ascii z)%N) by lia.
    now apply N.compare_lt_iff in L; rewrite L.
Qed.

Lemma longer_first_total (a b : string) :
  longer_first a b = true \/ longer_first b a = true.
Proof.
  unfold longer_first.
  destruct (Nat.ltb_spec (String.length b) (String.length a));
    [now left |].
  destruct (Nat.ltb_spec (String.length a) (String.length b));
    [now right |].
  assert (E : String.length a = String.length b) by lia.
  rewrite E, Nat.eqb_refl. simpl.
  apply String.leb_total.
Qed.

Lemma longer_first_trans (a b c : string) :
  longer_first a b = true -> longer_first b c = true ->
  longer_first a c = true.
Proof.
  unfold longer_first. rewrite !orb_true_iff, !andb_true_iff.
  rewrite !Nat.ltb_lt, !Nat.eqb_eq.
  intros [H1 | (E1 & L1)] [H2 | (E2 & L2)].
  - left. lia.
  - left. lia.
  - left. lia.
  - right. split; [lia |]. eapply string_leb_trans; eassumption.
Qed.

Lemma longer_first_length (a b : string) :
  longer_first a b = true -> String.length b <= String.length a.
Proof.
  unfold longer_first. rewrite orb_true_iff, andb_true_iff.
  rewrite Nat.ltb_lt, Nat.eqb_eq. lia.
Qed.

Lemma sorted_app_order {A : Type} (R : A -> A -> Prop) (l1 l2 : list A) :
  StronglySorted R (l1 ++ l2) ->
  forall x y, In x l1 -> In y l2 -> R x y.
Proof.
  induction l1 as [| a l1 IH]; simpl; intros Hs x y Hx Hy; [tauto |].
  inversion Hs as [| ? ? Hs' Hf]; subst.
  destruct Hx as [-> | Hx]; [| now apply IH].
  rewrite Forall_forall in Hf. apply Hf, in_or_app. now right.
Qed.

Lemma sorted_app_left {A : Type} (R : A -> A -> Prop) (l1 l2 : list A) :
  StronglySorted R (l1 ++ l2) -> StronglySorted R l1.
Proof.
  induction l1 as [| a l1 IH]; simpl; intros Hs; [constructor |].
  inversion Hs as [| ? ? Hs' Hf]; subst. constructor; [now apply IH |].
  rewrite Forall_forall in *. intros y Hy. apply Hf, in_or_app. now left.
Qed.

Lemma dedup_aux_fresh (b seen : list string) :
  NoDup b -> (forall x, In x b -> ~ In x seen) -> dedup_aux seen b = b.
Proof.
  revert seen. induction b as [| x b IH]; intros seen Hnd Hfresh; simpl;
    [reflexivity |].
  inversion Hnd as [| ? ? Hx Hnd']; subst.
  assert (E : mem x seen = false).
  { apply mem_not_In, Hfresh. now left. }
  rewrite E. f_equal. apply IH; [exact Hnd' |].
  intros y Hy [-> | Hs]; [contradiction |].
  apply (Hfresh y); [now right | exact Hs].
Qed.

Lemma dedup_aux_app_fresh (a b seen : list string) :
  NoDup b -> (forall x, In x b -> ~ In x a /\ ~ In x seen) ->
  dedup_aux seen (a ++ b) = dedup_aux seen a ++ b.
Proof.
  revert seen. induction a as [| y a IH]; intros seen Hnd Hfresh; simpl.
  - apply dedup_aux_fresh; [exact Hnd |]. intros x Hx. now apply Hfresh.
  - destruct (mem y seen).
    + apply IH; [exact Hnd |]. intros x Hx.
      destruct (Hfresh x Hx) as (Ha & Hs). simpl in Ha. tauto.
    + simpl. f_equal. apply IH; [exact Hnd |]. intros x Hx.
      destruct (Hfresh x Hx) as (Ha & Hs). simpl in *. tauto.
Qed.

Lemma filter_none {A : Type} (f : A -> bool) (l : list A) :
  (forall x, In x l -> f x = false) -> filter f l = [].
Proof.
  induction l as [| x l IH]; simpl; intros H; [reflexivity |].
  rewrite (H x) by now left. apply IH. intros y Hy. apply H. now right.
Qed.

(** The words of a query, as [_keywords] selects and orders them, before
    the cut at [max_terms]. *)
Lemma keywords_split (q : string) (max_terms : nat) :
  let terms := tok q in
  let nums := filter is_number terms in
  let words := sort_by longer_first (dedup (filter keyword_word terms)) in
  _keywords q max_terms = dedup nums ++ firstn max_terms words.
Proof.
  intros terms nums words. unfold _keywords. fold terms. fold nums.
  assert (Hfilter :
    filter (fun t => negb (mem t nums) && negb (mem t STOP)
                     && (2 <? String.length t)) terms
    = filter keyword_word terms).
  { apply filter_ext_in. intros t Ht. unfold keyword_word.
    f_equal. f_equal. f_equal.
    destruct (is_number t) eqn:E.
    - apply mem_In. unfold nums. apply filter_In. now split.
    - apply mem_not_In. unfold nums. rewrite filter_In.
      intros (_ & E'). congruence. }
  rewrite Hfilter. fold words. unfold dedup.
  apply dedup_aux_app_fresh.
  - apply NoDup_firstn.
    eapply Permutation_NoDup;
      [apply Permutation_sym, sort_by_perm | apply dedup_NoDup].
  - intros x Hx. apply In_firstn in Hx.
    apply (Permutation_in _ (sort_by_perm _ _ _)) in Hx.
    apply dedup_In, filter_In in Hx. destruct Hx as (_ & Hw).
    split; [| tauto]. unfold nums. rewrite filter_In. intros (_ & Hn).
    unfold keyword_word in Hw. rewrite Hn in Hw. discriminate.
Qed.

Lemma keywords_word_In (q : string) (w : string) :
  In w (sort_by longer_first (dedup (filter keyword_word (tok q))))
  <-> In w (tok q) /\ keyword_word w = true.
Proof.
  split; intros H.
  - apply (Permutation_in _ (sort_by_perm _ _ _)) in H.
    now apply dedup_In, filter_In in H.
  - apply (Permutation_in _ (Permutation_sym (sort_by_perm _ _ _))).
    now apply dedup_In, filter_In.
Qed.

(** X9.  What [_keywords] returns: no key twice; every key is a token of
    the query, either a number or a word (no stop word, more than two
    characters); every number of the query is a key, whatever [max_terms];
    at most [max_terms] keys are words, and a word of the query is left out
    only when [max_terms] words were kept. *)
Theorem keywords_content (q : string) (max_terms : nat) :
  let keys := _keywords q max_terms in
  NoDup keys
  /\ (forall k, In k keys ->
        In k (tok q) /\ (is_number k = true \/ keyword_word k = true))
  /\ (forall t, In t (tok q) -> is_number t = true -> In t keys)
  /\ List.length (filter keyword_word keys) <= max_terms
  /\ (forall w, In w (tok q) -> keyword_word w = true -> ~ In w keys ->
        List.length (filter keyword_word keys) = max_terms).
Proof.
  intros keys. subst keys.
  assert (Hkeys : NoDup (_keywords q max_terms))
    by (unfold _keywords; apply dedup_NoDup).
  rewrite keywords_split in *. cbv zeta in *.
  set (nums := filter is_number (tok q)) in *.
  set (words := sort_by longer_first (dedup (filter keyword_word (tok q))))
    in *.
  assert (Hwords : forall w, In w words
                             <-> In w (tok q) /\ keyword_word w = true)
    by apply keywords_word_In.
  assert (Hnd : NoDup words).
  { eapply Permutation_NoDup;
      [apply Permutation_sym, sort_by_perm | apply dedup_NoDup]. }
  assert (Hcount : filter keyword_word (dedup nums ++ firstn max_terms words)
                   = firstn max_terms words).
  { rewrite filter_app.
    replace (filter keyword_word (dedup nums)) with (@nil string).
    - simpl. apply forallb_filter_id. apply forallb_forall.
      intros w Hw. apply In_firstn in Hw. now apply Hwords in Hw.
    - symmetry. apply filter_none. intros t Ht.
      apply (proj1 (dedup_In _ _)) in Ht. unfold nums in Ht. apply filter_In in Ht.
      unfold keyword_word. now rewrite (proj2 Ht). }
  split; [| split; [| split; [| split]]].
  - exact Hkeys.
  - intros k Hk. apply in_app_or in Hk. destruct Hk as [Hk | Hk].
    + apply (proj1 (dedup_In _ _)) in Hk. unfold nums in Hk. apply filter_In in Hk.
      split; [tauto | now left].
    + apply In_firstn, Hwords in Hk. split; [tauto | now right].
  - intros t Ht Hn. apply in_or_app. left. apply dedup_In.
    unfold nums. apply filter_In. now split.
  - rewrite Hcount. rewrite length_firstn. lia.
  - intros w Hw Hkw Hout. rewrite Hcount, length_firstn.
    destruct (Nat.le_gt_cases (List.length words) max_terms) as [Hle | Hgt];
      [| lia].
    exfalso. apply Hout, in_or_app. right.
    rewrite firstn_all2 by exact Hle. apply Hwords. now split.
Qed.

(** X10.  The order of the keys: the numbers of the query first, in the
    order in which they first appear, then the words, the longer before the
    shorter and words of one length in alphabetical order; a word that was
    cut stands after every word that was kept in that order. *)
Theorem keywords_order (q : string) (max_terms : nat) :
  exists words,
    _keywords q max_terms = dedup (filter is_number (tok q)) ++ words
    /\ Forall (fun w => keyword_word w = true) words
    /\ StronglySorted (fun a b => longer_first a b = true) words
    /\ StronglySorted
         (fun a b => String.length b <= String.length a) words
    /\ (forall w, In w (tok q) -> keyword_word w = true ->
          ~ In w (_keywords q max_terms) ->
          Forall (fun k => longer_first k w = true) words).
Proof.
  set (all := sort_by longer_first (dedup (filter keyword_word (tok q)))).
  assert (Hsorted : StronglySorted (fun a b => longer_first a b = true) all).
  { apply sort_by_sorted;
      [apply longer_first_total | apply longer_first_trans]. }
  rewrite <- (firstn_skipn max_terms all) in Hsorted.
  assert (Hkept : StronglySorted (fun a b => longer_first a b = true)
                    (firstn max_terms all))
    by exact (sorted_app_left _ _ _ Hsorted).
  exists (firstn max_terms all).
  split; [apply keywords_split |].
  split; [| split; [exact Hkept | split]].
  - apply Forall_forall. intros w Hw. apply In_firstn in Hw.
    now apply keywords_word_In in Hw.
  - clear - Hkept. induction Hkept as [| a l Hs IH Hf]; constructor;
      [exact IH |].
    eapply Forall_impl; [| exact Hf]. intros b. apply longer_first_length.
  - intros w Hw Hkw Hout. apply Forall_forall. intros k Hk.
    apply (sorted_app_order _ _ _ Hsorted k w Hk).
    assert (Hall : In w all) by (apply keywords_word_In; now split).
    rewrite <- (firstn_skipn max_terms all) in Hall.
    apply in_app_or in Hall. destruct Hall as [Hin | Hin]; [| exact Hin].
    exfalso. apply Hout. rewrite keywords_split. apply in_or_app. now right.
Qed.

(** * The calls one search makes *)

Lemma concat_first_nonempty (sep x : string) (xs : list string) :
  x <> "" -> concat sep (x :: xs) <> "".
Proof.
  intros Hx. simpl. destruct xs as [| y ys]; [exact Hx |].
  destruct x as [| c x]; [congruence |]. simpl. intros E. discriminate E.
Qed.

Lemma fts_or_some (keys : list string) :
  keys <> [] -> exists e, _fts_or keys = Some e /\ e <> "".
Proof.
  destruct keys as [| k ks]; [congruence |]. intros _.
  eexists. split; [reflexivity |].
  unfold join. cbn [map]. apply concat_first_nonempty.
  destruct (is_number k) eqn:E.
  - destruct k; [discriminate E | intros E'; discriminate E'].
  - unfold dquote. simpl. intros E'. discriminate E'.
Qed.

Lemma eqb_nonempty (e : string) : e <> "" -> String.eqb e "" = false.
Proof. intros H. now apply String.eqb_neq. Qed.

Lemma prf_stage_trace (np : Numpy) (cfg : Config) (env : Env)
  (uid q : string) (keys : list string) (rows : list Row)
  (initial_docs : list Doc) :
  List.length (fst (prf_stage np cfg env uid q keys rows initial_docs)) <= 1.
Proof.
  unfold prf_stage.
  destruct (_should_prf np q (map doc_score initial_docs)); simpl; [| lia].
  destruct (_extract_prf_terms cfg initial_docs (dedup keys)); simpl; [lia |].
  destruct (_build_expanded_query keys (s :: l)) as [e |]; simpl; [| lia].
  destruct (String.eqb e ""); simpl; lia.
Qed.

Lemma retrieve_trace (np : Numpy) (cfg : Config) (env : Env)
  (q uid : string) :
  let keys := _keywords q 16 in
  let r := retrieve np cfg env q uid in
  List.length (fst r) <= 2
  /\ (keys = [] -> r = ([], Ok None))
  /\ (forall e, _fts_or keys = Some e -> e <> "" ->
        (exists tr, fst r = EvFts e (K_SQL cfg) :: tr)
        /\ (fts env e uid (K_SQL cfg) = [] ->
            r = ([EvFts e (K_SQL cfg)], Ok None))).
Proof.
  intros keys r. subst r. unfold retrieve. fold keys.
  destruct (_fts_or keys) as [e |] eqn:Ee.
  - destruct (String.eqb_spec e "") as [-> | Hne].
    + split; [simpl; lia |]. split.
      * intros ->. discriminate Ee.
      * intros e' E' Hne'. congruence.
    + destruct (fts env e uid (K_SQL cfg)) as [| row rows] eqn:Erows.
      * split; [simpl; lia |]. split.
        -- intros Hk. rewrite Hk in Ee. discriminate Ee.
        -- intros e' E' _. inversion E'; subst e'.
           split; [now exists [] | now rewrite Erows].
      * destruct (initial_docs_of (row :: rows)) as [docs | ex].
        -- pose proof (prf_stage_trace np cfg env uid q keys (row :: rows)
                         docs) as Hlen.
           destruct (prf_stage np cfg env uid q keys (row :: rows) docs)
             as [tr1 rows'].
           simpl in Hlen. split; [simpl; lia |]. split.
           ++ intros Hk. rewrite Hk in Ee. discriminate Ee.
           ++ intros e' E' _. inversion E'; subst e'.
              split; [now exists tr1 |]. rewrite Erows. discriminate.
        -- split; [simpl; lia |]. split.
           ++ intros Hk. rewrite Hk in Ee. discriminate Ee.
           ++ intros e' E' _. inversion E'; subst e'.
              split; [now exists [] |]. rewrite Erows. discriminate.
  - split; [simpl; lia |]. split; [reflexivity |].
    intros e' E'. discriminate E'.
Qed.

Lemma keywords_nil_iff (q : string) (max_terms : nat) :
  1 <= max_terms ->
  (_keywords q max_terms = []
   <-> forall t, In t (tok q) ->
                 is_number t = false /\ keyword_word t = false).
Proof.
  intros Hm. rewrite keywords_split. cbv zeta.
  set (nums := filter is_number (tok q)).
  set (words := sort_by longer_first (dedup (filter keyword_word (tok q)))).
  split.
  - intros E. apply app_eq_nil in E. destruct E as (En & Ew).
    intros t Ht. split.
    + destruct (is_number t) eqn:E; [| reflexivity]. exfalso.
      assert (Hin : In t (dedup nums)).
      { apply dedup_In. unfold nums. apply filter_In. now split. }
      rewrite En in Hin. exact Hin.
    + destruct (keyword_word t) eqn:E; [| reflexivity]. exfalso.
      assert (Hin : In t words) by (apply keywords_word_In; now split).
      destruct words as [| w ws]; [exact Hin |].
      destruct max_terms as [| m]; [lia | discriminate Ew].
  - intros Hnone.
    assert (Hn : dedup nums = []).
    { destruct (dedup nums) as [| t ts] eqn:E; [reflexivity |]. exfalso.
      assert (Hin : In t (dedup nums)) by (rewrite E; now left).
      apply (proj1 (dedup_In _ _)) in Hin. unfold nums in Hin.
      apply filter_In in Hin. destruct Hin as (Ht & Hnum).
      destruct (Hnone t Ht). congruence. }
    assert (Hw : words = []).
    { destruct words as [| t ts] eqn:E; [reflexivity |]. exfalso.
      assert (Hin : In t words) by (rewrite E; now left).
      apply keywords_word_In in Hin. destruct Hin as (Ht & Hkw).
      destruct (Hnone t Ht). congruence. }
    rewrite Hn, Hw. now destruct max_terms.
Qed.

(** X11.  A query without keywords (none of its tokens is a number or a word
    of more than two characters that is no stop word) searches nothing: no
    call is made and the result is empty.  A query with keywords first asks
    the index, with the expression built from its keywords and the limit
    [K_SQL]; when the index has no row for it, that is the only call and
    the result is empty. *)
Theorem search_starts_from_keywords (np : Numpy) (cfg : Config)
  (md5 : string -> string) (env : Env) (q uid path : string) :
  let keys := _keywords q 16 in
  let r := _search_single_sentence np cfg md5 env q uid path in
  (keys = [] <-> forall t, In t (tok q) ->
                           is_number t = false /\ keyword_word t = false)
  /\ (keys = [] -> r = ([], Ok []))
  /\ (keys <> [] ->
      exists e,
        _fts_or keys = Some e /\ e <> ""
        /\ (exists tr, fst r = EvFts e (K_SQL cfg) :: tr)
        /\ (fts env e uid (K_SQL cfg) = [] ->
            r = ([EvFts e (K_SQL cfg)], Ok []))).
Proof.
  intros keys r.
  destruct (retrieve_trace np cfg env q uid) as (_ & Hnil & Hsome).
  fold keys in Hnil, Hsome.
  split; [apply keywords_nil_iff; lia |]. split.
  - intros Hk. subst r. unfold _search_single_sentence.
    now rewrite (Hnil Hk).
  - intros Hk. destruct (fts_or_some keys Hk) as (e & Ee & Hne).
    exists e. split; [exact Ee |]. split; [exact Hne |].
    destruct (Hsome e Ee Hne) as ((tr & Htr) & Hempty).
    subst r. unfold _search_single_sentence. split.
    + destruct (retrieve np cfg env q uid) as [tr0 [[[scores c] |] | ex]];
        simpl in Htr; subst tr0.
      * destruct (numeric_only q); [now exists tr |].
        destruct (rerank np cfg md5 env uid path q (rerank_pool np scores c))
          as [tr2 out]. simpl. now exists (tr ++ tr2).
      * now exists tr.
      * now exists tr.
    + intros Hrows. now rewrite (Hempty Hrows).
Qed.

Lemma rerank_trace (np : Numpy) (cfg : Config) (md5 : string -> string)
  (env : Env) (uid path q : string) (pool : Candidates) :
  let tr := fst (rerank np cfg md5 env uid path q pool) in
  let input := embed_input_of env q pool in
  tr = [EvEmbed input]
  \/ exists entries, tr = [EvEmbed input; EvCacheInsert entries]
                     /\ entries <> [].
Proof.
  cbv zeta. unfold rerank.
  destruct (cache_lookup env (c_hashes pool) (c_texts pool)) as [cm need].
  destruct (_oai_embed env (embed_input_of env q pool)) as [V |];
    [| now left].
  destruct (py_index V 0) as [qv | ex]; simpl; [| now left].
  destruct (new_vectors V need) as [fresh | ex]; simpl; [| now left].
  destruct fresh as [| x fresh]; simpl; [now left |].
  right. exists (x :: fresh). split; [reflexivity | discriminate].
Qed.

(** X12.  The calls of one search, in order: at most two queries to the
    index, then at most one call to the embedding provider, whose first
    input is the query, then at most one insertion into the embedding
    cache, of at least one vector and only after an embedding call. *)
Theorem one_embedding_call_per_search (np : Numpy) (cfg : Config)
  (md5 : string -> string) (env : Env) (q uid path : string) :
  let tr := fst (_search_single_sentence np cfg md5 env q uid path) in
  exists queries calls inserts,
    tr = queries ++ calls ++ inserts
    /\ List.length queries <= 2
    /\ forallb is_fts queries = true
    /\ (calls = [] \/ exists texts, calls = [EvEmbed (q :: texts)])
    /\ (inserts = []
        \/ exists entries, inserts = [EvCacheInsert entries]
                           /\ entries <> [] /\ calls <> []).
Proof.
  cbv zeta. unfold _search_single_sentence.
  destruct (retrieve_trace np cfg env q uid) as (Hlen & _).
  destruct (retrieve_cases np cfg env q uid) as (Hfts & _).
  destruct (retrieve np cfg env q uid) as [tr0 [[[scores c] |] | ex]];
    simpl in Hlen, Hfts.
  - destruct (numeric_only q).
    + exists tr0, [], []. rewrite !app_nil_r. repeat split; auto.
    + pose proof (rerank_trace np cfg md5 env uid path q
                    (rerank_pool np scores c)) as Hr.
      cbv zeta in Hr.
      destruct (rerank np cfg md5 env uid path q (rerank_pool np scores c))
        as [tr2 out]. simpl in Hr. simpl.
      destruct Hr as [-> | (entries & -> & Hne)].
      * exists tr0, [EvEmbed (embed_input_of env q (rerank_pool np scores c))],
          []. simpl. repeat split; auto.
        right. unfold embed_input_of. eauto.
      * exists tr0, [EvEmbed (embed_input_of env q (rerank_pool np scores c))],
          [EvCacheInsert entries]. simpl. repeat split; auto.
        -- right. unfold embed_input_of. eauto.
        -- right. exists entries. repeat split; auto. discriminate.
  - exists tr0, [], []. rewrite !app_nil_r. repeat split; auto.
  - exists tr0, [], []. rewrite !app_nil_r. repeat split; auto.
Qed.

(** * The embedding call and the cache *)

Lemma cache_fold_entries (env : Env) (cm0 : Dict)
  (xs : list (nat * (string * string))) :
  forall cm need,
    cache_inv env cm0 cm ->
    snd (fold_left (cache_step env) xs (cm, need))
    = need ++ map (fun x => (fst x, snd (snd x), fst (snd x)))
                  (filter (fun x => in_neither env cm0 (fst (snd x))) xs).
Proof.
  induction xs as [| [i [h t]] xs IH]; intros cm need Hinv; simpl.
  - now rewrite app_nil_r.
  - destruct (Hinv h) as (Hnone & Hsome).
    destruct (dict_get h cm) as [v |] eqn:Ecm.
    + rewrite (Hsome v eq_refl). apply IH.
      intros h'. unfold dict_set. simpl.
      destruct (String.eqb_spec h' h) as [-> | Hne].
      * split; [discriminate |]. intros _ _. now apply (Hsome v).
      * apply Hinv.
    + assert (Hm : in_neither env cm0 h = match lru_get env h with
                                          | Some _ => false
                                          | None => true
                                          end).
      { unfold in_neither. now rewrite (Hnone eq_refl). }
      destruct (lru_get env h) as [v |] eqn:Elru; rewrite Hm.
      * apply IH. intros h'. unfold dict_set. simpl.
        destruct (String.eqb_spec h' h) as [-> | Hne].
        -- split; [discriminate |]. intros _ _. exact Hm.
        -- apply Hinv.
      * simpl. rewrite IH by exact Hinv. now rewrite <- app_assoc.
Qed.

(** The entries still to embed, one for every pool text whose hash is in
    neither cache tier. *)
Lemma cache_lookup_entries (env : Env) (text_hashes texts : list string) :
  let need := snd (cache_lookup env text_hashes texts) in
  let missing := filter (fun ht => in_no_cache env text_hashes (fst ht))
                        (combine text_hashes texts) in
  map snd need = map fst missing
  /\ map (fun n => snd (fst n)) need = map snd missing
  /\ List.length need = List.length missing.
Proof.
  cbv zeta.
  assert (Hhash :
    map snd (snd (cache_lookup env text_hashes texts))
    = map fst (filter (fun ht => in_no_cache env text_hashes (fst ht))
                      (combine text_hashes texts))).
  { unfold cache_lookup.
    rewrite (cache_fold_entries env
               (dict_update (cache_select env text_hashes) [])).
    - simpl. rewrite map_map. simpl.
      rewrite <- (map_snd_combine_seq (combine text_hashes texts)
                    (List.length text_hashes) 0) at 2.
      + rewrite <- (filter_map_snd
                      (fun ht => in_no_cache env text_hashes (fst ht))).
        now rewrite map_map.
      + rewrite length_combine. lia.
    - intros h. split; [auto |]. intros v Hv. unfold in_neither.
      now rewrite Hv. }
  split; [exact Hhash |]. split; [apply cache_lookup_need |].
  rewrite <- (length_map snd), Hhash. apply length_map.
Qed.

Lemma skipn_nth_error {A : Type} (l : list A) (k : nat) (x : A) :
  nth_error l k = Some x -> skipn k l = x :: skipn (S k) l.
Proof.
  revert k. induction l as [| y l IH]; intros [| k] H; simpl in *;
    try discriminate.
  - now inversion H.
  - now apply IH.
Qed.

Lemma new_vectors_from (V : list vec) (need : list (nat * string * string)) :
  forall s fresh,
    mapM (fun '(j, (_, _, text_hash)) =>
            dv <- py_index V (1 + j) ;; Ok (text_hash, dv))
         (combine (seq s (List.length need)) need) = Ok fresh ->
    map fst fresh = map snd need
    /\ map snd fresh = firstn (List.length need) (skipn (1 + s) V).
Proof.
  induction need as [| [[i t] h] need IH]; intros s fresh H; simpl in H.
  - inversion H. now split.
  - apply bind_ok in H. destruct H as (y & Hy & H).
    apply bind_ok in H. destruct H as (ys & Hys & H).
    inversion H; subst fresh. clear H.
    apply bind_ok in Hy. destruct Hy as (dv & Hdv & Hy).
    inversion Hy; subst y. clear Hy.
    apply py_index_ok in Hdv.
    destruct (IH (S s) ys Hys) as (Hf & Hs).
    split; [simpl; now rewrite Hf |].
    cbn [map snd List.length firstn].
    rewrite (skipn_nth_error V (1 + s) dv Hdv). cbn [firstn].
    f_equal. exact Hs.
Qed.

Lemma new_vectors_total (V : list vec) (need : list (nat * string * string)) :
  forall s,
    1 + s + List.length need <= List.length V ->
    exists fresh,
      mapM (fun '(j, (_, _, text_hash)) =>
              dv <- py_index V (1 + j) ;; Ok (text_hash, dv))
           (combine (seq s (List.length need)) need) = Ok fresh.
Proof.
  induction need as [| [[i t] h] need IH]; intros s Hlen.
  - simpl. eauto.
  - cbn [List.length seq combine mapM].
    destruct (py_index_lt V (1 + s)) as (dv & Hdv); [simpl in Hlen; lia |].
    rewrite Hdv. cbn [bind].
    destruct (IH (S s)) as (ys & Hys); [simpl in Hlen; lia |].
    rewrite Hys. cbn [bind]. eauto.
Qed.

Lemma combine_fst_snd {A B : Type} (l : list (A * B)) :
  combine (map fst l) (map snd l) = l.
Proof.
  induction l as [| [a b] l IH]; simpl; [reflexivity | now rewrite IH].
Qed.

(** X13.  What is sent to the embedding provider and what is stored: the
    input of the call is the query followed by the pool texts whose hash is
    in neither cache tier, in pool order, so with a warm cache the query
    alone is sent and nothing is stored; an insertion into the cache stores,
    under the hash of the j-th text sent, the vector the provider returned
    at position 1 + j; and when the provider returns one vector for every
    input, every missing text is stored so. *)
Theorem embedding_input_and_cache_insert (np : Numpy) (cfg : Config)
  (md5 : string -> string) (env : Env) (uid path q : string)
  (pool : Candidates) :
  let missing := filter (fun ht => in_no_cache env (c_hashes pool) (fst ht))
                        (combine (c_hashes pool) (c_texts pool)) in
  let input := embed_input_of env q pool in
  let tr := fst (rerank np cfg md5 env uid path q pool) in
  input = q :: map snd missing
  /\ (missing = [] -> tr = [EvEmbed [q]])
  /\ (forall entries,
        In (EvCacheInsert entries) tr ->
        exists V,
          oai_embed env input = Some V
          /\ map fst entries = map fst missing
          /\ map snd entries = firstn (List.length missing) (tl V))
  /\ (forall V,
        oai_embed env input = Some V ->
        List.length V = List.length input ->
        missing <> [] ->
        tr = [EvEmbed input;
              EvCacheInsert (combine (map fst missing) (tl V))]).
Proof.
  intros missing input tr.
  destruct (cache_lookup_entries env (c_hashes pool) (c_texts pool))
    as (Hhash & Htext & Hlen).
  fold missing in Hhash, Htext, Hlen.
  assert (Hinput : input = q :: map snd missing).
  { unfold input, embed_input_of. now rewrite Htext. }
  assert (Hembed : _oai_embed env input = oai_embed env input).
  { rewrite Hinput. reflexivity. }
  subst tr. unfold rerank. fold input. rewrite Hembed.
  destruct (cache_lookup env (c_hashes pool) (c_texts pool)) as [cm need].
  simpl in Hhash, Htext, Hlen.
  split; [exact Hinput |]. split; [| split].
  - intros Hnone. rewrite Hnone in Hlen. simpl in Hlen.
    destruct need; [| discriminate Hlen].
    assert (Hq : input = [q]) by (rewrite Hinput, Hnone; reflexivity).
    rewrite Hq.
    destruct (oai_embed env [q]) as [V |]; [| reflexivity].
    destruct (py_index V 0) as [qv | ex]; reflexivity.
  - intros entries Hin.
    destruct (oai_embed env input) as [V |];
      [| simpl in Hin; destruct Hin as [Hin | []]; discriminate Hin].
    exists V. split; [reflexivity |].
    destruct (py_index V 0) as [qv | ex];
      [| simpl in Hin; destruct Hin as [Hin | []]; discriminate Hin].
    cbn [bind] in Hin.
    destruct (new_vectors V need) as [fresh | ex] eqn:Efresh;
      [| simpl in Hin; destruct Hin as [Hin | []]; discriminate Hin].
    cbn [bind fst] in Hin.
    destruct fresh as [| x fresh];
      [simpl in Hin; destruct Hin as [Hin | []]; discriminate Hin |].
    simpl in Hin. destruct Hin as [Hin | [Hin | []]]; [discriminate Hin |].
    inversion Hin; subst entries.
    destruct (new_vectors_from V need 0 (x :: fresh) Efresh) as (Hf & Hs).
    rewrite Hf, Hs, Hhash, Hlen. now split.
  - intros V HV HlenV Hsome. rewrite HV.
    assert (HlenV' : List.length V = S (List.length need)).
    { rewrite HlenV, Hinput. simpl. now rewrite length_map, Hlen. }
    destruct (py_index_lt V 0) as (qv & Hqv); [lia |]. rewrite Hqv.
    cbn [bind].
    destruct (new_vectors_total V need 0) as (fresh & Hfresh); [lia |].
    unfold new_vectors. rewrite Hfresh. cbn [bind fst].
    destruct (new_vectors_from V need 0 fresh Hfresh) as (Hf & Hs).
    assert (Hall : fresh = combine (map fst missing) (tl V)).
    { rewrite <- (combine_fst_snd fresh), Hf, Hs, Hhash. f_equal.
      change (skipn (1 + 0) V) with (tl V).
      apply firstn_all2. destruct V; simpl in *; lia. }
    rewrite <- Hall.
    destruct fresh as [| x fresh]; [| reflexivity].
    exfalso. apply Hsome.
    simpl in Hf. symmetry in Hf. apply map_eq_nil in Hf. subst need.
    simpl in Hlen. now destruct missing.
Qed.

(** * Where the results come from *)

Lemma prf_stage_rows (np : Numpy) (cfg : Config) (env : Env)
  (uid q : string) (keys : list string) (rows : list Row)
  (initial_docs : list Doc) :
  let r := prf_stage np cfg env uid q keys rows initial_docs in
  snd r = rows
  \/ exists e, fst r = [EvFts e (K_SQL2 cfg)]
               /\ snd r = fts env e uid (K_SQL2 cfg).
Proof.
  cbv zeta. unfold prf_stage.
  destruct (_should_prf np q (map doc_score initial_docs)); [| now left].
  destruct (_extract_prf_terms cfg initial_docs (dedup keys));
    [now left |].
  destruct (_build_expanded_query keys (s :: l)) as [e |]; [| now left].
  destruct (String.eqb e ""); [now left |]. simpl.
  destruct (fts env e uid (K_SQL2 cfg)) as [| row prf_rows] eqn:E;
    [now left |].
  destruct (Qle_bool 0.4 (prf_overlap initial_docs (row :: prf_rows)));
    [| now left].
  right. exists e. now rewrite E.
Qed.

(** The candidates of the first stage are selected from the rows of a query
    the trace records. *)
Lemma retrieve_rows (np : Numpy) (cfg : Config) (env : Env) (q uid : string)
  (tr : list Event) (scores : list Q) (c : Candidates) :
  retrieve np cfg env q uid = (tr, Ok (Some (scores, c))) ->
  exists e lim,
    In (EvFts e lim) tr
    /\ select_candidates np cfg (fts env e uid lim) = Ok c.
Proof.
  unfold retrieve.
  destruct (_fts_or (_keywords q 16)) as [e |]; [| discriminate].
  destruct (String.eqb e ""); [discriminate |].
  destruct (fts env e uid (K_SQL cfg)) as [| row rows] eqn:Erows;
    [discriminate |].
  destruct (initial_docs_of (row :: rows)) as [docs | ex]; [| discriminate].
  pose proof (prf_stage_rows np cfg env uid q (_keywords q 16) (row :: rows)
                docs) as Hprf.
  cbv zeta in Hprf.
  destruct (prf_stage np cfg env uid q (_keywords q 16) (row :: rows) docs)
    as [tr1 rows'].
  simpl in Hprf. intros H. inversion H as [[Htr Hc]]. clear H.
  destruct (select_candidates np cfg rows') as [c' |] eqn:Ec;
    [| discriminate Hc].
  simpl in Hc. inversion Hc; subst c'. clear Hc.
  destruct Hprf as [-> | (e' & -> & ->)].
  - exists e, (K_SQL cfg). split; [now left |]. now rewrite Erows.
  - exists e', (K_SQL2 cfg). split; [right; now left | exact Ec].
Qed.

Lemma nth_error_map_nth {A : Type} (l : list A) (d : A) (keep : list nat)
  (i : nat) (x : A) :
  Forall (fun k => k < List.length l) keep ->
  nth_error (map (fun k => nth k l d) keep) i = Some x ->
  exists k, nth_error keep i = Some k /\ nth_error l k = Some x.
Proof.
  intros Hk H. rewrite nth_error_map in H.
  destruct (nth_error keep i) as [k |] eqn:E; [| discriminate H].
  simpl in H. inversion H; subst x. exists k. split; [reflexivity |].
  apply nth_error_nth'. rewrite Forall_forall in Hk. apply Hk.
  eapply nth_error_In, E.
Qed.

(** A candidate's chunk id and text are those of one row. *)
Lemma candidates_row (cfg : Config) (rows : list Row) (c : Candidates)
  (i : nat) (id : Z) (t : string) :
  candidates_from cfg rows c ->
  nth_error (c_ids c) i = Some id ->
  nth_error (c_texts c) i = Some t ->
  exists row, In row rows /\ row_id row = id /\ row_text row = t.
Proof.
  intros (braw & keep & _ & _ & Hk & Hids & Htexts & _) Hid Ht.
  rewrite Hids in Hid. rewrite Htexts in Ht.
  apply nth_error_map_nth in Hid;
    [| now rewrite length_map].
  apply nth_error_map_nth in Ht;
    [| now rewrite length_map].
  destruct Hid as (k & Hk1 & Hid). destruct Ht as (k' & Hk2 & Ht).
  assert (k' = k) by congruence. subst k'.
  rewrite nth_error_map in Hid, Ht.
  destruct (nth_error (firstn (TOP_OAI cfg) rows) k) as [row |] eqn:Erow;
    [| discriminate Hid].
  simpl in Hid, Ht. exists row. split.
  - eapply In_firstn, nth_error_In, Erow.
  - split; congruence.
Qed.

Lemma nth_error_firstn_some {A : Type} (n i : nat) (l : list A) (x : A) :
  nth_error (firstn n l) i = Some x -> nth_error l i = Some x.
Proof.
  revert n i. induction l as [| y l IH]; intros [| n] [| i] H; simpl in *;
    try discriminate; auto.
  now apply (IH n).
Qed.

Lemma Forall2_In_r {A B : Type} (R : A -> B -> Prop) (l : list A)
  (l' : list B) (y : B) :
  Forall2 R l l' -> In y l' -> exists x, In x l /\ R x y.
Proof.
  induction 1 as [| a b l l' Hab _ IH]; simpl; [tauto |].
  intros [<- | Hy].
  - exists a. auto.
  - destruct (IH Hy) as (x & Hx & Hr). exists x. auto.
Qed.

Lemma bm25_results_rows (cfg : Config) (stage : Stage) (uid path q : string)
  (ids : list Z) (texts : list string) (bnorm : list Q) (out : list Result)
  (r : Result) :
  bm25_results cfg stage uid path q ids texts bnorm = Ok out ->
  In r out ->
  file_uid r = uid /\ file_path r = path
  /\ exists j, nth_error ids j = Some (chunk_id r)
               /\ exists t, nth_error texts j = Some t
                            /\ snippet r = _snippet t q 280.
Proof.
  intros Hrun Hr. unfold bm25_results in Hrun.
  apply mapM_ok in Hrun.
  destruct (Forall2_In_r _ _ _ _ Hrun Hr) as (j & _ & Hj).
  apply bind_ok in Hj. destruct Hj as (id & Hid & Hj).
  apply bind_ok in Hj. destruct Hj as (b & Hb & Hj).
  apply bind_ok in Hj. destruct Hj as (t & Ht & Hj).
  inversion Hj; subst r. simpl.
  apply py_index_ok in Hid. apply py_index_ok in Ht.
  split; [reflexivity |]. split; [reflexivity |]. eauto.
Qed.

Lemma fuse_rows (np : Numpy) (cfg : Config) (md5 : string -> string)
  (uid path q : string) (ids : list Z) (texts text_hashes : list string)
  (cache_map : Dict) (qv : vec) (sims_o : list Q) (out : list Result)
  (r : Result) :
  fuse np cfg md5 uid path q ids texts text_hashes cache_map qv sims_o
  = Ok out ->
  In r out ->
  file_uid r = uid /\ file_path r = path
  /\ exists j, nth_error ids j = Some (chunk_id r)
               /\ exists t, nth_error texts j = Some t
                            /\ snippet r = _snippet t q 280.
Proof.
  intros Hrun Hr. unfold fuse in Hrun.
  apply bind_ok in Hrun. destruct Hrun as (fs & Hfs & Hrun).
  apply bind_ok in Hrun. destruct Hrun as (docs & Hdocs & Hrun).
  inversion Hrun; subst out. clear Hrun.
  unfold emit in Hr. apply in_map_iff in Hr.
  destruct Hr as ([[id t] s] & <- & Hd). simpl.
  split; [reflexivity |]. split; [reflexivity |].
  destruct (select_final_perm cfg md5 _ _ _ _ _ _ _ Hdocs) as (rest & Hperm).
  assert (Hin : In (id, t, s) (combine (combine ids texts) fs)).
  { eapply Permutation_in; [apply scored_docs_perm |].
    eapply Permutation_in; [exact Hperm |]. apply in_or_app. now left. }
  apply in_combine3 in Hin. destruct Hin as (j & Hid & Ht & _).
  exists j. split; [exact Hid |]. exists t. split; [exact Ht | reflexivity].
Qed.

Lemma rerank_rows (np : Numpy) (cfg : Config) (md5 : string -> string)
  (env : Env) (uid path q : string) (pool : Candidates) (tr : list Event)
  (out : list Result) (r : Result) :
  rerank np cfg md5 env uid path q pool = (tr, Ok out) ->
  In r out ->
  file_uid r = uid /\ file_path r = path
  /\ exists j, nth_error (c_ids pool) j = Some (chunk_id r)
               /\ exists t, nth_error (c_texts pool) j = Some t
                            /\ snippet r = _snippet t q 280.
Proof.
  unfold rerank.
  destruct (cache_lookup env (c_hashes pool) (c_texts pool)) as [cm need].
  destruct (_oai_embed env (embed_input_of env q pool)) as [V |].
  - destruct (py_index V 0) as [qv | ex]; [| discriminate]. cbn [bind].
    destruct (new_vectors V need) as [fresh | ex]; [| discriminate].
    cbn [bind]. intros H Hr. inversion H as [[Htr Hrun]].
    eapply fuse_rows; eassumption.
  - intros H Hr. inversion H as [[Htr Hrun]].
    eapply bm25_results_rows; eassumption.
Qed.

(** X14.  Every result of a search is a chunk the index returned for this
    file to a query of this search: it carries the file's uid and path, and
    its chunk id and the text its snippet is cut from are those of one such
    row. *)
Theorem results_come_from_the_index (np : Numpy) (cfg : Config)
  (md5 : string -> string) (env : Env) (q uid path : string)
  (tr : list Event) (out : list Result) :
  argsort_spec np ->
  _search_single_sentence np cfg md5 env q uid path = (tr, Ok out) ->
  Forall (fun r =>
            file_uid r = uid /\ file_path r = path
            /\ exists e lim row,
                 In (EvFts e lim) tr
                 /\ In row (fts env e uid lim)
                 /\ chunk_id r = row_id row
                 /\ snippet r = _snippet (row_text row) q 280) out.
Proof.
  intros np_ok Hrun. apply Forall_forall. intros r Hr.
  unfold _search_single_sentence in Hrun.
  destruct (retrieve np cfg env q uid) as [tr0 [[[scores c] |] | ex]]
    eqn:Eret.
  - destruct (retrieve_rows np cfg env q uid tr0 scores c Eret)
      as (e & lim & Hev & Hsel).
    apply (select_candidates_from np cfg np_ok) in Hsel.
    assert (Hfinish :
      forall tr1,
        tr = tr0 ++ tr1 ->
        file_uid r = uid /\ file_path r = path
        /\ (exists j, nth_error (c_ids c) j = Some (chunk_id r)
                      /\ exists t, nth_error (c_texts c) j = Some t
                                   /\ snippet r = _snippet t q 280) ->
        file_uid r = uid /\ file_path r = path
        /\ exists e lim row,
             In (EvFts e lim) tr
             /\ In row (fts env e uid lim)
             /\ chunk_id r = row_id row
             /\ snippet r = _snippet (row_text row) q 280).
    { intros tr1 -> (Hu & Hp & j & Hid & t & Ht & Hsn).
      split; [exact Hu |]. split; [exact Hp |].
      destruct (candidates_row cfg _ c j _ t Hsel Hid Ht)
        as (row & Hrow & Hrid & Hrt).
      exists e, lim, row. split; [apply in_or_app; now left |].
      split; [exact Hrow |]. split; [now rewrite Hrid |].
      now rewrite Hrt. }
    destruct (numeric_only q).
    + injection Hrun as Htr Hout.
      apply (Hfinish []); [now rewrite app_nil_r |].
      eapply bm25_results_rows; eassumption.
    + destruct (rerank np cfg md5 env uid path q (rerank_pool np scores c))
        as [tr2 res] eqn:Erer.
      injection Hrun as Htr Hout. subst res.
      apply (Hfinish tr2); [now symmetry |].
      destruct (rerank_rows np cfg md5 env uid path q _ tr2 out r Erer Hr)
        as (Hu & Hp & j & Hid & t & Ht & Hsn).
      split; [exact Hu |]. split; [exact Hp |].
      exists j. split.
      * unfold rerank_pool in Hid. simpl in Hid.
        eapply nth_error_firstn_some, Hid.
      * exists t. split; [| exact Hsn].
        unfold rerank_pool in Ht. simpl in Ht.
        eapply nth_error_firstn_some, Ht.
  - inversion Hrun; subst out. destruct Hr.
  - discriminate Hrun.
Qed.

Lemma results_come_from_the_index_witness :
  argsort_spec reference_numpy
  /\ _search_single_sentence reference_numpy two_results same_text
       archive_up archive_query "u" "p" = (two_trace, Ok two_out)
  /\ Forall (fun r => exists row, In row archive_rows
                                  /\ chunk_id r = row_id row) two_out.
Proof.
  assert (Hrun : _search_single_sentence reference_numpy two_results same_text
                   archive_up archive_query "u" "p" = (two_trace, Ok two_out))
    by (vm_compute; reflexivity).
  split; [exact reference_numpy_ok |]. split; [exact Hrun |].
  pose proof (results_come_from_the_index reference_numpy two_results
                same_text archive_up archive_query "u" "p" two_trace two_out
                reference_numpy_ok Hrun) as H.
  eapply Forall_impl; [| exact H].
  intros r (_ & _ & e & lim & row & _ & Hrow & Hid & _).
  exists row. split; [exact Hrow | exact Hid].
Defined.

(** * The order and the number of the fused results *)

Lemma boosted_scores_length (np : Numpy) (cfg : Config) (q : string)
  (ids : list Z) (texts : list string) (sims_o fs : list Q) :
  boosted_scores np cfg q ids texts sims_o = Ok fs ->
  List.length fs = List.length ids.
Proof.
  unfold boosted_scores. intros H.
  apply bind_ok in H. destruct H as (weighted & _ & H).
  apply bind_ok in H. destruct H as (rrf & Hrrf & H).
  apply bind_ok in H. destruct H as ([[j p] d] & _ & H).
  apply final_scores_of_spec in H. destruct H as (Hlen & _).
  rewrite Hlen. unfold rrf_scores_of in Hrrf.
  apply mapM_length in Hrrf. now rewrite Hrrf, length_seq.
Qed.

Lemma scored_docs_sorted (ids : list Z) (texts : list string)
  (fs : list Q) :
  StronglySorted (fun a b => (doc_score b <= doc_score a)%Q)
    (scored_docs_of ids texts fs).
Proof.
  unfold scored_docs_of.
  assert (H : StronglySorted
                (fun a b : Doc =>
                   Qle_bool (doc_score b) (doc_score a) = true)
                (sort_by (fun a b => Qle_bool (doc_score b) (doc_score a))
                         (combine (combine ids texts) fs))).
  { apply sort_by_sorted.
    - intros x y. apply Qle_bool_total.
    - intros x y z Hxy Hyz. eapply Qle_bool_trans; eassumption. }
  revert H. generalize (sort_by (fun a b => Qle_bool (doc_score b) (doc_score a))
                          (combine (combine ids texts) fs)).
  intros l H. induction H as [| a l Hs IH Hf]; constructor; [exact IH |].
  eapply Forall_impl; [| exact Hf]. intros b. apply Qle_bool_iff.
Qed.

Lemma scored_docs_length (ids : list Z) (texts : list string) (fs : list Q) :
  List.length texts = List.length ids ->
  List.length fs = List.length ids ->
  List.length (scored_docs_of ids texts fs) = List.length ids.
Proof.
  intros Ht Hf. unfold scored_docs_of.
  rewrite sort_by_length. unfold Doc. rewrite !length_combine. lia.
Qed.

Lemma mmr_loop_prefix (cfg : Config) (md5 : string -> string)
  (ids : list Z) (text_hashes : list string) (cache_map : Dict) (qv : vec)
  (fuel : nat) :
  forall selected remaining final,
    mmr_loop cfg md5 fuel ids text_hashes cache_map qv selected remaining
    = Ok final ->
    exists more, final = selected ++ more.
Proof.
  induction fuel as [| fuel IH]; intros selected remaining final H;
    simpl in H.
  - inversion H; subst. exists []. now rewrite app_nil_r.
  - destruct ((List.length selected <? K_FINAL cfg)
              && negb (List.length remaining =? 0)).
    + apply bind_ok in H. destruct H as (best_idx & _ & H).
      apply bind_ok in H. destruct H as (d & _ & H).
      apply IH in H. destruct H as (more & ->).
      exists (d :: more). now rewrite <- app_assoc.
    + inversion H; subst. exists []. now rewrite app_nil_r.
Qed.

Lemma sorted_map {A B : Type} (R : A -> A -> Prop) (R' : B -> B -> Prop)
  (f : A -> B) (l : list A) :
  (forall a b, R a b -> R' (f a) (f b)) ->
  StronglySorted R l -> StronglySorted R' (map f l).
Proof.
  intros HR. induction 1 as [| a l Hs IH Hf]; simpl; constructor;
    [exact IH |].
  apply Forall_map. eapply Forall_impl; [| exact Hf]. intros b. apply HR.
Qed.

Lemma sorted_firstn {A : Type} (R : A -> A -> Prop) (n : nat) (l : list A) :
  StronglySorted R l -> StronglySorted R (firstn n l).
Proof.
  intros H. rewrite <- (firstn_skipn n l) in H.
  eapply sorted_app_left, H.
Qed.

Lemma nth_error_combine_some {A B : Type} (l : list A) (l' : list B)
  (i : nat) (a : A) (b : B) :
  nth_error l i = Some a -> nth_error l' i = Some b ->
  nth_error (combine l l') i = Some (a, b).
Proof.
  revert l' i. induction l as [| x l IH]; intros [| y l'] [| i] Ha Hb;
    simpl in *; try discriminate.
  - congruence.
  - now apply IH.
Qed.

Lemma sorted_head_greatest (l : list Doc) (top d : Doc) :
  StronglySorted (fun a b => (doc_score b <= doc_score a)%Q) l ->
  hd_error l = Some top -> In d l -> (doc_score d <= doc_score top)%Q.
Proof.
  intros Hs Hhd Hd. destruct l as [| x l]; [discriminate |].
  inversion Hhd; subst x. inversion Hs as [| ? ? _ Hf]; subst.
  destruct Hd as [<- | Hd]; [apply Qle_refl |].
  rewrite Forall_forall in Hf. now apply Hf.
Qed.

(** X15.  The results of the fusion path, for as many texts as chunk ids
    and [K_FINAL] at least 1: there are min(K_FINAL, number of candidates)
    of them; the first one has the greatest final score of all candidates,
    whether the MMR pass runs or not; and when the MMR pass does not run the
    results are the first ones in the order of decreasing final score. *)
Theorem fusion_best_first (np : Numpy) (cfg : Config)
  (md5 : string -> string) (uid path q : string) (ids : list Z)
  (texts text_hashes : list string) (cache_map : Dict) (qv : vec)
  (sims_o : list Q) (out : list Result) :
  1 <= K_FINAL cfg ->
  List.length texts = List.length ids ->
  fuse np cfg md5 uid path q ids texts text_hashes cache_map qv sims_o
  = Ok out ->
  exists final_scores,
    boosted_scores np cfg q ids texts sims_o = Ok final_scores
    /\ List.length out = Nat.min (K_FINAL cfg) (List.length ids)
    /\ (forall first s,
          hd_error out = Some first -> In s final_scores ->
          (s <= score first)%Q)
    /\ (mmr_gate cfg ids sims_o (scored_docs_of ids texts final_scores)
        = false ->
        StronglySorted (fun r r' => (score r' <= score r)%Q) out
        /\ map chunk_id out
           = map doc_id (firstn (K_FINAL cfg)
                                (scored_docs_of ids texts final_scores))).
Proof.
  intros HK Htexts Hrun. unfold fuse in Hrun.
  apply bind_ok in Hrun. destruct Hrun as (fs & Hfs & Hrun).
  apply bind_ok in Hrun. destruct Hrun as (docs & Hdocs & Hrun).
  inversion Hrun; subst out. clear Hrun.
  exists fs. split; [exact Hfs |].
  pose proof (boosted_scores_length _ _ _ _ _ _ _ Hfs) as Hlen.
  pose proof (scored_docs_length ids texts fs Htexts Hlen) as Hslen.
  pose proof (scored_docs_sorted ids texts fs) as Hsorted.
  set (scored := scored_docs_of ids texts fs) in *.
  assert (Hscore : forall s, In s fs -> exists d, In d scored
                                                  /\ doc_score d = s).
  { intros s Hs. apply In_nth_error in Hs. destruct Hs as (i & Hi).
    assert (Hi' : i < List.length ids).
    { rewrite <- Hlen. apply nth_error_Some. congruence. }
    destruct (nth_error ids i) as [id |] eqn:Eid;
      [| apply nth_error_None in Eid; lia].
    destruct (nth_error texts i) as [t |] eqn:Et;
      [| apply nth_error_None in Et; lia].
    exists (id, t, s). split; [| reflexivity].
    eapply Permutation_in;
      [apply Permutation_sym, scored_docs_perm |].
    apply (nth_error_In _ i).
    apply nth_error_combine_some; [| exact Hi].
    now apply nth_error_combine_some. }
  assert (Hhead : exists more, docs = firstn 1 scored ++ more).
  { unfold select_final in Hdocs.
    destruct (mmr_gate cfg ids sims_o scored).
    - unfold mmr_select in Hdocs.
      destruct scored as [| top remaining]; [discriminate |].
      apply mmr_loop_prefix in Hdocs. exact Hdocs.
    - inversion Hdocs; subst docs.
      exists (skipn 1 (firstn (K_FINAL cfg) scored)).
      rewrite <- (firstn_skipn 1 (firstn (K_FINAL cfg) scored)) at 1.
      f_equal. rewrite firstn_firstn. f_equal. lia. }
  split; [| split].
  - unfold emit. rewrite length_map.
    unfold select_final in Hdocs.
    destruct (mmr_gate cfg ids sims_o scored) eqn:Egate.
    + unfold mmr_select in Hdocs.
      destruct scored as [| top remaining] eqn:Es; [discriminate |].
      apply mmr_loop_complete in Hdocs; [| lia | simpl; lia].
      rewrite Hdocs. simpl in Hslen. simpl. lia.
    + inversion Hdocs; subst docs. rewrite length_firstn. lia.
  - intros first s Hfirst Hs.
    destruct (Hscore s Hs) as (d & Hd & <-).
    destruct Hhead as (more & ->).
    destruct scored as [| top rest] eqn:Es; [destruct Hd |].
    simpl in Hfirst. inversion Hfirst; subst first. simpl.
    change (doc_score d <= doc_score top)%Q.
    now apply (sorted_head_greatest (top :: rest)).
  - intros Egate. unfold select_final in Hdocs. rewrite Egate in Hdocs.
    inversion Hdocs; subst docs. split.
    + unfold emit. apply (sorted_map
                 (fun a b : Doc => (doc_score b <= doc_score a)%Q)).
      * intros a b Hab. exact Hab.
      * now apply sorted_firstn.
    + unfold emit. rewrite map_map. reflexivity.
Qed.

Lemma fusion_best_first_witness :
  1 <= K_FINAL two_results
  /\ List.length fusion_texts = List.length fusion_ids
  /\ fuse reference_numpy two_results same_text "u" "p" archive_query
       fusion_ids fusion_texts fusion_texts fusion_cache fusion_qv
       fusion_sims = Ok two_out
  /\ List.length two_out = 2.
Proof.
  assert (HK : 1 <= K_FINAL two_results) by (simpl; lia).
  assert (Hlen : List.length fusion_texts = List.length fusion_ids)
    by reflexivity.
  assert (Hrun : fuse reference_numpy two_results same_text "u" "p"
                   archive_query fusion_ids fusion_texts fusion_texts
                   fusion_cache fusion_qv fusion_sims = Ok two_out)
    by (vm_compute; reflexivity).
  split; [exact HK |]. split; [exact Hlen |]. split; [exact Hrun |].
  destruct (fusion_best_first reference_numpy two_results same_text "u" "p"
              archive_query fusion_ids fusion_texts fusion_texts fusion_cache
              fusion_qv fusion_sims two_out HK Hlen Hrun)
    as (fs & _ & Hcount & _).
  exact Hcount.
Defined.

(** * What the near-duplicate filter keeps *)

Lemma fold_step_prefix (word_sets : list (list string)) (threshold : Q)
  (order : list nat) :
  forall kept, exists more,
    fold_left (greedy_step word_sets threshold) order kept = kept ++ more.
Proof.
  induction order as [| i order IH]; intros kept; simpl.
  - exists []. now rewrite app_nil_r.
  - unfold greedy_step at 2.
    destruct (accepts word_sets threshold kept i).
    + destruct (IH (kept ++ [i])) as (more & ->).
      exists (i :: more). now rewrite <- app_assoc.
    + apply IH.
Qed.

Lemma greedy_keep_head (word_sets : list (list string)) (threshold : Q)
  (i : nat) (order : list nat) :
  exists more, greedy_keep word_sets threshold (i :: order) = i :: more.
Proof.
  unfold greedy_keep. simpl. unfold greedy_step at 2. simpl.
  apply (fold_step_prefix word_sets threshold order [i]).
Qed.

Lemma of_nat_pos (n : nat) : 1 <= n -> (0 < of_nat n)%Q.
Proof.
  intros H. unfold of_nat, Qlt. simpl. lia.
Qed.

Lemma jaccard_same_set (a b : list string) :
  a <> [] -> (forall w, In w a <-> In w b) -> NoDup b ->
  (jaccard a b == 1)%Q.
Proof.
  intros Ha Hab Hb. unfold jaccard, inter_size, union_size.
  rewrite forallb_filter_id.
  - rewrite (filter_none (fun x => negb (mem x a)) b).
    + change (List.length (@nil string)) with 0. rewrite Nat.add_0_r.
      assert (Hn : 1 <= List.length a) by (destruct a; simpl; [congruence | lia]).
      rewrite Nat.max_r by exact Hn.
      unfold Qdiv. apply Qmult_inv_r.
      intros E. pose proof (of_nat_pos _ Hn) as Hp. rewrite E in Hp.
      now apply Qlt_irrefl in Hp.
    + intros x Hx. apply negb_false_iff, mem_In, Hab, Hx.
  - apply forallb_forall. intros x Hx. apply mem_In, Hab, Hx.
Qed.

Lemma nth_word_set (texts : list string) (i : nat) :
  nth i (map word_set texts) [] = word_set (nth i texts "").
Proof. exact (map_nth word_set texts "" i). Qed.

(** X16.  Of at least one candidate, with a score for every text, the
    filter keeps the one with the greatest score first; and with a threshold
    of at most 1 it never keeps two candidates with the same set of tokens,
    unless they have no token at all. *)
Theorem dedup_keeps_best_and_one_copy (np : Numpy) (texts : list string)
  (scores : list Q) (threshold : Q) :
  argsort_spec np ->
  List.length scores = List.length texts ->
  1 <= List.length texts ->
  exists keep,
    _jaccard_dedup np texts scores threshold = Ok keep
    /\ (exists best more,
          keep = best :: more
          /\ best < List.length texts
          /\ forall j, j < List.length texts ->
                       (nth j scores 0 <= nth best scores 0)%Q)
    /\ ((threshold <= 1)%Q ->
        forall i j,
          In i keep -> In j keep -> i <> j ->
          tok (nth i texts "") <> [] ->
          ~ (forall w, In w (tok (nth i texts ""))
                       <-> In w (tok (nth j texts "")))).
Proof.
  intros np_ok Hlen Hone.
  destruct (Nat.le_gt_cases (List.length texts) 1) as [Hle | Hgt].
  - assert (E : List.length texts = 1) by lia.
    exists [0]. unfold _jaccard_dedup. rewrite E. simpl.
    split; [reflexivity |]. split.
    + exists 0, []. split; [reflexivity |]. split; [lia |].
      intros j Hj. assert (j = 0) by lia. subst j. apply Qle_refl.
    + intros _ i j [<- | []] [<- | []] Hne. congruence.
  - exists (greedy_keep (map word_set texts) threshold
              (np_argsort np (map Qopp scores))).
    split; [now apply jaccard_dedup_greedy |].
    pose proof (argsort_perm np np_ok (map Qopp scores)) as Hperm.
    rewrite length_map in Hperm.
    pose proof (argsort_descending np np_ok scores) as Hsorted.
    split.
    + destruct (np_argsort np (map Qopp scores)) as [| best rest] eqn:Eo.
      * apply Permutation_length in Hperm. rewrite length_seq in Hperm.
        simpl in Hperm. lia.
      * destruct (greedy_keep_head (map word_set texts) threshold best rest)
          as (more & ->).
        exists best, more. split; [reflexivity |].
        assert (Hin : forall j, j < List.length texts -> In j (best :: rest)).
        { intros j Hj. eapply Permutation_in;
            [apply Permutation_sym, Hperm |].
          apply in_seq. lia. }
        split.
        -- assert (Hb : In best (seq 0 (List.length scores))).
           { eapply Permutation_in; [exact Hperm | now left]. }
           apply in_seq in Hb. lia.
        -- intros j Hj. inversion Hsorted as [| ? ? _ Hf]; subst.
           destruct (Hin j Hj) as [<- | Hrest]; [apply Qle_refl |].
           rewrite Forall_forall in Hf. now apply Hf.
    + intros Hthr i j Hi Hj Hne Htok Hsame.
      assert (Hapart : apart (map word_set texts) threshold
                         (greedy_keep (map word_set texts) threshold
                            (np_argsort np (map Qopp scores)))).
      { apply fold_step_apart; [apply word_sets_all_NoDup |].
        intros a b []. }
      specialize (Hapart i j Hi Hj Hne).
      rewrite !nth_word_set in Hapart.
      assert (Hone' : (jaccard (word_set (nth i texts ""))
                               (word_set (nth j texts "")) == 1)%Q).
      { apply jaccard_same_set.
        - unfold word_set. intros E. apply Htok.
          destruct (tok (nth i texts "")) as [| t ts]; [reflexivity |].
          assert (Hin : In t (dedup (t :: ts)))
            by (apply dedup_In; now left).
          rewrite E in Hin. destruct Hin.
        - intros w. unfold word_set. rewrite !dedup_In. apply Hsame.
        - apply dedup_NoDup. }
      rewrite Hone' in Hapart. apply Qlt_not_le in Hapart.
      now apply Hapart.
Qed.

Lemma dedup_keeps_best_witness :
  argsort_spec reference_numpy
  /\ List.length dedup_scores = List.length dedup_texts
  /\ 1 <= List.length dedup_texts
  /\ exists keep,
       _jaccard_dedup reference_numpy dedup_texts dedup_scores 0.83%Q
       = Ok keep
       /\ exists best more, keep = best :: more.
Proof.
  assert (Hlen : List.length dedup_scores = List.length dedup_texts)
    by reflexivity.
  assert (Hone : 1 <= List.length dedup_texts) by (simpl; lia).
  split; [exact reference_numpy_ok |]. split; [exact Hlen |].
  split; [exact Hone |].
  destruct (dedup_keeps_best_and_one_copy reference_numpy dedup_texts
              dedup_scores 0.83%Q reference_numpy_ok Hlen Hone)
    as (keep & Hrun & (best & more & Hkeep & _) & _).
  exists keep. split; [exact Hrun |]. exists best, more. exact Hkeep.
Defined.

(** * No exception escapes *)

Lemma bind_total {A B : Type} (m : M A) (k : A -> M B) :
  (exists a, m = Ok a /\ exists b, k a = Ok b) -> exists b, bind m k = Ok b.
Proof. intros (a & -> & b & Hb). exists b. exact Hb. Qed.

Lemma py_div_ok (x y : Q) : ~ (y == 0)%Q -> py_div x y = Ok (x / y)%Q.
Proof.
  intros H. unfold py_div. destruct (Qeq_bool y 0) eqn:E; [| reflexivity].
  apply Qeq_bool_iff in E. contradiction.
Qed.

Lemma of_nat_nonzero (n : nat) : 1 <= n -> ~ (of_nat n == 0)%Q.
Proof.
  intros Hn E. pose proof (of_nat_pos n Hn) as Hp. rewrite E in Hp.
  now apply Qlt_irrefl in Hp.
Qed.

Lemma retrieve_some (np : Numpy) (cfg : Config) (env : Env) (q uid : string)
  (tr : list Event) (scores : list Q) (c : Candidates) :
  retrieve np cfg env q uid = (tr, Ok (Some (scores, c))) ->
  scores <> []
  /\ exists rows, rows <> [] /\ select_candidates np cfg rows = Ok c.
Proof.
  unfold retrieve.
  destruct (_fts_or (_keywords q 16)) as [e |]; [| discriminate].
  destruct (String.eqb e ""); [discriminate |].
  destruct (fts env e uid (K_SQL cfg)) as [| row rows] eqn:Erows;
    [discriminate |].
  destruct (initial_docs_of (row :: rows)) as [docs | ex] eqn:Edocs;
    [| discriminate].
  pose proof (prf_stage_cases np cfg env uid q (_keywords q 16) (row :: rows)
                docs) as Hprf.
  cbv zeta in Hprf.
  destruct (prf_stage np cfg env uid q (_keywords q 16) (row :: rows) docs)
    as [tr1 rows'].
  simpl in Hprf. destruct Hprf as (_ & Hrows).
  intros H. injection H as Htr Hc.
  destruct (select_candidates np cfg rows') as [c' |] eqn:Ec;
    [| discriminate Hc].
  simpl in Hc. injection Hc as Hs Hc'. subst scores c'.
  split.
  - unfold initial_docs_of in Edocs. apply mapM_length in Edocs.
    destruct docs; [discriminate Edocs | discriminate].
  - exists rows'. split; [| exact Ec].
    destruct Hrows as [-> | (e' & lim & _ & Hne)];
      [discriminate | exact Hne].
Qed.

Lemma candidates_nonempty (np : Numpy) (cfg : Config) (rows : list Row)
  (c : Candidates) :
  argsort_spec np -> 1 <= TOP_OAI cfg -> rows <> [] ->
  select_candidates np cfg rows = Ok c -> c_ids c <> [].
Proof.
  intros np_ok Htop Hrows H. unfold select_candidates in H.
  apply bind_ok in H. destruct H as (braw & Hbraw & H).
  assert (Htopne : firstn (TOP_OAI cfg) rows <> []).
  { destruct rows; [congruence |].
    destruct (TOP_OAI cfg); [lia | discriminate]. }
  destruct (1 <? List.length (map row_text (firstn (TOP_OAI cfg) rows))).
  - apply bind_ok in H. destruct H as (keep & Hkeep & H).
    apply bind_ok in H. destruct H as (ids' & Hids & H).
    apply bind_ok in H. destruct H as (texts' & _ & H).
    apply bind_ok in H. destruct H as (hashes' & _ & H).
    apply bind_ok in H. destruct H as (bnorm' & _ & H).
    inversion H; subst c. simpl. clear H.
    rewrite (jaccard_dedup_greedy np np_ok) in Hkeep.
    + inversion Hkeep; subst keep. clear Hkeep.
      pose proof (argsort_perm np np_ok (map Qopp (_minmax braw))) as Hperm.
      destruct (np_argsort np (map Qopp (_minmax braw))) as [| i rest].
      * apply Permutation_length in Hperm.
        rewrite length_seq, length_map, minmax_length in Hperm.
        apply mapM_length in Hbraw. simpl in Hperm.
        destruct (firstn (TOP_OAI cfg) rows); [congruence |].
        simpl in Hbraw. lia.
      * destruct (greedy_keep_head
                    (map word_set (map row_text (firstn (TOP_OAI cfg) rows)))
                    (JACCARD_THRESHOLD cfg) i rest) as (more & Hk).
        rewrite Hk in Hids. apply (pick_ok _ _ _ 0%Z) in Hids.
        destruct Hids as (-> & _). discriminate.
    + rewrite minmax_length, length_map.
      now apply mapM_length in Hbraw.
  - inversion H; subst c. simpl.
    destruct (firstn (TOP_OAI cfg) rows); [congruence | discriminate].
Qed.

Lemma adaptive_budget_pos (np : Numpy) (scores : list Q) :
  scores <> [] -> 1 <= _adaptive_budget np scores.
Proof.
  intros H. unfold _adaptive_budget.
  assert (Hn : 1 <= List.length scores)
    by (destruct scores; simpl; [congruence | lia]).
  destruct (List.length scores <? 10); [lia |].
  repeat match goal with
         | |- context [if ?b then _ else _] => destruct b
         end; lia.
Qed.

Lemma normalize_total (arr : list Q) :
  arr <> [] ->
  exists out, normalize arr = Ok out /\ List.length out = List.length arr.
Proof.
  destruct arr as [| x arr]; [congruence |]. intros _.
  eexists. split; [reflexivity |]. now rewrite length_map.
Qed.

Lemma boost_features_total (texts : list string) (q : string) :
  texts <> [] ->
  exists j p d,
    _compute_boost_features texts q = Ok (j, p, d)
    /\ List.length j = List.length texts
    /\ List.length p = List.length texts
    /\ List.length d = List.length texts.
Proof.
  intros H. unfold _compute_boost_features.
  assert (Hmap : forall f : string -> Q, map f texts <> []).
  { intros f. destruct texts; [congruence | discriminate]. }
  destruct (normalize_total _ (Hmap (jaccard_feature
                                       (dedup (boost_tokens q)))))
    as (j & Hj & Lj).
  destruct (normalize_total _ (Hmap (phrase_feature
                                       (query_phrases (boost_tokens q)))))
    as (p & Hp & Lp).
  destruct (normalize_total _
              (Hmap (digit_feature
                       (dedup (digit_runs (join " " (boost_tokens q)))))))
    as (d & Hd & Ld).
  exists j, p, d. rewrite length_map in Lj, Lp, Ld.
  split; [| auto]. cbv zeta. rewrite Hj. cbn [bind]. rewrite Hp. cbn [bind].
  rewrite Hd. reflexivity.
Qed.

Lemma embed_ranks_length (weighted : list Q) :
  List.length (embed_ranks_of weighted) = List.length weighted.
Proof. unfold embed_ranks_of. now rewrite length_map, length_seq. Qed.

Lemma rrf_scores_total (cfg : Config) (n : nat) (embed_ranks : list nat) :
  1 <= RRF_K cfg -> n <= List.length embed_ranks ->
  exists rrf, rrf_scores_of cfg n embed_ranks = Ok rrf.
Proof.
  intros HK Hlen. unfold rrf_scores_of. apply mapM_total.
  apply Forall_forall. intros j Hj. apply in_seq in Hj.
  rewrite py_div_ok by (apply of_nat_nonzero; lia). cbn [bind].
  destruct (py_index_lt embed_ranks j) as (er & Her); [lia |].
  rewrite Her. cbn [bind].
  rewrite py_div_ok by (apply of_nat_nonzero; lia). cbn [bind]. eauto.
Qed.

Lemma final_scores_total (rrf j p d : list Q) :
  List.length rrf <= List.length j ->
  List.length rrf <= List.length p ->
  List.length rrf <= List.length d ->
  exists fs, final_scores_of rrf j p d = Ok fs.
Proof.
  intros Hj Hp Hd. unfold final_scores_of. apply mapM_total.
  apply Forall_forall. intros i Hi. apply in_seq in Hi.
  destruct (py_index_lt rrf i) as (x1 & H1); [lia |].
  destruct (py_index_lt j i) as (x2 & H2); [lia |].
  destruct (py_index_lt p i) as (x3 & H3); [lia |].
  destruct (py_index_lt d i) as (x4 & H4); [lia |].
  rewrite H1. cbn [bind]. rewrite H2. cbn [bind]. rewrite H3. cbn [bind].
  rewrite H4. cbn [bind]. eauto.
Qed.

Lemma boosted_scores_total (np : Numpy) (cfg : Config) (q : string)
  (ids : list Z) (texts : list string) (sims_o : list Q) :
  1 <= RRF_K cfg -> texts <> [] ->
  List.length texts = List.length ids ->
  List.length sims_o = List.length ids ->
  exists fs, boosted_scores np cfg q ids texts sims_o = Ok fs.
Proof.
  intros HK Hne Ht Hs. unfold boosted_scores.
  set (onorm := if existsb (fun s => negb (Qeq_bool s 0)) sims_o
                then _minmax sims_o else map (fun _ => 0%Q) ids).
  assert (Ho : List.length onorm = List.length ids).
  { unfold onorm. destruct (existsb _ sims_o).
    - now rewrite minmax_length.
    - now rewrite length_map. }
  apply bind_total.
  destruct (mapM_total
              (fun i => o <- py_index onorm i ;;
                        Ok (o * embedding_weight np sims_o)%Q)
              (seq 0 (List.length ids))) as (weighted & Hw).
  { apply Forall_forall. intros i Hi. apply in_seq in Hi.
    destruct (py_index_lt onorm i) as (o & Hoi); [lia |].
    rewrite Hoi. cbn [bind]. eauto. }
  exists weighted. split; [exact Hw |].
  apply mapM_length in Hw. rewrite length_seq in Hw.
  apply bind_total.
  destruct (rrf_scores_total cfg (List.length ids) (embed_ranks_of weighted) HK)
    as (rrf & Hrrf).
  { rewrite embed_ranks_length. lia. }
  exists rrf. split; [exact Hrrf |].
  unfold rrf_scores_of in Hrrf. apply mapM_length in Hrrf.
  rewrite length_seq in Hrrf.
  apply bind_total.
  destruct (boost_features_total texts q Hne) as (j & p & d & Hb & Lj & Lp & Ld).
  exists (j, p, d). split; [exact Hb |].
  apply final_scores_total; lia.
Qed.

Lemma index_of_lt (x : Z) (l : list Z) (k : nat) :
  index_of x l = Some k -> k < List.length l.
Proof.
  revert k. induction l as [| y l IH]; simpl; intros k H; [discriminate |].
  destruct (Z.eqb x y); [inversion H; lia |].
  destruct (index_of x l) as [k' |]; [| discriminate H].
  simpl in H. inversion H. specialize (IH k' eq_refl). lia.
Qed.

Section MmrTotal.

Variable md5 : string -> string.
Variable ids : list Z.
Variable text_hashes : list string.
Variable cache_map : Dict.
Variable qv : vec.
Hypothesis hashes_length : List.length text_hashes = List.length ids.

Lemma hash_of_total (d : Doc) :
  exists h, hash_of md5 ids text_hashes d = Ok h.
Proof.
  unfold hash_of. destruct (index_of (doc_id d) ids) as [k |] eqn:E;
    [| eauto].
  apply py_index_lt. apply index_of_lt in E. lia.
Qed.

Lemma max_similarity_total (doc_vec : vec) (selected : list Doc) :
  forall max_sim, exists s,
    max_similarity md5 ids text_hashes cache_map doc_vec selected max_sim
    = Ok s.
Proof.
  induction selected as [| sel selected IH]; intros max_sim;
    cbn [max_similarity]; [eauto |].
  destruct (hash_of_total sel) as (h & Hh). rewrite Hh. cbn [bind].
  destruct (dict_get h cache_map); apply IH.
Qed.

Lemma mmr_scan_total (selected remaining : list Doc) :
  forall i best_idx best_score, exists b,
    mmr_scan md5 ids text_hashes cache_map qv selected remaining i best_idx
      best_score = Ok b
    /\ (b = best_idx \/ (i <= b /\ b < i + List.length remaining)).
Proof.
  induction remaining as [| d remaining IH]; intros i best_idx best_score;
    cbn [mmr_scan].
  - exists best_idx. auto.
  - destruct (hash_of_total d) as (h & Hh). rewrite Hh. cbn [bind].
    destruct (dict_get h cache_map) as [doc_vec |].
    + destruct (max_similarity_total doc_vec selected 0%Q) as (s & Hs).
      rewrite Hs. cbn [bind].
      destruct (beats (0.7 * dot doc_vec qv - (1 - 0.7) * s) best_score).
      * destruct (IH (S i) i (Some (0.7 * dot doc_vec qv - (1 - 0.7) * s)%Q))
          as (b & Hb & Hr).
        exists b. split; [exact Hb |]. right. simpl. lia.
      * destruct (IH (S i) best_idx best_score) as (b & Hb & Hr).
        exists b. split; [exact Hb |].
        destruct Hr as [-> | Hr]; [now left | right; simpl; lia].
    + destruct (IH (S i) best_idx best_score) as (b & Hb & Hr).
      exists b. split; [exact Hb |].
      destruct Hr as [-> | Hr]; [now left | right; simpl; lia].
Qed.

Lemma mmr_loop_total (cfg : Config) (fuel : nat) :
  forall selected remaining, exists final,
    mmr_loop cfg md5 fuel ids text_hashes cache_map qv selected remaining
    = Ok final.
Proof.
  induction fuel as [| fuel IH]; intros selected remaining; cbn [mmr_loop];
    [eauto |].
  destruct ((List.length selected <? K_FINAL cfg)
            && negb (List.length remaining =? 0)) eqn:E; [| eauto].
  apply andb_true_iff in E. destruct E as (_ & E).
  apply negb_true_iff, Nat.eqb_neq in E.
  destruct (mmr_scan_total selected remaining 0 0 None) as (b & Hb & Hr).
  rewrite Hb. cbn [bind].
  destruct (py_index_lt remaining b) as (d & Hd); [lia |].
  rewrite Hd. cbn [bind]. apply IH.
Qed.

Lemma select_final_total (cfg : Config) (sims_o : list Q)
  (scored_docs : list Doc) :
  exists final,
    select_final cfg md5 ids text_hashes cache_map qv sims_o scored_docs
    = Ok final.
Proof.
  unfold select_final. destruct (mmr_gate cfg ids sims_o scored_docs) eqn:E;
    [| eauto].
  unfold mmr_gate in E. apply andb_true_iff in E. destruct E as (E & _).
  apply Nat.ltb_lt in E. unfold mmr_select.
  destruct scored_docs as [| top remaining]; [simpl in E; lia |].
  apply mmr_loop_total.
Qed.

End MmrTotal.

Lemma similarities_length (cache_map : Dict) (qv : vec)
  (text_hashes : list string) :
  List.length (similarities cache_map qv text_hashes)
  = List.length text_hashes.
Proof. unfold similarities. apply length_map. Qed.

Lemma fuse_total (np : Numpy) (cfg : Config) (md5 : string -> string)
  (uid path q : string) (ids : list Z) (texts text_hashes : list string)
  (cache_map : Dict) (qv : vec) (sims_o : list Q) :
  1 <= RRF_K cfg -> texts <> [] ->
  List.length texts = List.length ids ->
  List.length text_hashes = List.length ids ->
  List.length sims_o = List.length ids ->
  exists out,
    fuse np cfg md5 uid path q ids texts text_hashes cache_map qv sims_o
    = Ok out.
Proof.
  intros HK Hne Ht Hh Hs. unfold fuse.
  destruct (boosted_scores_total np cfg q ids texts sims_o HK Hne Ht Hs)
    as (fs & Hfs).
  rewrite Hfs. cbn [bind].
  destruct (select_final_total md5 ids text_hashes cache_map qv Hh cfg sims_o
              (scored_docs_of ids texts fs)) as (final & Hfinal).
  rewrite Hfinal. cbn [bind]. eauto.
Qed.

Lemma rerank_total (np : Numpy) (cfg : Config) (md5 : string -> string)
  (env : Env) (uid path q : string) (pool : Candidates) :
  1 <= RRF_K cfg ->
  (forall texts V, oai_embed env texts = Some V ->
                   List.length V = List.length texts) ->
  c_texts pool <> [] ->
  List.length (c_texts pool) = List.length (c_ids pool) ->
  List.length (c_hashes pool) = List.length (c_ids pool) ->
  List.length (c_ids pool) <= List.length (c_bnorm pool) ->
  exists out, snd (rerank np cfg md5 env uid path q pool) = Ok out.
Proof.
  intros HK Hprov Hne Ht Hh Hb. unfold rerank.
  assert (Hinput : List.length (embed_input_of env q pool)
                   = S (List.length
                          (snd (cache_lookup env (c_hashes pool)
                                  (c_texts pool))))).
  { unfold embed_input_of. simpl. now rewrite length_map. }
  assert (Hembed : _oai_embed env (embed_input_of env q pool)
                   = oai_embed env (embed_input_of env q pool))
    by reflexivity.
  rewrite Hembed.
  destruct (cache_lookup env (c_hashes pool) (c_texts pool)) as [cm need].
  cbn [snd] in Hinput.
  destruct (oai_embed env (embed_input_of env q pool)) as [V |] eqn:EV.
  - apply Hprov in EV. rewrite Hinput in EV.
    destruct (py_index_lt V 0) as (qv & Hqv); [lia |]. rewrite Hqv.
    cbn [bind].
    destruct (new_vectors_total V need 0) as (fresh & Hfresh); [lia |].
    unfold new_vectors. rewrite Hfresh. cbn [bind snd].
    apply fuse_total; auto.
    rewrite similarities_length. exact Hh.
  - cbn [snd].
    rewrite (bm25_results_eq cfg S1_embed_fail uid path q pool) by lia.
    eauto.
Qed.

(** *** The dimension of the vectors a search multiplies *)

Lemma dict_get_dim (dim : nat) (d : Dict) (h : string) (v : vec) :
  Forall (fun e : string * vec => List.length (snd e) = dim) d ->
  dict_get h d = Some v -> List.length v = dim.
Proof.
  induction d as [| [k w] d IH]; simpl; intros Hd H; [discriminate |].
  apply Forall_cons_iff in Hd. destruct Hd as (Hw & Hd').
  destruct (String.eqb h k); [| now apply IH].
  injection H as <-. exact Hw.
Qed.

Lemma dict_update_dim (dim : nat) (entries : list (string * vec)) :
  forall d,
    Forall (fun e : string * vec => List.length (snd e) = dim) entries ->
    Forall (fun e : string * vec => List.length (snd e) = dim) d ->
    Forall (fun e : string * vec => List.length (snd e) = dim)
           (dict_update entries d).
Proof.
  unfold dict_update.
  induction entries as [| [k v] entries IH]; simpl; intros d He Hd;
    [exact Hd |].
  apply Forall_cons_iff in He. destruct He as (Hv & He').
  apply IH; [exact He' |]. unfold dict_set. now constructor.
Qed.

Lemma cache_lookup_dim (dim : nat) (env : Env)
  (text_hashes texts : list string) :
  vectors_of_dim dim env ->
  Forall (fun e : string * vec => List.length (snd e) = dim)
         (fst (cache_lookup env text_hashes texts)).
Proof.
  intros (Hsel & Hlru & _). unfold cache_lookup.
  assert (Hfold : forall l st,
             Forall (fun e : string * vec => List.length (snd e) = dim)
                    (fst st) ->
             Forall (fun e : string * vec => List.length (snd e) = dim)
                    (fst (fold_left (cache_step env) l st))).
  { induction l as [| [i [h t]] l IH]; intros [cm need] Hst;
      [exact Hst |].
    cbn [fold_left]. apply IH. unfold cache_step. cbn [fst] in Hst.
    destruct (dict_get h cm) as [v |] eqn:Eg.
    - cbn [fst]. unfold dict_set. constructor; [| exact Hst].
      exact (dict_get_dim dim cm h v Hst Eg).
    - destruct (lru_get env h) as [v |] eqn:El; [| exact Hst].
      cbn [fst]. unfold dict_set. constructor; [| exact Hst].
      exact (Hlru h v El). }
  apply Hfold. cbn [fst]. apply dict_update_dim; [| constructor].
  apply Forall_forall. intros [h v] Hin. exact (Hsel text_hashes h v Hin).
Qed.

Lemma skipped_In {A : Type} (n : nat) (l : list A) (x : A) :
  In x (skipn n l) -> In x l.
Proof.
  intros H. rewrite <- (firstn_skipn n l). apply in_or_app. now right.
Qed.

Lemma new_vectors_dim (dim : nat) (V : list vec)
  (need : list (nat * string * string)) (fresh : list (string * vec)) :
  (forall v, In v V -> List.length v = dim) ->
  new_vectors V need = Ok fresh ->
  Forall (fun e : string * vec => List.length (snd e) = dim) fresh.
Proof.
  intros HV H. destruct (new_vectors_from V need 0 fresh H) as (_ & Hsnd).
  apply Forall_forall. intros e He. apply HV.
  assert (Hin : In (snd e) (map snd fresh)) by now apply in_map.
  rewrite Hsnd in Hin. apply In_firstn in Hin.
  exact (skipped_In _ _ _ Hin).
Qed.

Lemma matmul_of_dim (dim : nat) (u v : vec) :
  List.length u = dim -> List.length v = dim -> matmul u v = Ok (dot u v).
Proof.
  intros Hu Hv. unfold matmul. rewrite Hu, Hv, Nat.eqb_refl. reflexivity.
Qed.

Lemma rerank_vectors_of_dim (np : Numpy) (cfg : Config)
  (md5 : string -> string) (env : Env) (uid path q : string)
  (pool : Candidates) (dim : nat) (V : list vec) :
  (forall texts V, oai_embed env texts = Some V ->
                   List.length V = List.length texts) ->
  vectors_of_dim dim env ->
  oai_embed env (embed_input_of env q pool) = Some V ->
  exists qv cache_map,
    snd (rerank np cfg md5 env uid path q pool)
    = fuse np cfg md5 uid path q (c_ids pool) (c_texts pool) (c_hashes pool)
        cache_map qv (similarities cache_map qv (c_hashes pool))
    /\ List.length qv = dim
    /\ Forall (fun e : string * vec => List.length (snd e) = dim) cache_map.
Proof.
  intros Hprov Hdim HV.
  pose proof (cache_lookup_dim dim env (c_hashes pool) (c_texts pool) Hdim)
    as Hcm.
  destruct Hdim as (_ & _ & Hrows).
  unfold rerank.
  assert (Hinput : List.length (embed_input_of env q pool)
                   = S (List.length
                          (snd (cache_lookup env (c_hashes pool)
                                  (c_texts pool))))).
  { unfold embed_input_of. simpl. now rewrite length_map. }
  assert (Hembed : _oai_embed env (embed_input_of env q pool)
                   = oai_embed env (embed_input_of env q pool))
    by reflexivity.
  rewrite Hembed, HV.
  destruct (cache_lookup env (c_hashes pool) (c_texts pool)) as [cm need].
  cbn [fst snd] in Hinput, Hcm.
  pose proof (Hprov _ _ HV) as HlenV. rewrite Hinput in HlenV.
  destruct (py_index_lt V 0) as (qv & Hqv); [lia |]. rewrite Hqv.
  cbn [bind].
  destruct (new_vectors_total V need 0) as (fresh & Hfresh); [lia |].
  pose proof (new_vectors_dim dim V need fresh
                (fun v => Hrows _ V v HV) Hfresh) as Hfr.
  unfold new_vectors. rewrite Hfresh. cbn [bind snd].
  exists qv, (dict_update fresh cm).
  split; [reflexivity |]. split.
  - apply (Hrows _ V qv HV). apply py_index_ok in Hqv.
    eapply nth_error_In, Hqv.
  - now apply dict_update_dim.
Qed.

(** X17.  A search raises no exception when: no raw BM25 score of the index
    is -1, [TOP_OAI] and [RRF_K] are at least 1, the embedding provider,
    when it answers, returns one vector for every input, and the vectors of
    the embeddings table, of the in-memory cache and of the provider all
    have [dim] components.  When the provider answers, the result is the
    fusion over a query vector and a cache dictionary whose vectors all have
    [dim] components, so that no product [dv @ qv] or [doc_vec @ sel_vec]
    is between arrays of different lengths. *)
Theorem search_never_raises (np : Numpy) (cfg : Config)
  (md5 : string -> string) (env : Env) (q uid path : string) (dim : nat) :
  argsort_spec np ->
  scores_defined env uid ->
  1 <= TOP_OAI cfg ->
  1 <= RRF_K cfg ->
  (forall texts V, oai_embed env texts = Some V ->
                   List.length V = List.length texts) ->
  vectors_of_dim dim env ->
  (exists tr out,
      _search_single_sentence np cfg md5 env q uid path = (tr, Ok out))
  /\ forall tr0 scores c V,
       retrieve np cfg env q uid = (tr0, Ok (Some (scores, c))) ->
       numeric_only q = false ->
       let pool := rerank_pool np scores c in
       oai_embed env (embed_input_of env q pool) = Some V ->
       exists qv cache_map,
         snd (_search_single_sentence np cfg md5 env q uid path)
         = fuse np cfg md5 uid path q (c_ids pool) (c_texts pool)
             (c_hashes pool) cache_map qv
             (similarities cache_map qv (c_hashes pool))
         /\ List.length qv = dim
         /\ forall h dv,
              dict_get h cache_map = Some dv ->
              List.length dv = dim
              /\ matmul dv qv = Ok (dot dv qv)
              /\ forall h' sv, dict_get h' cache_map = Some sv ->
                               matmul dv sv = Ok (dot dv sv).
Proof.
  intros np_ok Hdef Htop HK Hprov Hdim. split.
  - destruct (retrieve_total np cfg np_ok env q uid Hdef) as (r & Hr).
    unfold _search_single_sentence.
    destruct (retrieve np cfg env q uid) as [tr r'] eqn:Eret.
    simpl in Hr. subst r'.
    destruct r as [[scores c] |]; [| eauto].
    destruct (retrieve_some np cfg env q uid tr scores c Eret)
      as (Hscores & rows & Hrows & Hsel).
    pose proof (candidates_nonempty np cfg rows c np_ok Htop Hrows Hsel)
      as Hids.
    apply (select_candidates_from np cfg np_ok) in Hsel.
    destruct (candidates_lengths cfg rows c Hsel) as (Lt & Lh & Lb).
    destruct (numeric_only q).
    + rewrite bm25_results_eq by lia. eauto.
    + pose proof (adaptive_budget_pos np scores Hscores) as Hbudget.
      destruct (rerank_total np cfg md5 env uid path q
                  (rerank_pool np scores c) HK Hprov) as (out & Hout).
      * unfold rerank_pool. simpl.
        destruct (c_texts c) as [| t ts];
          [destruct (c_ids c); [congruence | discriminate Lt] |].
        destruct (c_ids c) as [| i0 ids0]; [congruence |].
        destruct (_adaptive_budget np scores); [lia |]. discriminate.
      * unfold rerank_pool. simpl. rewrite !length_firstn. lia.
      * unfold rerank_pool. simpl. rewrite !length_firstn. lia.
      * unfold rerank_pool. simpl. rewrite !length_firstn. lia.
      * destruct (rerank np cfg md5 env uid path q (rerank_pool np scores c))
          as [tr2 res]. simpl in Hout. subst res. eauto.
  - intros tr0 scores c V Eret Hnum pool HV.
    destruct (rerank_vectors_of_dim np cfg md5 env uid path q pool dim V
                Hprov Hdim HV) as (qv & cm & Hrun & Hqv & Hcm).
    exists qv, cm. split; [| split; [exact Hqv |]].
    + unfold _search_single_sentence. rewrite Eret, Hnum. fold pool.
      destruct (rerank np cfg md5 env uid path q pool) as [tr2 res].
      exact Hrun.
    + intros h dv Hdv.
      pose proof (dict_get_dim dim cm h dv Hcm Hdv) as Ldv.
      split; [exact Ldv |].
      split; [exact (matmul_of_dim dim dv qv Ldv Hqv) |].
      intros h' sv Hsv.
      exact (matmul_of_dim dim dv sv Ldv (dict_get_dim dim cm h' sv Hcm Hsv)).
Qed.

Lemma archive_vectors_of_dim : vectors_of_dim 2 archive_up.
Proof.
  split; [intros hs h v [] |]. split; [intros h v H; discriminate H |].
  intros texts V v H Hin. simpl in H. injection H as <-.
  apply in_map_iff in Hin. destruct Hin as (t & <- & _).
  unfold vector_of. now destruct (contains "ratified" t).
Qed.

Lemma search_never_raises_witness :
  argsort_spec reference_numpy
  /\ scores_defined archive_up "u"
  /\ 1 <= TOP_OAI default_config
  /\ 1 <= RRF_K default_config
  /\ vectors_of_dim 2 archive_up
  /\ exists tr out,
       _search_single_sentence reference_numpy default_config same_text
         archive_up archive_query "u" "p" = (tr, Ok out).
Proof.
  assert (Htop : 1 <= TOP_OAI default_config) by (simpl; lia).
  assert (HK : 1 <= RRF_K default_config) by (simpl; lia).
  assert (Hprov : forall texts V,
            oai_embed archive_up texts = Some V ->
            List.length V = List.length texts).
  { intros texts V H. simpl in H. inversion H. apply length_map. }
  split; [exact reference_numpy_ok |].
  split; [apply archive_scores_defined |].
  split; [exact Htop |]. split; [exact HK |].
  split; [exact archive_vectors_of_dim |].
  exact (proj1 (search_never_raises reference_numpy default_config same_text
                  archive_up archive_query "u" "p" 2 reference_numpy_ok
                  (archive_scores_defined _) Htop HK Hprov
                  archive_vectors_of_dim)).
Defined.

(** * The exceptions a search raises *)

Lemma initial_docs_raise (rows : list Row) (row : Row) :
  In row rows -> (1 + row_r row == 0)%Q ->
  initial_docs_of rows = Raise ZeroDivisionError.
Proof.
  unfold initial_docs_of.
  induction rows as [| r0 rows IH]; intros Hin Hz; [destruct Hin |].
  cbn [mapM]. unfold bm25_score at 1. unfold py_div.
  destruct (Qeq_bool (1 + row_r r0) 0) eqn:E; [reflexivity |].
  cbn [bind].
  destruct Hin as [-> | Hin].
  - apply Qeq_bool_iff in Hz. congruence.
  - rewrite (IH Hin Hz). reflexivity.
Qed.

(** X18.  When the index answers the first query with a row whose raw BM25
    score is -1, the search raises [ZeroDivisionError] right after that
    query: no further call is made. *)
Theorem undefined_bm25_score_raises (np : Numpy) (cfg : Config)
  (md5 : string -> string) (env : Env) (q uid path : string) (e : string)
  (row : Row) :
  _fts_or (_keywords q 16) = Some e ->
  In row (fts env e uid (K_SQL cfg)) ->
  (1 + row_r row == 0)%Q ->
  _search_single_sentence np cfg md5 env q uid path
  = ([EvFts e (K_SQL cfg)], Raise ZeroDivisionError).
Proof.
  intros He Hin Hz.
  assert (Hne : e <> "").
  { destruct (_keywords q 16) as [| k ks] eqn:Ek; [discriminate He |].
    destruct (fts_or_some (k :: ks)) as (e' & He' & Hne'); [discriminate |].
    congruence. }
  unfold _search_single_sentence, retrieve. rewrite He.
  rewrite (eqb_nonempty e Hne).
  destruct (fts env e uid (K_SQL cfg)) as [| r0 rows] eqn:Erows;
    [destruct Hin |].
  rewrite (initial_docs_raise (r0 :: rows) row Hin Hz). reflexivity.
Qed.

Lemma undefined_bm25_score_witness :
  _fts_or (_keywords "act of 1789" 16)
  = Some ("1789 OR " ++ dquote ++ "act" ++ dquote)%string
  /\ snd (_search_single_sentence reference_numpy default_config same_text
            minus_one_env "act of 1789" "u" "p")
     = Raise ZeroDivisionError.
Proof.
  assert (He : _fts_or (_keywords "act of 1789" 16)
               = Some ("1789 OR " ++ dquote ++ "act" ++ dquote)%string)
    by reflexivity.
  split; [exact He |].
  rewrite (undefined_bm25_score_raises reference_numpy default_config
             same_text minus_one_env "act of 1789" "u" "p" _
             (mk_row 1 "the act of 1789" (- (1))%Q) He).
  - reflexivity.
  - simpl. now left.
  - reflexivity.
Defined.

Lemma rrf_scores_zero (cfg : Config) (n : nat) (embed_ranks : list nat) :
  RRF_K cfg = 0 -> 1 <= n ->
  rrf_scores_of cfg n embed_ranks = Raise ZeroDivisionError.
Proof.
  intros HK Hn. unfold rrf_scores_of.
  destruct n as [| n]; [lia |]. cbn [seq mapM]. rewrite HK. reflexivity.
Qed.

Lemma boosted_scores_zero (np : Numpy) (cfg : Config) (q : string)
  (ids : list Z) (texts : list string) (sims_o : list Q) :
  RRF_K cfg = 0 -> ids <> [] ->
  List.length sims_o = List.length ids ->
  boosted_scores np cfg q ids texts sims_o = Raise ZeroDivisionError.
Proof.
  intros HK Hne Hs. unfold boosted_scores.
  set (onorm := if existsb (fun s => negb (Qeq_bool s 0)) sims_o
                then _minmax sims_o else map (fun _ => 0%Q) ids).
  assert (Ho : List.length onorm = List.length ids).
  { unfold onorm. destruct (existsb _ sims_o).
    - now rewrite minmax_length.
    - now rewrite length_map. }
  destruct (mapM_total
              (fun i => o <- py_index onorm i ;;
                        Ok (o * embedding_weight np sims_o)%Q)
              (seq 0 (List.length ids))) as (weighted & Hw).
  { apply Forall_forall. intros i Hi. apply in_seq in Hi.
    destruct (py_index_lt onorm i) as (o & Hoi); [lia |].
    rewrite Hoi. cbn [bind]. eauto. }
  rewrite Hw. cbn [bind].
  rewrite rrf_scores_zero; [reflexivity | exact HK |].
  destruct ids; simpl; [congruence | lia].
Qed.

(** The pool of a search that reached the second stage is not empty and
    its arrays have one length. *)
Lemma pool_shape (np : Numpy) (cfg : Config) (env : Env) (q uid : string)
  (tr : list Event) (scores : list Q) (c : Candidates) :
  argsort_spec np -> 1 <= TOP_OAI cfg ->
  retrieve np cfg env q uid = (tr, Ok (Some (scores, c))) ->
  let pool := rerank_pool np scores c in
  c_ids pool <> []
  /\ List.length (c_texts pool) = List.length (c_ids pool)
  /\ List.length (c_hashes pool) = List.length (c_ids pool)
  /\ List.length (c_ids pool) <= List.length (c_bnorm pool).
Proof.
  intros np_ok Htop Eret.
  destruct (retrieve_some np cfg env q uid tr scores c Eret)
    as (Hscores & rows & Hrows & Hsel).
  pose proof (candidates_nonempty np cfg rows c np_ok Htop Hrows Hsel)
    as Hids.
  apply (select_candidates_from np cfg np_ok) in Hsel.
  destruct (candidates_lengths cfg rows c Hsel) as (Lt & Lh & Lb).
  pose proof (adaptive_budget_pos np scores Hscores) as Hbudget.
  unfold rerank_pool. simpl. rewrite !length_firstn.
  split; [| lia].
  destruct (c_ids c) as [| i0 ids0]; [congruence |].
  destruct (_adaptive_budget np scores); [lia |]. discriminate.
Qed.

(** X19.  With [RRF_K] set to 0, every search that reaches the fusion
    stage, the embedding provider having returned one vector for every
    input, raises [ZeroDivisionError]: the first candidate has BM25 rank 0,
    and its reciprocal rank is 1 / (0 + 0). *)
Theorem zero_rrf_offset_raises (np : Numpy) (cfg : Config)
  (md5 : string -> string) (env : Env) (q uid path : string)
  (tr : list Event) (scores : list Q) (c : Candidates) (V : list vec) :
  argsort_spec np ->
  1 <= TOP_OAI cfg ->
  RRF_K cfg = 0 ->
  retrieve np cfg env q uid = (tr, Ok (Some (scores, c))) ->
  numeric_only q = false ->
  let input := embed_input_of env q (rerank_pool np scores c) in
  oai_embed env input = Some V ->
  List.length V = List.length input ->
  snd (_search_single_sentence np cfg md5 env q uid path)
  = Raise ZeroDivisionError.
Proof.
  intros np_ok Htop HK Eret Hnum input HV HlenV.
  destruct (pool_shape np cfg env q uid tr scores c np_ok Htop Eret)
    as (Hne & Lt & Lh & Lb).
  unfold _search_single_sentence. rewrite Eret, Hnum.
  set (pool := rerank_pool np scores c) in *.
  assert (Hsnd : snd (rerank np cfg md5 env uid path q pool)
                 = Raise ZeroDivisionError).
  { unfold rerank.
    assert (Hinput : List.length input
                     = S (List.length
                            (snd (cache_lookup env (c_hashes pool)
                                    (c_texts pool))))).
    { unfold input, embed_input_of. simpl. now rewrite length_map. }
    assert (Hembed : _oai_embed env input = oai_embed env input)
      by reflexivity.
    fold input. rewrite Hembed, HV.
    destruct (cache_lookup env (c_hashes pool) (c_texts pool)) as [cm need].
    cbn [snd] in Hinput. rewrite Hinput in HlenV.
    destruct (py_index_lt V 0) as (qv & Hqv); [lia |]. rewrite Hqv.
    cbn [bind].
    destruct (new_vectors_total V need 0) as (fresh & Hfresh); [lia |].
    unfold new_vectors. rewrite Hfresh. cbn [bind snd].
    unfold fuse. rewrite boosted_scores_zero; [reflexivity | exact HK | |].
    - exact Hne.
    - rewrite similarities_length. exact Lh. }
  destruct (rerank np cfg md5 env uid path q pool) as [tr2 res].
  exact Hsnd.
Qed.

Lemma zero_rrf_offset_witness :
  argsort_spec reference_numpy
  /\ 1 <= TOP_OAI rrf_zero
  /\ RRF_K rrf_zero = 0
  /\ retrieve reference_numpy rrf_zero archive_up archive_query "u"
     = (down_trace, Ok (Some (down_scores, down_candidates)))
  /\ numeric_only archive_query = false
  /\ snd (_search_single_sentence reference_numpy rrf_zero same_text
            archive_up archive_query "u" "p")
     = Raise ZeroDivisionError.
Proof.
  assert (Htop : 1 <= TOP_OAI rrf_zero) by (simpl; lia).
  assert (Hret : retrieve reference_numpy rrf_zero archive_up archive_query
                   "u"
                 = (down_trace, Ok (Some (down_scores, down_candidates))))
    by (vm_compute; reflexivity).
  split; [exact reference_numpy_ok |]. split; [exact Htop |].
  split; [reflexivity |]. split; [exact Hret |]. split; [reflexivity |].
  apply (zero_rrf_offset_raises reference_numpy rrf_zero same_text archive_up
           archive_query "u" "p" down_trace down_scores down_candidates
           (map vector_of
              (embed_input_of archive_up archive_query
                 (rerank_pool reference_numpy down_scores down_candidates)))
           reference_numpy_ok Htop eq_refl Hret eq_refl eq_refl).
  apply length_map.
Defined.

Lemma new_vectors_short (V : list vec) (need : list (nat * string * string)) :
  forall s,
    1 + s <= List.length V ->
    List.length V < 1 + s + List.length need ->
    mapM (fun '(j, (_, _, text_hash)) =>
            dv <- py_index V (1 + j) ;; Ok (text_hash, dv))
         (combine (seq s (List.length need)) need) = Raise IndexError.
Proof.
  induction need as [| [[i t] h] need IH]; intros s Hlow Hlen.
  - simpl in Hlen. lia.
  - cbn [List.length seq combine mapM].
    destruct (Nat.lt_ge_cases (1 + s) (List.length V)) as [Hlt | Hge].
    + destruct (py_index_lt V (1 + s) Hlt) as (dv & Hdv).
      rewrite Hdv. cbn [bind].
      rewrite (IH (S s)); [reflexivity | lia | simpl in Hlen; lia].
    + unfold py_index at 1.
      destruct (nth_error V (1 + s)) as [dv |] eqn:E; [| reflexivity].
      assert (Hn : nth_error V (1 + s) <> None) by congruence.
      apply nth_error_Some in Hn. lia.
Qed.

(** X20.  When the embedding provider returns fewer vectors than it was
    sent inputs, a search off the numeric-only shortcut raises
    [IndexError]. *)
Theorem short_provider_answer_raises (np : Numpy) (cfg : Config)
  (md5 : string -> string) (env : Env) (q uid path : string)
  (tr : list Event) (scores : list Q) (c : Candidates) (V : list vec) :
  retrieve np cfg env q uid = (tr, Ok (Some (scores, c))) ->
  numeric_only q = false ->
  let input := embed_input_of env q (rerank_pool np scores c) in
  oai_embed env input = Some V ->
  List.length V < List.length input ->
  _search_single_sentence np cfg md5 env q uid path
  = (tr ++ [EvEmbed input], Raise IndexError).
Proof.
  intros Eret Hnum input HV HlenV.
  unfold _search_single_sentence. rewrite Eret, Hnum.
  set (pool := rerank_pool np scores c) in *.
  assert (Hrun : rerank np cfg md5 env uid path q pool
                 = ([EvEmbed input], Raise IndexError)).
  { unfold rerank.
    assert (Hinput : List.length input
                     = S (List.length
                            (snd (cache_lookup env (c_hashes pool)
                                    (c_texts pool))))).
    { unfold input, embed_input_of. simpl. now rewrite length_map. }
    assert (Hembed : _oai_embed env input = oai_embed env input)
      by reflexivity.
    fold input. rewrite Hembed, HV.
    destruct (cache_lookup env (c_hashes pool) (c_texts pool)) as [cm need].
    cbn [snd] in Hinput. rewrite Hinput in HlenV.
    destruct V as [| qv V'].
    - reflexivity.
    - cbn [py_index nth_error bind].
      unfold new_vectors.
      rewrite (new_vectors_short (qv :: V') need 0);
        [reflexivity | simpl; lia | simpl in *; lia]. }
  rewrite Hrun. reflexivity.
Qed.

Lemma short_provider_answer_witness :
  retrieve reference_numpy default_config archive_short archive_query "u"
  = (down_trace, Ok (Some (down_scores, down_candidates)))
  /\ numeric_only archive_query = false
  /\ snd (_search_single_sentence reference_numpy default_config same_text
            archive_short archive_query "u" "p")
     = Raise IndexError.
Proof.
  assert (Hret : retrieve reference_numpy default_config archive_short
                   archive_query "u"
                 = (down_trace, Ok (Some (down_scores, down_candidates))))
    by (vm_compute; reflexivity).
  split; [exact Hret |]. split; [reflexivity |].
  rewrite (short_provider_answer_raises reference_numpy default_config
             same_text archive_short archive_query "u" "p" down_trace
             down_scores down_candidates [[(3 # 5)%Q; (4 # 5)%Q]]
             Hret eq_refl eq_refl).
  - reflexivity.
  - vm_compute. lia.
Defined.

(** * The entry point *)

Lemma dedup_idempotent (l : list string) : dedup (dedup l) = dedup l.
Proof.
  unfold dedup at 1. apply dedup_aux_fresh; [apply dedup_NoDup |].
  intros x _ [].
Qed.

Lemma dedup_length (l : list string) :
  List.length (dedup l) <= List.length l.
Proof.
  apply NoDup_incl_length; [apply dedup_NoDup |].
  intros x Hx. exact (proj1 (dedup_In l x) Hx).
Qed.

Lemma dedup_cons_nonempty (x : string) (l : list string) :
  dedup (x :: l) <> [].
Proof. unfold dedup. simpl. discriminate. Qed.

Lemma search_all_each (np : Numpy) (cfg : Config) (md5 : string -> string)
  (env_of : string -> Env) (uid path : string) (sentences : list string) :
  forall tr results,
    search_all np cfg md5 env_of uid path sentences = (tr, Ok results) ->
    Forall2 (fun s out =>
               snd (_search_single_sentence np cfg md5 (env_of s) s uid path)
               = Ok out) sentences results
    /\ tr = flat_map
              (fun s =>
                 fst (_search_single_sentence np cfg md5 (env_of s) s uid
                        path)) sentences.
Proof.
  induction sentences as [| s rest IH]; intros tr results H; simpl in H.
  - inversion H; subst. split; constructor.
  - destruct (_search_single_sentence np cfg md5 (env_of s) s uid path)
      as [tr1 [out | ex]] eqn:E1; [| discriminate H].
    destruct (search_all np cfg md5 env_of uid path rest)
      as [tr2 [outs | ex]] eqn:E2; [| discriminate H].
    simpl in H. inversion H; subst tr results. clear H.
    destruct (IH tr2 outs eq_refl) as (Hall & Htr).
    split.
    + constructor; [| exact Hall]. now rewrite E1.
    + simpl. rewrite E1. simpl. now rewrite Htr.
Qed.

(** X21.  [semantic_search] answers an empty list of sentences, and a file
    whose indexing fails, with an empty list, without a query to the index
    or a call to the embedding provider.  Otherwise, when no search raises,
    it returns one result list for every distinct sentence, in the order of
    first occurrence: a sentence given twice is searched once, so there can
    be fewer result lists than sentences; the recorded calls are those of
    the searches, in that order; and leaving the repeated sentences out of
    the input changes nothing. *)
Theorem semantic_search_one_list_per_distinct_sentence (np : Numpy)
  (cfg : Config) (md5 : string -> string)
  (ensure_indexed : string -> option string) (env_of : string -> Env)
  (path : string) (sentences : list string) :
  semantic_search np cfg md5 ensure_indexed env_of path [] = ([], Ok [])
  /\ (ensure_indexed path = None ->
      semantic_search np cfg md5 ensure_indexed env_of path sentences
      = ([], Ok []))
  /\ (forall uid tr results,
        ensure_indexed path = Some uid ->
        semantic_search np cfg md5 ensure_indexed env_of path sentences
        = (tr, Ok results) ->
        Forall2 (fun s out =>
                   snd (_search_single_sentence np cfg md5 (env_of s) s uid
                          path) = Ok out) (dedup sentences) results
        /\ List.length results = List.length (dedup sentences)
        /\ List.length results <= List.length sentences
        /\ tr = flat_map
                  (fun s =>
                     fst (_search_single_sentence np cfg md5 (env_of s) s uid
                            path)) (dedup sentences))
  /\ semantic_search np cfg md5 ensure_indexed env_of path (dedup sentences)
     = semantic_search np cfg md5 ensure_indexed env_of path sentences.
Proof.
  split; [reflexivity |]. split; [| split].
  - intros Hnone. unfold semantic_search. rewrite Hnone.
    now destruct sentences.
  - intros uid tr results Huid Hrun. unfold semantic_search in Hrun.
    rewrite Huid in Hrun.
    assert (Hall : search_all np cfg md5 env_of uid path (dedup sentences)
                   = (tr, Ok results)).
    { destruct sentences as [| s rest]; [| exact Hrun].
      inversion Hrun; subst. reflexivity. }
    destruct (search_all_each np cfg md5 env_of uid path (dedup sentences)
                tr results Hall) as (Heach & Htr).
    split; [exact Heach |].
    assert (Hlen : List.length results = List.length (dedup sentences)).
    { symmetry. eapply Forall2_length_eq, Heach. }
    split; [exact Hlen |]. split; [| exact Htr].
    rewrite Hlen. apply dedup_length.
  - unfold semantic_search. rewrite dedup_idempotent.
    destruct sentences as [| s rest]; [reflexivity |].
    destruct (dedup (s :: rest)) as [| s' rest'] eqn:E; [| reflexivity].
    now apply dedup_cons_nonempty in E.
Qed.

(** * The scale of the scores *)

Lemma minmax_bounds (xs : list Q) (i : nat) :
  i < List.length xs ->
  (0 <= nth i (_minmax xs) 0)%Q /\ (nth i (_minmax xs) 0 <= 1)%Q.
Proof.
  intros Hi. rewrite (minmax_nth xs i Hi).
  assert (Hx : In (nth i xs 0%Q) xs) by (now apply nth_In).
  pose proof (np_min_le xs _ Hx) as Hlo.
  pose proof (np_max_ge xs _ Hx) as Hhi.
  set (x := nth i xs 0%Q) in *. set (lo := np_min xs) in *.
  set (hi := np_max xs) in *. clearbody x lo hi.
  destruct (Qltb (hi - lo) 1e-9) eqn:E; [split; lra |].
  apply Qltb_ge in E. change (1e-9)%Q with (1 # 1000000000)%Q in E.
  assert (Hden : (0 < hi - lo)%Q) by lra.
  split.
  - apply Qle_shift_div_l; [exact Hden | lra].
  - apply Qle_shift_div_r; [exact Hden | lra].
Qed.

Lemma inv_bounds (a b : Q) :
  (0 < a)%Q -> (a <= b)%Q -> (0 < 1 / b)%Q /\ (1 / b <= 1 / a)%Q.
Proof.
  intros Ha Hab. assert (Hb : (0 < b)%Q) by lra. split.
  - apply Qlt_shift_div_l; [exact Hb | lra].
  - apply Qle_shift_div_r; [exact Hb |].
    setoid_replace (1 / a * b)%Q with (b / a)%Q by (field; lra).
    apply Qle_shift_div_l; [exact Ha | lra].
Qed.

Lemma of_nat_le (n m : nat) : n <= m -> (of_nat n <= of_nat m)%Q.
Proof.
  intros H. unfold of_nat, Qle. simpl. lia.
Qed.

(** A reciprocal-rank score lies in (0, 2 / RRF_K]. *)
Lemma rrf_scores_bounds (cfg : Config) (n : nat) (embed_ranks : list nat)
  (rrf : list Q) :
  1 <= RRF_K cfg ->
  rrf_scores_of cfg n embed_ranks = Ok rrf ->
  List.length rrf = n
  /\ forall i, i < n ->
       (0 < nth i rrf 0)%Q
       /\ (nth i rrf 0 <= 2 * (1 / of_nat (RRF_K cfg)))%Q.
Proof.
  intros HK H. unfold rrf_scores_of in H.
  pose proof (mapM_length _ _ _ H) as Hlen. rewrite length_seq in Hlen.
  split; [exact Hlen |]. intros i Hi.
  apply mapM_ok in H.
  pose proof (Forall2_seq_nth _ n rrf 0%Q H i Hi) as Hi'. cbv beta in Hi'.
  rewrite py_div_ok in Hi' by (apply of_nat_nonzero; lia). cbn [bind] in Hi'.
  apply bind_ok in Hi'. destruct Hi' as (er & _ & Hi').
  rewrite py_div_ok in Hi' by (apply of_nat_nonzero; lia). cbn [bind] in Hi'.
  inversion Hi' as [Heq]. clear Hi'.
  pose proof (of_nat_pos (RRF_K cfg) HK) as Ha.
  destruct (inv_bounds (of_nat (RRF_K cfg)) (of_nat (RRF_K cfg + i)) Ha)
    as (H1 & H2); [apply of_nat_le; lia |].
  destruct (inv_bounds (of_nat (RRF_K cfg)) (of_nat (RRF_K cfg + er)) Ha)
    as (H3 & H4); [apply of_nat_le; lia |].
  set (u := (1 / of_nat (RRF_K cfg))%Q) in *.
  set (x := (1 / of_nat (RRF_K cfg + i))%Q) in *.
  set (y := (1 / of_nat (RRF_K cfg + er))%Q) in *.
  clearbody u x y. split; lra.
Qed.

Lemma normalized_unit (raw out : list Q) (i : nat) :
  normalized raw out -> i < List.length raw ->
  (0 <= nth i out 0)%Q /\ (nth i out 0 < 1)%Q.
Proof.
  intros (_ & H) Hi. destruct (H i Hi) as (_ & H0 & H1 & _). now split.
Qed.

(** A final score lies in (0, 3.6 / RRF_K). *)
Lemma boosted_scores_bounds (np : Numpy) (cfg : Config) (q : string)
  (ids : list Z) (texts : list string) (sims_o fs : list Q) :
  1 <= RRF_K cfg ->
  List.length texts = List.length ids ->
  boosted_scores np cfg q ids texts sims_o = Ok fs ->
  forall s, In s fs ->
    (0 < s)%Q /\ (s < 3.6 * (1 / of_nat (RRF_K cfg)))%Q.
Proof.
  intros HK Ht H s Hs. unfold boosted_scores in H.
  apply bind_ok in H. destruct H as (weighted & _ & H).
  apply bind_ok in H. destruct H as (rrf & Hrrf & H).
  apply bind_ok in H. destruct H as ([[j p] d] & Hb & H).
  destruct (rrf_scores_bounds cfg _ _ rrf HK Hrrf) as (Lrrf & Brrf).
  unfold _compute_boost_features in Hb.
  apply bind_ok in Hb. destruct Hb as (j' & Hj & Hb).
  apply bind_ok in Hb. destruct Hb as (p' & Hp & Hb).
  apply bind_ok in Hb. destruct Hb as (d' & Hd & Hb).
  inversion Hb; subst j' p' d'. clear Hb.
  apply normalize_normalized in Hj, Hp, Hd.
  destruct (final_scores_of_spec rrf j p d fs H) as (Lfs & Hfs).
  apply In_nth with (d := 0%Q) in Hs. destruct Hs as (i & Hi & <-).
  rewrite Lfs in Hi. rewrite (Hfs i Hi).
  assert (Hi' : i < List.length ids) by lia.
  destruct (Brrf i Hi') as (R0 & R1).
  destruct (normalized_unit _ j i Hj) as (J0 & J1);
    [rewrite length_map; lia |].
  destruct (normalized_unit _ p i Hp) as (P0 & P1);
    [rewrite length_map; lia |].
  destruct (normalized_unit _ d i Hd) as (D0 & D1);
    [rewrite length_map; lia |].
  pose proof (of_nat_pos (RRF_K cfg) HK) as Ha.
  destruct (inv_bounds (of_nat (RRF_K cfg)) (of_nat (RRF_K cfg)) Ha)
    as (U0 & _); [apply Qle_refl |].
  set (u := (1 / of_nat (RRF_K cfg))%Q) in *.
  set (r := nth i rrf 0%Q) in *. set (a := nth i j 0%Q) in *.
  set (b := nth i p 0%Q) in *. set (c := nth i d 0%Q) in *.
  clearbody u r a b c. split; nra.
Qed.

Lemma bm25_results_scores (cfg : Config) (stage : Stage)
  (uid path q : string) (ids : list Z) (texts : list string)
  (bnorm : list Q) (out : list Result) (r : Result) :
  bm25_results cfg stage uid path q ids texts bnorm = Ok out ->
  In r out ->
  rank_stage r = stage /\ In (score r) bnorm.
Proof.
  intros Hrun Hr. unfold bm25_results in Hrun.
  apply mapM_ok in Hrun.
  destruct (Forall2_In_r _ _ _ _ Hrun Hr) as (j & _ & Hj).
  apply bind_ok in Hj. destruct Hj as (id & _ & Hj).
  apply bind_ok in Hj. destruct Hj as (b & Hb & Hj).
  apply bind_ok in Hj. destruct Hj as (t & _ & Hj).
  inversion Hj; subst r. simpl. split; [reflexivity |].
  apply py_index_ok in Hb. eapply nth_error_In, Hb.
Qed.

Lemma candidates_bnorm_unit (cfg : Config) (rows : list Row)
  (c : Candidates) (b : Q) :
  candidates_from cfg rows c -> In b (c_bnorm c) ->
  (0 <= b)%Q /\ (b <= 1)%Q.
Proof.
  intros (braw & keep & Hbraw & _ & Hk & _ & _ & _ & Hb & _) Hin.
  rewrite Hb in Hin. apply in_map_iff in Hin.
  destruct Hin as (k & <- & Hkin).
  apply minmax_bounds.
  rewrite Forall_forall in Hk. specialize (Hk k Hkin).
  apply mapM_length in Hbraw. lia.
Qed.

Lemma fuse_scores (np : Numpy) (cfg : Config) (md5 : string -> string)
  (uid path q : string) (ids : list Z) (texts text_hashes : list string)
  (cache_map : Dict) (qv : vec) (sims_o : list Q) (out : list Result)
  (r : Result) :
  fuse np cfg md5 uid path q ids texts text_hashes cache_map qv sims_o
  = Ok out ->
  In r out ->
  (rank_stage r = S3 \/ rank_stage r = S3_MMR)
  /\ exists fs, boosted_scores np cfg q ids texts sims_o = Ok fs
                /\ In (score r) fs.
Proof.
  intros Hrun Hr. unfold fuse in Hrun.
  apply bind_ok in Hrun. destruct Hrun as (fs & Hfs & Hrun).
  apply bind_ok in Hrun. destruct Hrun as (docs & Hdocs & Hrun).
  inversion Hrun; subst out. clear Hrun.
  unfold emit in Hr. apply in_map_iff in Hr.
  destruct Hr as ([[id t] s] & <- & Hd). simpl.
  split; [destruct (coverage_ok ids sims_o); auto |].
  exists fs. split; [exact Hfs |].
  destruct (select_final_perm cfg md5 _ _ _ _ _ _ _ Hdocs) as (rest & Hperm).
  assert (Hin : In (id, t, s) (combine (combine ids texts) fs)).
  { eapply Permutation_in; [apply scored_docs_perm |].
    eapply Permutation_in; [exact Hperm |]. apply in_or_app. now left. }
  apply in_combine3 in Hin. destruct Hin as (i & _ & _ & Hs).
  eapply nth_error_In, Hs.
Qed.

(** X22.  The scores of one search are on one of two scales, told by the
    stage tag: a result of a BM25-only exit (S1, S1_embed_fail) has a score
    in [0, 1], the min-max normalized BM25 score; a result of the fusion
    path (S3, S3_MMR) has a score strictly between 0 and 3.6 / RRF_K, 0.06
    with the default 60.  [RRF_K] is at least 1. *)
Theorem score_scale_by_stage (np : Numpy) (cfg : Config)
  (md5 : string -> string) (env : Env) (q uid path : string)
  (tr : list Event) (out : list Result) :
  argsort_spec np ->
  1 <= RRF_K cfg ->
  _search_single_sentence np cfg md5 env q uid path = (tr, Ok out) ->
  Forall (fun r =>
            match rank_stage r with
            | S1 | S1_embed_fail => (0 <= score r)%Q /\ (score r <= 1)%Q
            | S3 | S3_MMR =>
                (0 < score r)%Q
                /\ (score r < 3.6 * (1 / of_nat (RRF_K cfg)))%Q
            end) out.
Proof.
  intros np_ok HK Hrun. apply Forall_forall. intros r Hr.
  unfold _search_single_sentence in Hrun.
  destruct (retrieve np cfg env q uid) as [tr0 [[[scores c] |] | ex]]
    eqn:Eret.
  - destruct (retrieve_some np cfg env q uid tr0 scores c Eret)
      as (_ & rows & _ & Hsel).
    apply (select_candidates_from np cfg np_ok) in Hsel.
    destruct (candidates_lengths cfg rows c Hsel) as (Lt & Lh & Lb).
    destruct (numeric_only q).
    + injection Hrun as _ Hout.
      destruct (bm25_results_scores _ _ _ _ _ _ _ _ _ r Hout Hr)
        as (-> & Hb).
      exact (candidates_bnorm_unit cfg rows c _ Hsel Hb).
    + destruct (rerank np cfg md5 env uid path q (rerank_pool np scores c))
        as [tr2 res] eqn:Erer.
      injection Hrun as _ Hout. subst res.
      unfold rerank in Erer.
      destruct (cache_lookup env (c_hashes (rerank_pool np scores c))
                  (c_texts (rerank_pool np scores c))) as [cm need].
      destruct (_oai_embed env
                  (embed_input_of env q (rerank_pool np scores c)))
        as [V |].
      * destruct (py_index V 0) as [qv | ex]; [| discriminate Erer].
        cbn [bind] in Erer.
        destruct (new_vectors V need) as [fresh | ex];
          [| discriminate Erer].
        cbn [bind] in Erer. injection Erer as _ Hfuse.
        destruct (fuse_scores _ _ _ _ _ _ _ _ _ _ _ _ _ r Hfuse Hr)
          as (Hstage & fs & Hfs & Hin).
        assert (Hbound : (0 < score r)%Q
                         /\ (score r < 3.6 * (1 / of_nat (RRF_K cfg)))%Q).
        { refine (boosted_scores_bounds np cfg q _ _ _ fs HK _ Hfs _ Hin).
          unfold rerank_pool. simpl. rewrite !length_firstn. lia. }
        destruct Hstage as [-> | ->]; exact Hbound.
      * injection Erer as _ Hout.
        destruct (bm25_results_scores _ _ _ _ _ _ _ _ _ r Hout Hr)
          as (-> & Hb).
        exact (candidates_bnorm_unit cfg rows c _ Hsel Hb).
  - injection Hrun as _ Hout. subst out. destruct Hr.
  - discriminate Hrun.
Qed.

Lemma score_scale_witness :
  argsort_spec reference_numpy
  /\ 1 <= RRF_K two_results
  /\ _search_single_sentence reference_numpy two_results same_text
       archive_up archive_query "u" "p" = (two_trace, Ok two_out)
  /\ Forall (fun r =>
               match rank_stage r with
               | S1 | S1_embed_fail => (0 <= score r)%Q /\ (score r <= 1)%Q
               | S3 | S3_MMR =>
                   (0 < score r)%Q
                   /\ (score r < 3.6 * (1 / of_nat (RRF_K two_results)))%Q
               end) two_out.
Proof.
  assert (HK : 1 <= RRF_K two_results) by (simpl; lia).
  assert (Hrun : _search_single_sentence reference_numpy two_results same_text
                   archive_up archive_query "u" "p" = (two_trace, Ok two_out))
    by (vm_compute; reflexivity).
  split; [exact reference_numpy_ok |]. split; [exact HK |].
  split; [exact Hrun |].
  pose proof (score_scale_by_stage reference_numpy two_results same_text
                archive_up archive_query "u" "p" two_trace two_out
                reference_numpy_ok HK Hrun) as H.
  eapply Forall_impl; [| exact H].
  intros r Hr. exact Hr.
Defined.

(** * The expansion terms of the PRF pass *)

Lemma count_add_keys (t : string) (m : list (string * nat)) (k : string) :
  In k (map fst (count_add t m)) <-> k = t \/ In k (map fst m).
Proof.
  induction m as [| [k0 v] m IH]; simpl.
  - intuition.
  - destruct (String.eqb_spec k0 t) as [-> | Hne]; simpl.
    + intuition.
    + rewrite IH. intuition.
Qed.

Lemma tf_map_keys (doc_tokens : list string) (k : string) :
  In k (map fst (tf_map doc_tokens)) -> In k doc_tokens.
Proof.
  unfold tf_map.
  assert (H : forall m,
             In k (map fst (fold_left (fun m t => count_add t m)
                                      doc_tokens m)) ->
             In k doc_tokens \/ In k (map fst m)).
  { induction doc_tokens as [| t ts IH]; intros m Hk; simpl in *;
      [now right |].
    destruct (IH _ Hk) as [Hin | Hin]; [auto |].
    apply count_add_keys in Hin. destruct Hin as [-> | Hin]; auto. }
  intros Hk. destruct (H [] Hk) as [Hin | []]. exact Hin.
Qed.

Lemma score_add_keys (t : string) (s : Q) (m : list (string * Q))
  (k : string) :
  In k (map fst (score_add t s m)) <-> k = t \/ In k (map fst m).
Proof.
  induction m as [| [k0 v] m IH]; simpl.
  - intuition.
  - destruct (String.eqb_spec k0 t) as [-> | Hne]; simpl.
    + intuition.
    + rewrite IH. intuition.
Qed.

Lemma score_add_NoDup (t : string) (s : Q) (m : list (string * Q)) :
  NoDup (map fst m) -> NoDup (map fst (score_add t s m)).
Proof.
  induction m as [| [k0 v] m IH]; simpl; intros Hnd.
  - repeat constructor. intros [].
  - inversion Hnd as [| ? ? Hk0 Hnd']; subst.
    destruct (String.eqb_spec k0 t) as [-> | Hne]; simpl.
    + now constructor.
    + constructor; [| now apply IH].
      rewrite score_add_keys. intros [-> | Hin]; [congruence | contradiction].
Qed.

Lemma prf_add_doc_ok (query_tokens : list string) (docs : list Doc)
  (ts : list (string * Q)) (d : Doc) :
  In d docs ->
  prf_terms_ok query_tokens docs ts ->
  prf_terms_ok query_tokens docs (prf_add_doc query_tokens ts d).
Proof.
  intros Hd. destruct d as [[id text] sc]. unfold prf_add_doc.
  pose proof (tf_map_keys (tok text)) as Hkeys.
  revert ts. induction (tf_map (tok text)) as [| [term tf] m IH];
    intros ts Hok; simpl; [exact Hok |].
  apply IH.
  - intros k Hk. apply Hkeys. simpl. now right.
  - destruct (prf_skip query_tokens term) eqn:Eskip; [exact Hok |].
    destruct Hok as (Hnd & Hall). split; [now apply score_add_NoDup |].
    intros k Hk. apply score_add_keys in Hk.
    destruct Hk as [-> | Hk]; [| now apply Hall].
    split; [exact Eskip |]. exists (id, text, sc). split; [exact Hd |].
    apply Hkeys. simpl. now left.
Qed.

Lemma prf_fold_ok (query_tokens : list string) (docs : list Doc) :
  forall used ts,
    (forall d, In d used -> In d docs) ->
    prf_terms_ok query_tokens docs ts ->
    prf_terms_ok query_tokens docs
      (fold_left (prf_add_doc query_tokens) used ts).
Proof.
  induction used as [| d used IH]; intros ts Hsub Hok; simpl; [exact Hok |].
  apply IH.
  - intros d' Hd'. apply Hsub. now right.
  - apply prf_add_doc_ok; [apply Hsub; now left | exact Hok].
Qed.

(** Dropping entries of a term-score dictionary leaves its terms distinct. *)
Lemma filtered_terms_In (keep : string * Q -> bool) (m : list (string * Q))
  (k : string) :
  In k (map fst (filter keep m)) -> In k (map fst m).
Proof.
  rewrite !in_map_iff. intros (entry & Hk & Hentry).
  apply filter_In in Hentry. exists entry. tauto.
Qed.

Lemma filtered_terms_NoDup (keep : string * Q -> bool)
  (m : list (string * Q)) :
  NoDup (map fst m) -> NoDup (map fst (filter keep m)).
Proof.
  induction m as [| entry m IH]; intros Hm; [constructor |].
  cbn [map] in Hm. apply NoDup_cons_iff in Hm. destruct Hm as (Hnew & Hm).
  cbn [filter]. destruct (keep entry); [| exact (IH Hm)].
  cbn [map]. apply NoDup_cons; [| exact (IH Hm)].
  intros Hin. exact (Hnew (filtered_terms_In keep m _ Hin)).
Qed.

(** X23.  The expansion terms [_extract_prf_terms] returns: at most [PRF_M]
    of them and none twice; each is a token of one of the first [PRF_K]
    documents, of at least three characters, no stop word, not a number and
    not one of the query tokens. *)
Theorem prf_terms_are_new_content_words (cfg : Config) (docs : list Doc)
  (query_tokens : list string) :
  let terms := _extract_prf_terms cfg docs query_tokens in
  List.length terms <= PRF_M cfg
  /\ NoDup terms
  /\ forall t, In t terms ->
       3 <= String.length t
       /\ ~ In t STOP
       /\ is_digits t = false
       /\ ~ In t query_tokens
       /\ exists d, In d (firstn (PRF_K cfg) docs) /\ In t (tok (doc_text d)).
Proof.
  cbv zeta. unfold _extract_prf_terms.
  set (used := firstn (PRF_K cfg) docs).
  set (term_scores := fold_left (prf_add_doc query_tokens) used []).
  set (sorted_terms :=
         sort_by (fun a b => Qle_bool (snd b) (snd a)) term_scores).
  assert (Hok : prf_terms_ok query_tokens used term_scores).
  { apply prf_fold_ok; [auto |]. split; [constructor | intros k []]. }
  destruct Hok as (Hnd & Hall).
  assert (Hperm : Permutation sorted_terms term_scores)
    by apply sort_by_perm.
  assert (Hnd' : NoDup
                   (map fst (filter (fun ts => Qltb 0.1 (snd ts))
                                    (firstn (PRF_M cfg) sorted_terms)))).
  { apply filtered_terms_NoDup. rewrite <- firstn_map. apply NoDup_firstn.
    eapply Permutation_NoDup;
      [apply Permutation_sym, Permutation_map, Hperm | exact Hnd]. }
  split; [apply firstn_le_length |].
  split; [now apply NoDup_firstn |].
  intros t Ht. apply In_firstn in Ht. apply in_map_iff in Ht.
  destruct Ht as ([k v] & <- & Hin). simpl.
  apply filter_In in Hin. destruct Hin as (Hin & _).
  apply In_firstn in Hin.
  assert (Hkey : In k (map fst term_scores)).
  { apply in_map_iff. exists (k, v). split; [reflexivity |].
    eapply Permutation_in; [exact Hperm | exact Hin]. }
  destruct (Hall k Hkey) as (Hskip & d & Hd & Htok).
  unfold prf_skip in Hskip.
  apply orb_false_iff in Hskip. destruct Hskip as (Hskip & Hq).
  apply orb_false_iff in Hskip. destruct Hskip as (Hskip & Hdig).
  apply orb_false_iff in Hskip. destruct Hskip as (Hlen & Hstop).
  apply Nat.ltb_ge in Hlen.
  split; [exact Hlen |].
  split; [exact (proj1 (mem_not_In k STOP) Hstop) |].
  split; [exact Hdig |].
  split; [exact (proj1 (mem_not_In k query_tokens) Hq) |].
  exists d. split; [exact Hd | exact Htok].
Qed.

(** * Rank correlation *)

Lemma fold_add_nonneg (ds : list Z) :
  Forall (fun d => (0 <= d)%Z) ds ->
  forall a, (0 <= a)%Z -> (0 <= fold_left Z.add ds a)%Z.
Proof.
  induction 1 as [| d ds Hd _ IH]; intros a Ha; simpl; [exact Ha |].
  apply IH. lia.
Qed.

Lemma fold_add_zero (ds : list Z) :
  Forall (fun d => d = 0%Z) ds -> fold_left Z.add ds 0%Z = 0%Z.
Proof.
  induction 1 as [| d ds Hd _ IH]; simpl; [reflexivity |].
  subst d. exact IH.
Qed.

Lemma Forall2_Forall_r {A B : Type} (R : A -> B -> Prop) (P : B -> Prop)
  (l : list A) (l' : list B) :
  (forall x y, R x y -> P y) -> Forall2 R l l' -> Forall P l'.
Proof.
  intros HR. induction 1; constructor; eauto.
Qed.

Lemma rank_denominator_pos (n : nat) :
  5 <= n ->
  (0 < inject_Z (Z.of_nat n * (Z.of_nat n * Z.of_nat n - 1)))%Q.
Proof.
  intros Hn. unfold Qlt. simpl. nia.
Qed.

Lemma one_minus_quotient_le (a b : Z) :
  (0 <= a)%Z -> (0 < inject_Z b)%Q ->
  (1 - inject_Z a / inject_Z b <= 1)%Q.
Proof.
  intros Ha Hb.
  assert (Hnum : (0 <= inject_Z a)%Q)
    by (change 0%Q with (inject_Z 0); rewrite <- Zle_Qle; exact Ha).
  assert (Hq : (0 <= inject_Z a / inject_Z b)%Q)
    by (apply Qle_shift_div_l; [exact Hb | lra]).
  set (x := (inject_Z a / inject_Z b)%Q) in *. clearbody x. lra.
Qed.

(** X24.  [_compute_rank_correlation]: fewer than five ranks give 0,
    whatever the second list is; from five ranks on, a ranking compared with
    itself gives 1, no result is above 1, and a second list shorter than the
    first raises [IndexError]. *)
Theorem rank_correlation_cases (bm25_ranks embed_ranks : list Z) :
  (List.length bm25_ranks < 5 ->
   _compute_rank_correlation bm25_ranks embed_ranks = Ok 0%Q)
  /\ (5 <= List.length bm25_ranks ->
      exists c, _compute_rank_correlation bm25_ranks bm25_ranks = Ok c
                /\ (c == 1)%Q)
  /\ (forall c, _compute_rank_correlation bm25_ranks embed_ranks = Ok c ->
                (c <= 1)%Q)
  /\ (5 <= List.length bm25_ranks ->
      List.length embed_ranks < List.length bm25_ranks ->
      _compute_rank_correlation bm25_ranks embed_ranks = Raise IndexError).
Proof.
  split; [| split; [| split]].
  - intros Hn. unfold _compute_rank_correlation.
    destruct (Nat.ltb_spec (List.length bm25_ranks) 5); [reflexivity | lia].
  - intros Hn. unfold _compute_rank_correlation.
    destruct (Nat.ltb_spec (List.length bm25_ranks) 5); [lia |].
    rewrite (mapM_map _ (fun _ => 0%Z)).
    + cbn [bind]. eexists. split; [reflexivity |].
      rewrite fold_add_zero
        by (apply Forall_forall; intros d Hd; apply in_map_iff in Hd;
            now destruct Hd as (i & <- & _)).
      pose proof (rank_denominator_pos _ Hn) as Hden.
      set (den := inject_Z _) in *. clearbody den.
      change (inject_Z (6 * 0)) with 0%Q. field. lra.
    + intros i Hi. apply in_seq in Hi.
      rewrite (py_index_nth_ok bm25_ranks i 0%Z) by lia. cbn [bind].
      f_equal. lia.
  - intros c Hc. unfold _compute_rank_correlation in Hc.
    destruct (Nat.ltb_spec (List.length bm25_ranks) 5) as [Hlt | Hge].
    + inversion Hc. lra.
    + apply bind_ok in Hc. destruct Hc as (ds & Hds & Hc).
      injection Hc as <-.
      assert (Hsq : Forall (fun d => (0 <= d)%Z) ds).
      { apply mapM_ok in Hds.
        eapply Forall2_Forall_r; [| exact Hds].
        intros i d Hi. cbv beta in Hi.
        apply bind_ok in Hi. destruct Hi as (b & _ & Hi).
        apply bind_ok in Hi. destruct Hi as (e & _ & Hi).
        inversion Hi. apply Z.square_nonneg. }
      pose proof (fold_add_nonneg ds Hsq 0%Z (Z.le_refl 0)) as Hsum.
      apply one_minus_quotient_le;
        [| exact (rank_denominator_pos _ Hge)].
      change (0 <= 6 * fold_left Z.add ds 0)%Z. lia.
  - intros Hn Hshort. unfold _compute_rank_correlation.
    destruct (Nat.ltb_spec (List.length bm25_ranks) 5); [lia |].
    assert (Hraise :
      forall n s,
        s <= List.length embed_ranks ->
        List.length embed_ranks < s + n ->
        s + n <= List.length bm25_ranks ->
        mapM (fun i => b <- py_index bm25_ranks i ;;
                       e <- py_index embed_ranks i ;;
                       Ok ((b - e) * (b - e))%Z) (seq s n)
        = Raise IndexError).
    { induction n as [| n IH]; intros s Hs Hover Hin; [lia |].
      cbn [seq mapM].
      rewrite (py_index_nth_ok bm25_ranks s 0%Z) by lia. cbn [bind].
      destruct (Nat.lt_ge_cases s (List.length embed_ranks)) as [Hlt | Hge].
      - rewrite (py_index_nth_ok embed_ranks s 0%Z) by lia. cbn [bind].
        rewrite (IH (S s)); [reflexivity | lia | lia | lia].
      - unfold py_index at 1.
        destruct (nth_error embed_ranks s) as [e |] eqn:E; [| reflexivity].
        assert (Hne : nth_error embed_ranks s <> None) by congruence.
        apply nth_error_Some in Hne. lia. }
    rewrite (Hraise (List.length bm25_ranks) 0); [reflexivity | lia | lia | lia].
Qed.

(** ** The engine on concrete inputs *)

Example tok_example :
  tok "The Act of 1789, RATIFIED!" = ["the"; "act"; "of"; "1789"; "ratified"].
Proof. reflexivity. Qed.

Example split_example :
  split_sentences "One. Two!  Three? Four" = ["One."; "Two!"; "Three?"; "Four"].
Proof. reflexivity. Qed.

Example snippet_example :
  _snippet "Alpha one. Beta two. Gamma three. Delta four. Eps five. Zeta six."
           "beta" 280
  = "Alpha one. Beta two. Gamma three. Delta four.".
Proof. reflexivity. Qed.

Example keywords_example :
  _keywords "What is the act of 1789 about" 16 = ["1789"; "about"; "act"].
Proof. reflexivity. Qed.

Example fts_or_example :
  _fts_or ["1789"; "act"]
  = Some ("1789 OR " ++ dquote ++ "act" ++ dquote)%string.
Proof. reflexivity. Qed.
